(** * horde-test: the execution DAG of test suites (lib/dag.py)

    A shallow embedding of [DAGBuilder] and of the part of lib/parser.py it
    reads, followed by the properties of graph construction, cycle
    detection, level scheduling, chunking and runtime tracking.

    Conventions of the embedding.
    - A Python [dict] keyed by suite name is an association list in
      insertion order ([d[k] = v] keeps the position of an existing key and
      appends a new one), since [_build], [_detect_cycles] and
      [get_execution_order] iterate over [self.nodes] in that order.
    - A Python [set] of names is the duplicate-free list of its elements
      in the order of their insertion. Python fixes no iteration order for
      a set, so every loop over a set goes through [set_iter], a
      permutation given by the class [SetOrder]; the properties hold for
      every instance, and the samples run with the order of insertion.
    - A call that may raise returns an [outcome]; [ValueError] carries the
      formatted message, [KeyError] the missing key.
    - [dfs] is a recursive closure, and the interpreter bounds the depth of
      its call stack: the recursion of [dfs] is on the number of frames the
      stack has left, given by the class [CallStack], and ends in
      [RecursionError] when none is left. The properties hold for every
      instance; the samples run with the default limit. No other method
      recurses: each nests a fixed number of frames whatever the plan, and
      is taken to have that room.
    - The [while] loop of [get_execution_order] takes a fuel argument;
      [OutOfFuel] is shown not to occur. *)

From Stdlib Require Import List String Ascii ZArith Lia Bool Arith Permutation.
Import ListNotations.

Local Open Scope list_scope.

(** ** Exceptions and outcomes *)

Inductive exn : Type :=
| ValueError (msg : string)
| KeyError (key : string)
| RecursionError.

Inductive outcome (A : Type) : Type :=
| Ok (a : A)
| Raise (e : exn)
| OutOfFuel.

Arguments Ok {A} a.
Arguments Raise {A} e.
Arguments OutOfFuel {A}.

Definition bind {A B : Type} (m : outcome A) (k : A -> outcome B) : outcome B :=
  match m with
  | Ok a => k a
  | Raise e => Raise e
  | OutOfFuel => OutOfFuel
  end.

Notation "x <- m ;; k" := (bind m (fun x => k))
  (at level 61, m at next level, right associativity).

(** ** Python containers *)

Section PyDict.
Context {V : Type}.

Definition dict : Type := list (string * V).

Fixpoint dict_get (k : string) (d : dict) : option V :=
  match d with
  | [] => None
  | (k', v) :: rest => if String.eqb k k' then Some v else dict_get k rest
  end.

(** [d[k] = v] *)
Fixpoint dict_set (k : string) (v : V) (d : dict) : dict :=
  match d with
  | [] => [(k, v)]
  | (k', v') :: rest =>
      if String.eqb k k' then (k, v) :: rest else (k', v') :: dict_set k v rest
  end.

(** [k in d] *)
Definition dict_mem (k : string) (d : dict) : bool :=
  match dict_get k d with Some _ => true | None => false end.

Definition dict_keys (d : dict) : list string := map fst d.

(** [d[k]], raising [KeyError] *)
Definition dict_item (k : string) (d : dict) : outcome V :=
  match dict_get k d with
  | Some v => Ok v
  | None => Raise (KeyError k)
  end.
End PyDict.

Arguments dict V : clear implicits.

(** [x in s] and [s.add(x)] on a set of names. *)
Definition set_mem (x : string) (s : list string) : bool :=
  existsb (String.eqb x) s.

Definition set_add (x : string) (s : list string) : list string :=
  if set_mem x s then s else s ++ [x].

(** Iteration over a set. CPython visits the elements in an order that
    depends on their hashes and on the history of the table: for the names
    of a set, listed in the order of their insertion, [set_iter] gives the
    order in which a loop visits them. *)
Class SetOrder : Type := {
  set_iter : list string -> list string;
  set_iter_perm : forall s, Permutation (set_iter s) s
}.

(** The order of insertion, with which the samples are run. *)
#[global] Instance insertion_order : SetOrder :=
  {| set_iter := fun s => s; set_iter_perm := @Permutation_refl string |}.

(** The call stack. Every nested activation of the closure [dfs] takes a
    frame, and the interpreter raises [RecursionError] rather than enter
    one frame more than its limit allows ([sys.getrecursionlimit()], 1000
    unless it was changed, which counts the frames of the caller too).
    [dfs_frames] is the number of nested activations of [dfs] for which
    there is room when [_detect_cycles] starts its loop. *)
Class CallStack : Type := {
  dfs_frames : nat
}.

(** The default limit, reached from a script that constructs the builder
    at module level: the samples are run with it. *)
#[global] Instance default_stack : CallStack :=
  {| dfs_frames := 995 |}.

(** [l.index(x)] *)
Fixpoint list_index (x : string) (l : list string) : option nat :=
  match l with
  | [] => None
  | y :: rest =>
      if String.eqb y x then Some 0
      else option_map S (list_index x rest)
  end.

(** [sep.join(l)] *)
Definition join (sep : string) (l : list string) : string := String.concat sep l.

(** ** lib/parser.py: the descriptors read by the DAG *)

Module parser.
Record SuiteConfig : Type := {
  timeout : Z;
  retries : Z;
  parallel : bool;
  coverage : bool
}.

Definition default_config : SuiteConfig :=
  {| timeout := 300; retries := 0; parallel := true; coverage := true |}.

Record TestSuite : Type := {
  name : string;
  category : string;
  files : list string;
  dependencies : list string;
  config : SuiteConfig
}.

(** The fields of [TestPlan] that lib/dag.py reads, with its identity. *)
Record TestPlan : Type := {
  plan_id : string;
  version : string;
  suites : list TestSuite
}.
End parser.

Import parser.

(** ** lib/dag.py: nodes and the builder object *)

Record DAGNode : Type := {
  suite : TestSuite;
  node_dependencies : list string;
  dependents : list string;
  executed : bool;
  status : option string
}.

(** [DAGNode(suite=suite)] *)
Definition new_node (s : TestSuite) : DAGNode :=
  {| suite := s; node_dependencies := []; dependents := [];
     executed := false; status := None |}.

Definition with_dependencies (n : DAGNode) (ds : list string) : DAGNode :=
  {| suite := suite n; node_dependencies := ds; dependents := dependents n;
     executed := executed n; status := status n |}.

Definition with_dependents (n : DAGNode) (ds : list string) : DAGNode :=
  {| suite := suite n; node_dependencies := node_dependencies n; dependents := ds;
     executed := executed n; status := status n |}.

Definition with_executed (n : DAGNode) (b : bool) : DAGNode :=
  {| suite := suite n; node_dependencies := node_dependencies n;
     dependents := dependents n; executed := b; status := status n |}.

Definition with_status (n : DAGNode) (s : option string) : DAGNode :=
  {| suite := suite n; node_dependencies := node_dependencies n;
     dependents := dependents n; executed := executed n; status := s |}.

Record DAGBuilder : Type := {
  plan : TestPlan;
  nodes : dict DAGNode
}.

Definition with_nodes (self : DAGBuilder) (ns : dict DAGNode) : DAGBuilder :=
  {| plan := plan self; nodes := ns |}.

Section Methods.
Context {SO : SetOrder} {CS : CallStack}.

(** ** Runtime tracking *)

(** [mark_executed(name, status)] *)
Definition mark_executed (nm st : string) (self : DAGBuilder) : DAGBuilder :=
  match dict_get nm (nodes self) with
  | Some node =>
      let node1 := with_executed node true in
      let node2 := with_status node1 (Some st) in
      with_nodes self (dict_set nm node2 (nodes self))
  | None => self
  end.

(** [all(self.nodes[dep].executed for dep in deps)]: stops at the first
    dependency whose flag is unset. *)
Fixpoint all_executed (ns : dict DAGNode) (deps : list string) : outcome bool :=
  match deps with
  | [] => Ok true
  | dep :: rest =>
      n <- dict_item dep ns ;;
      if executed n then all_executed ns rest else Ok false
  end.

(** [is_ready(name)] *)
Definition is_ready (self : DAGBuilder) (nm : string) : outcome bool :=
  match dict_get nm (nodes self) with
  | None => Ok false
  | Some node => all_executed (nodes self) (set_iter (node_dependencies node))
  end.

(** The comprehension of [get_ready_suites] over [self.nodes.items()]. *)
Fixpoint ready_among (self : DAGBuilder) (items : dict DAGNode) : outcome (list string) :=
  match items with
  | [] => Ok []
  | (nm, node) :: rest =>
      keep <- (if executed node then Ok false else is_ready self nm) ;;
      tl <- ready_among self rest ;;
      Ok (if (keep : bool) then nm :: tl else tl)
  end.

(** [get_ready_suites()] *)
Definition get_ready_suites (self : DAGBuilder) : outcome (list string) :=
  ready_among self (nodes self).

(** [get_suite(name)] and [get_dependencies(name)] *)
Definition get_suite (self : DAGBuilder) (nm : string) : option TestSuite :=
  option_map suite (dict_get nm (nodes self)).

Definition get_dependencies (self : DAGBuilder) (nm : string) : list string :=
  match dict_get nm (nodes self) with
  | Some node => set_iter (node_dependencies node)
  | None => []
  end.

(** ** Graph construction: [_build] *)

Definition unknown_msg (s d : string) : string :=
  ("Suite '" ++ s ++ "' depends on unknown suite '" ++ d ++ "'")%string.

(** First loop: [self.nodes[suite.name] = DAGNode(suite=suite)]. *)
Definition create_nodes (ss : list TestSuite) (ns : dict DAGNode) : dict DAGNode :=
  fold_left (fun acc s => dict_set (name s) (new_node s) acc) ss ns.

(** Body of the inner loop, for suite [s] and one of its dependencies. *)
Definition link (s dep_name : string) (ns : dict DAGNode) : outcome (dict DAGNode) :=
  if dict_mem dep_name ns then
    node <- dict_item s ns ;;
    let ns1 :=
      dict_set s (with_dependencies node (set_add dep_name (node_dependencies node))) ns in
    dn <- dict_item dep_name ns1 ;;
    Ok (dict_set dep_name (with_dependents dn (set_add s (dependents dn))) ns1)
  else Raise (ValueError (unknown_msg s dep_name)).

Fixpoint link_deps (s : string) (deps : list string) (ns : dict DAGNode)
  : outcome (dict DAGNode) :=
  match deps with
  | [] => Ok ns
  | d :: rest => ns' <- link s d ns ;; link_deps s rest ns'
  end.

(** Second loop, over [self.plan.suites]. *)
Fixpoint link_suites (ss : list TestSuite) (ns : dict DAGNode) : outcome (dict DAGNode) :=
  match ss with
  | [] => Ok ns
  | s :: rest =>
      _ <- dict_item (name s) ns ;;
      ns' <- link_deps (name s) (dependencies s) ns ;;
      link_suites rest ns'
  end.

(** ** Cycle detection: [_detect_cycles] *)

Inductive colour : Type := WHITE | GRAY | BLACK.

Definition cycle_msg (cycle : list string) : string :=
  ("Circular dependency detected: " ++ join " -> " cycle)%string.

Definition dfs_state : Type := (dict colour * list string)%type.

(** The branch [color[dep] == GRAY]: [path.index(dep)], the slice and the raise. *)
Definition found_cycle (dep : string) (path : list string) : exn :=
  match list_index dep path with
  | Some i => ValueError (cycle_msg (skipn i path ++ [dep]))
  | None => ValueError ("'" ++ dep ++ "' is not in list")%string
  end.

(** The [for dep in ...dependencies] loop of [dfs]; [rec] is the recursive call. *)
Fixpoint dfs_deps (rec : string -> dfs_state -> outcome dfs_state)
  (deps : list string) (st : dfs_state) : outcome dfs_state :=
  match deps with
  | [] => Ok st
  | dep :: rest =>
      c <- dict_item dep (fst st) ;;
      match c with
      | GRAY => Raise (found_cycle dep (snd st))
      | WHITE => st' <- rec dep st ;; dfs_deps rec rest st'
      | BLACK => dfs_deps rec rest st
      end
  end.

(** [dfs(node_name)], called with room for [frames] nested activations:
    the call itself takes one, its recursive calls share the rest. *)
Fixpoint dfs (frames : nat) (ns : dict DAGNode) (node_name : string) (st : dfs_state)
  : outcome dfs_state :=
  match frames with
  | O => Raise RecursionError
  | S frames' =>
      let color := dict_set node_name GRAY (fst st) in
      let path := snd st ++ [node_name] in
      node <- dict_item node_name ns ;;
      st' <- dfs_deps (dfs frames' ns) (set_iter (node_dependencies node)) (color, path) ;;
      Ok (dict_set node_name BLACK (fst st'), removelast (snd st'))
  end.

(** The loop [for name in self.nodes: if color[name] == WHITE: dfs(name)]. *)
Fixpoint dfs_roots (frames : nat) (ns : dict DAGNode) (names : list string)
  (st : dfs_state) : outcome dfs_state :=
  match names with
  | [] => Ok st
  | nm :: rest =>
      c <- dict_item nm (fst st) ;;
      match c with
      | WHITE => st' <- dfs frames ns nm st ;; dfs_roots frames ns rest st'
      | _ => dfs_roots frames ns rest st
      end
  end.

Definition initial_colours (ns : dict DAGNode) : dict colour :=
  map (fun kv => (fst kv, WHITE)) ns.

Definition _detect_cycles (ns : dict DAGNode) : outcome unit :=
  _ <- dfs_roots dfs_frames ns (dict_keys ns) (initial_colours ns, []) ;;
  Ok tt.

Definition _build (p : TestPlan) : outcome (dict DAGNode) :=
  let ns0 := create_nodes (suites p) [] in
  ns <- link_suites (suites p) ns0 ;;
  _ <- _detect_cycles ns ;;
  Ok ns.

(** [DAGBuilder(plan)] *)
Definition __init__ (p : TestPlan) : outcome DAGBuilder :=
  ns <- _build p ;;
  Ok {| plan := p; nodes := ns |}.

(** ** Level scheduling: [get_execution_order] *)

Definition in_degrees (ns : dict DAGNode) : dict Z :=
  map (fun kv => (fst kv, Z.of_nat (List.length (node_dependencies (snd kv))))) ns.

Definition zero_degree (deg : dict Z) : list string :=
  map fst (filter (fun kv => (snd kv =? 0)%Z) deg).

(** [in_degree[dependent] -= 1], then the test and the append. *)
Definition relax (dependent : string) (st : dict Z * list string)
  : outcome (dict Z * list string) :=
  d <- dict_item dependent (fst st) ;;
  let deg := dict_set dependent (d - 1)%Z (fst st) in
  d' <- dict_item dependent deg ;;
  Ok (deg, if (d' =? 0)%Z then snd st ++ [dependent] else snd st).

Fixpoint relax_all (ds : list string) (st : dict Z * list string)
  : outcome (dict Z * list string) :=
  match ds with
  | [] => Ok st
  | d :: rest => st' <- relax d st ;; relax_all rest st'
  end.

Record sched : Type := {
  s_nodes : dict DAGNode;
  s_degree : dict Z;
  s_queue : list string
}.

(** Body of [for name in current_group]. *)
Definition process_node (nm : string) (st : sched) : outcome sched :=
  node <- dict_item nm (s_nodes st) ;;
  let ns := dict_set nm (with_executed node true) (s_nodes st) in
  dq <- relax_all (set_iter (dependents node)) (s_degree st, s_queue st) ;;
  Ok {| s_nodes := ns; s_degree := fst dq; s_queue := snd dq |}.

Fixpoint process_group (group : list string) (st : sched) : outcome sched :=
  match group with
  | [] => Ok st
  | nm :: rest => st' <- process_node nm st ;; process_group rest st'
  end.

(** The [while queue] loop; one unit of fuel per group. *)
Fixpoint schedule (fuel : nat) (st : sched) (groups : list (list string))
  : outcome (dict DAGNode * list (list string)) :=
  match s_queue st with
  | [] => Ok (s_nodes st, groups)
  | _ :: _ =>
      match fuel with
      | O => OutOfFuel
      | S fuel' =>
          let current_group := s_queue st in
          st' <- process_group current_group
                   {| s_nodes := s_nodes st; s_degree := s_degree st; s_queue := [] |} ;;
          schedule fuel' st' (groups ++ [current_group])
      end
  end.

Definition unexecuted_names (ns : dict DAGNode) : list string :=
  map fst (filter (fun kv => negb (executed (snd kv))) ns).

(** [repr] of a list of names (names without quotes or escapes). *)
Definition repr_names (l : list string) : string :=
  ("[" ++ join ", " (map (fun s => "'" ++ s ++ "'") l) ++ "]")%string.

Definition unscheduled_msg (l : list string) : string :=
  ("Could not schedule all suites. Unexecuted: " ++ repr_names l)%string.

(** Every group holds at least one node that no earlier group holds, so
    there are at most [len(self.nodes)] groups: that much fuel is given. *)
Definition get_execution_order (self : DAGBuilder)
  : outcome (list (list string) * DAGBuilder) :=
  let in_degree := in_degrees (nodes self) in
  let queue := zero_degree in_degree in
  r <- schedule (List.length (nodes self))
         {| s_nodes := nodes self; s_degree := in_degree; s_queue := queue |} [] ;;
  match unexecuted_names (fst r) with
  | [] => Ok (snd r, with_nodes self (fst r))
  | unexecuted => Raise (ValueError (unscheduled_msg unexecuted))
  end.

(** ** Bounded parallelism: [get_parallel_groups] *)

(** [range(start, stop, step)] as the list of its values. *)
Definition py_range (start stop step : Z) : outcome (list Z) :=
  if (step =? 0)%Z then Raise (ValueError "range() arg 3 must not be zero")
  else
    let n := if (0 <? step)%Z
             then ((stop - start + step - 1) / step)%Z
             else ((start - stop - step - 1) / (- step))%Z in
    Ok (map (fun k => (start + Z.of_nat k * step)%Z) (seq 0 (Z.to_nat n))).

(** [l[lo:hi]] *)
Definition py_slice {A : Type} (l : list A) (lo hi : Z) : list A :=
  let n := Z.of_nat (List.length l) in
  let clamp i := if (i <? 0)%Z then Z.max (i + n) 0 else Z.min i n in
  skipn (Z.to_nat (clamp lo)) (firstn (Z.to_nat (clamp hi)) l).

(** The inner loop: the chunks of one group. *)
Definition split_group (max_parallel : Z) (group : list string)
  : outcome (list (list string)) :=
  starts <- py_range 0 (Z.of_nat (List.length group)) max_parallel ;;
  Ok (map (fun i => py_slice group i (i + max_parallel)%Z) starts).

Fixpoint split_groups (max_parallel : Z) (groups : list (list string))
  : outcome (list (list string)) :=
  match groups with
  | [] => Ok []
  | group :: rest =>
      chunks <- split_group max_parallel group ;;
      result <- split_groups max_parallel rest ;;
      Ok (chunks ++ result)
  end.

Definition get_parallel_groups (self : DAGBuilder) (max_parallel : Z)
  : outcome (list (list string) * DAGBuilder) :=
  r <- get_execution_order self ;;
  result <- split_groups max_parallel (fst r) ;;
  Ok (result, snd r).

(** ** Statistics: [get_stats] *)

Definition count_executed (ns : dict DAGNode) : Z :=
  Z.of_nat (List.length (filter (fun kv => executed (snd kv)) ns)).

Definition get_stats (self : DAGBuilder) : outcome (dict Z * DAGBuilder) :=
  let total := Z.of_nat (List.length (nodes self)) in
  let done := count_executed (nodes self) in
  let pending := (total - done)%Z in
  r <- get_execution_order self ;;
  Ok ([("total_suites"%string, total); ("executed"%string, done);
       ("pending"%string, pending);
       ("parallel_groups"%string, Z.of_nat (List.length (fst r)))], snd r).

End Methods.

(** ** Sample plans *)

Definition mk_suite (nm : string) (deps : list string) : TestSuite :=
  {| name := nm; category := "unit"; files := []; dependencies := deps;
     config := default_config |}.

Definition mk_plan (ss : list TestSuite) : TestPlan :=
  {| plan_id := "plan"; version := "1.0"; suites := ss |}.

Definition diamond : TestPlan :=
  mk_plan [mk_suite "A" []; mk_suite "B" ["A"]; mk_suite "C" ["A"];
           mk_suite "D" ["B"; "C"]]%string.

Definition groups_of (r : outcome (list (list string) * DAGBuilder))
  : outcome (list (list string)) :=
  x <- r ;; Ok (fst x).

(** * Specification vocabulary *)

Section Vocabulary.
Context {SO : SetOrder} {CS : CallStack}.

(** ** Views of a graph *)

Definition deps_of (ns : dict DAGNode) (k : string) : list string :=
  match dict_get k ns with Some n => node_dependencies n | None => [] end.

Definition rdeps_of (ns : dict DAGNode) (k : string) : list string :=
  match dict_get k ns with Some n => dependents n | None => [] end.

Definition flag_of (ns : dict DAGNode) (k : string) : bool :=
  match dict_get k ns with Some n => executed n | None => false end.

Definition status_of (ns : dict DAGNode) (k : string) : option string :=
  match dict_get k ns with Some n => status n | None => None end.

(** The dependency relation declared by a plan. *)
Definition plan_edge (p : TestPlan) (a b : string) : Prop :=
  exists s, In s (suites p) /\ name s = a /\ In b (dependencies s).

Definition suite_names (p : TestPlan) : list string := map name (suites p).

Definition valid_references (p : TestPlan) : Prop :=
  forall s d, In s (suites p) -> In d (dependencies s) -> In d (suite_names p).

(** [consecutive R l]: each element of [l] is related to the next one. *)
Fixpoint consecutive (R : string -> string -> Prop) (l : list string) : Prop :=
  match l with
  | a :: (b :: _) as tl => R a b /\ consecutive R tl
  | _ => True
  end.

(** A path that starts and ends at the same name, along [R]. *)
Definition closed_loop (R : string -> string -> Prop) (l : list string) : Prop :=
  (exists x mid, l = x :: mid ++ [x]) /\ consecutive R l.

Definition has_cycle (p : TestPlan) : Prop :=
  exists l, closed_loop (plan_edge p) l.

Definition acyclic (p : TestPlan) : Prop := ~ has_cycle p.

(** The last descriptor of a given name. *)
Fixpoint last_named (k : string) (ss : list TestSuite) : option TestSuite :=
  match ss with
  | [] => None
  | s :: rest =>
      match last_named k rest with
      | Some s' => Some s'
      | None => if String.eqb (name s) k then Some s else None
      end
  end.

(** State of the second loop after the edges [edges] were added to the
    nodes [ns0] of the first loop. *)
Record linked (ns0 : dict DAGNode) (edges : list (string * string))
  (ns : dict DAGNode) : Prop := {
  lk_keys : dict_keys ns = dict_keys ns0;
  lk_deps : forall k d, In d (deps_of ns k) <-> In (k, d) edges;
  lk_rdeps : forall k a, In a (rdeps_of ns k) <-> In (a, k) edges;
  lk_sets : forall k, NoDup (deps_of ns k) /\ NoDup (rdeps_of ns k);
  lk_same : forall k n, dict_get k ns = Some n ->
    exists n0, dict_get k ns0 = Some n0 /\ suite n = suite n0 /\
               executed n = executed n0 /\ status n = status n0
}.

Definition suite_edges (s : TestSuite) : list (string * string) :=
  map (pair (name s)) (dependencies s).

(** ** Well-formed graphs *)

(** [ns] is the graph of plan [p], whatever its execution flags and statuses. *)
Record graph_of (p : TestPlan) (ns : dict DAGNode) : Prop := {
  g_nodup : NoDup (dict_keys ns);
  g_keys : forall k, In k (dict_keys ns) <-> In k (suite_names p);
  g_deps : forall k d, In d (deps_of ns k) <-> plan_edge p k d;
  g_rdeps : forall k a, In a (rdeps_of ns k) <-> plan_edge p a k;
  g_sets : forall k, NoDup (deps_of ns k) /\ NoDup (rdeps_of ns k);
  g_valid : valid_references p;
  g_suite : forall k n, dict_get k ns = Some n -> last_named k (suites p) = Some (suite n)
}.

Definition fresh (ns : dict DAGNode) : Prop :=
  forall k n, dict_get k ns = Some n -> executed n = false /\ status n = None.

(** The two loops of [_build], before cycle detection. *)

(** ** Cycle detection *)

(** The edges of a graph: [b] is in the dependency set of node [a]. *)
Definition graph_edge (ns : dict DAGNode) (a b : string) : Prop :=
  In b (deps_of ns a).

Definition is_white (c : colour) : bool :=
  match c with WHITE => true | _ => false end.

Definition count_white (color : dict colour) : nat :=
  List.length (filter (fun kv => is_white (snd kv)) color).

(** The finished nodes are closed under dependencies and ordered by a rank
    that decreases along every edge. *)
Definition ranked (ns : dict DAGNode) (color : dict colour) : Prop :=
  exists rank : string -> nat,
    forall u d, dict_get u color = Some BLACK -> graph_edge ns u d ->
                dict_get d color = Some BLACK /\ rank d < rank u.

Record dfs_inv (ns : dict DAGNode) (st : dfs_state) : Prop := {
  di_keys : dict_keys (fst st) = dict_keys ns;
  di_path : consecutive (graph_edge ns) (snd st);
  di_gray : forall x, dict_get x (fst st) = Some GRAY <-> In x (snd st);
  di_black : ranked ns (fst st)
}.

(** A traversal only ever turns white nodes black. *)
Definition evolves (c c' : dict colour) : Prop :=
  forall x, dict_get x c' = dict_get x c \/
            (dict_get x c = Some WHITE /\ dict_get x c' = Some BLACK).

(** What a call of [dfs] gives when the stack has room for every white node. *)
Definition dfs_post (ns : dict DAGNode) (st : dfs_state) (r : outcome dfs_state) : Prop :=
  match r with
  | Ok st' =>
      snd st' = snd st /\ dfs_inv ns st' /\ evolves (fst st) (fst st') /\
      count_white (fst st') <= count_white (fst st)
  | Raise e =>
      exists cycle, e = ValueError (cycle_msg cycle) /\ closed_loop (graph_edge ns) cycle
  | OutOfFuel => False
  end.

Definition blackens (x : string) (r : outcome dfs_state) : Prop :=
  forall st', r = Ok st' -> dict_get x (fst st') = Some BLACK.

(** What [DAGBuilder(plan)] establishes, and how it can fail: on an unknown
    dependency, on a cycle, or on a traversal that nests deeper than the
    stack allows. *)
Definition init_post (p : TestPlan) (r : outcome DAGBuilder) : Prop :=
  match r with
  | Ok g =>
      plan g = p /\ graph_of p (nodes g) /\ fresh (nodes g) /\
      exists rank : string -> nat, forall a b, plan_edge p a b -> rank b < rank a
  | Raise e =>
      (~ valid_references p /\
       exists s d, In s (suites p) /\ In d (dependencies s) /\
                   ~ In d (suite_names p) /\ e = ValueError (unknown_msg (name s) d))
      \/
      (valid_references p /\
       exists cycle, e = ValueError (cycle_msg cycle) /\ closed_loop (plan_edge p) cycle)
      \/
      (valid_references p /\ e = RecursionError /\ dfs_frames < List.length (suites p))
  | OutOfFuel => False
  end.

(** ** Level scheduling *)

(** The nodes after the flags of [group] have been set by the loop. *)
Definition mark_all (group : list string) (ns : dict DAGNode) : dict DAGNode :=
  fold_left
    (fun acc nm =>
       match dict_get nm acc with
       | Some n => dict_set nm (with_executed n true) acc
       | None => acc
       end) group ns.

(** The dependencies of [v] that are not among the processed names [P]. *)
Definition pending_deps (ns : dict DAGNode) (P : list string) (v : string) : list string :=
  filter (fun d => negb (set_mem d P)) (deps_of ns v).

(** Every member of a group has all its dependencies in strictly earlier groups. *)
Definition leveled (E : string -> string -> Prop) (groups : list (list string)) : Prop :=
  forall i g v d, nth_error groups i = Some g -> In v g -> E v d ->
    exists j g', j < i /\ nth_error groups j = Some g' /\ In d g'.

(** Two node tables with the same graph: keys, suites and both edge sets. *)
Definition same_graph (ns ns' : dict DAGNode) : Prop :=
  dict_keys ns' = dict_keys ns /\
  forall k, deps_of ns' k = deps_of ns k /\ rdeps_of ns' k = rdeps_of ns k /\
            option_map suite (dict_get k ns') = option_map suite (dict_get k ns).

(** Invariant of the [while queue] loop, over the graph [ns0] it started from. *)
Record sched_inv (ns0 : dict DAGNode) (st : sched) (groups : list (list string)) : Prop := {
  si_graph : same_graph ns0 (s_nodes st);
  si_flags : forall k, flag_of (s_nodes st) k = flag_of ns0 k || set_mem k (List.concat groups);
  si_status : forall k, status_of (s_nodes st) k = status_of ns0 k;
  si_degkeys : dict_keys (s_degree st) = dict_keys ns0;
  si_nodup : NoDup (List.concat groups ++ s_queue st);
  si_incl : forall x, In x (List.concat groups ++ s_queue st) -> In x (dict_keys ns0);
  si_deg : forall v, In v (dict_keys ns0) ->
    dict_get v (s_degree st)
    = Some (Z.of_nat (List.length (pending_deps ns0 (List.concat groups) v)));
  si_queue : forall v, In v (dict_keys ns0) ->
    (In v (s_queue st) <-> ~ In v (List.concat groups) /\ dict_get v (s_degree st) = Some 0%Z);
  si_levels : leveled (graph_edge ns0) groups;
  si_nonempty : Forall (fun g => g <> []) groups
}.

(** What a successful [get_execution_order] returns and leaves behind. *)
Definition order_post (g : DAGBuilder) (r : outcome (list (list string) * DAGBuilder))
  : Prop :=
  match r with
  | Ok (groups, g') =>
      plan g' = plan g /\ same_graph (nodes g) (nodes g') /\
      (forall k, In k (dict_keys (nodes g)) -> flag_of (nodes g') k = true) /\
      (forall k, status_of (nodes g') k = status_of (nodes g) k) /\
      Permutation (List.concat groups) (dict_keys (nodes g)) /\
      leveled (graph_edge (nodes g)) groups /\
      Forall (fun grp => grp <> []) groups
  | _ => False
  end.

(** ** Runtime states *)

(** The states an orchestrator can bring the builder [g0] into through the
    methods that write to the nodes. *)
Inductive runtime (g0 : DAGBuilder) : DAGBuilder -> Prop :=
| rt_built : runtime g0 g0
| rt_mark g nm st : runtime g0 g -> runtime g0 (mark_executed nm st g)
| rt_order g groups g' :
    runtime g0 g -> get_execution_order g = Ok (groups, g') -> runtime g0 g'
| rt_parallel g mp result g' :
    runtime g0 g -> get_parallel_groups g mp = Ok (result, g') -> runtime g0 g'
| rt_stats g stats g' :
    runtime g0 g -> get_stats g = Ok (stats, g') -> runtime g0 g'.

(** Runtime states that differ at most in the recorded statuses. *)
Definition agree_up_to_status (ns1 ns2 : dict DAGNode) : Prop :=
  Forall2 (fun a b => fst a = fst b /\ with_status (snd a) None = with_status (snd b) None)
          ns1 ns2.

(** ** Sample plans and graphs *)

(** The builder of a plan whose construction succeeds. *)
Definition built (p : TestPlan) : DAGBuilder :=
  match __init__ p with
  | Ok g => g
  | _ => {| plan := p; nodes := [] |}
  end.

Definition single : TestPlan := mk_plan [mk_suite "A" []]%string.

Definition chain : TestPlan :=
  mk_plan [mk_suite "A" []; mk_suite "B" ["A"]]%string.

Definition two_cycle_plan : TestPlan :=
  mk_plan [mk_suite "A" ["B"]; mk_suite "B" ["A"]]%string.

Definition cycle_with_unknown : TestPlan :=
  mk_plan [mk_suite "A" ["A"; "Z"]]%string.

Definition three_cycle_plan : TestPlan :=
  mk_plan [mk_suite "A" ["B"]; mk_suite "B" ["C"]; mk_suite "C" ["A"]]%string.

(** Three suites in a line, the last dependent listed first. *)
Definition deep_chain : TestPlan :=
  mk_plan [mk_suite "C" ["B"]; mk_suite "B" ["A"]; mk_suite "A" []]%string.

(** A stack with room for two nested activations of [dfs]. *)
Definition shallow_stack : CallStack := {| dfs_frames := 2 |}.

Definition first_A : TestSuite :=
  {| name := "A"; category := "unit"; files := ["first.py"%string];
     dependencies := ["B"%string]; config := default_config |}.

Definition second_A : TestSuite :=
  {| name := "A"; category := "e2e"; files := ["second.py"%string];
     dependencies := ["C"%string]; config := default_config |}.

Definition duplicated : TestPlan :=
  mk_plan [mk_suite "B" []; mk_suite "C" []; first_A; second_A]%string.

(** ** Chunks *)

(** The [k]-th slice of width [m] of a group: [group[k*m : k*m + m]]. *)
Definition chunk_at (m : nat) (group : list string) (k : nat) : list string :=
  skipn (k * m) (firstn (k * m + m) group).

(** What the chunks of one group are, for the ceiling [m]. *)
Definition chunks_of_group (m : nat) (group : list string) (chunks : list (list string))
  : Prop :=
  List.concat chunks = group /\
  Forall (fun c => c <> [] /\ List.length c <= m) chunks /\
  (forall c, In c (removelast chunks) -> List.length c = m).

End Vocabulary.

(** * Further vocabulary *)

Section MoreVocabulary.
Context {SO : SetOrder} {CS : CallStack}.

(** ** Unknown references *)

(** The first dependency of a list that is not among [names]. *)
Definition unknown_in (names deps : list string) : option string :=
  find (fun d => negb (set_mem d names)) deps.

(** The first suite, in plan order, with a dependency that names no suite,
    and the first such dependency in its list. *)
Fixpoint first_unknown (names : list string) (ss : list TestSuite)
  : option (string * string) :=
  match ss with
  | [] => None
  | s :: rest =>
      match unknown_in names (dependencies s) with
      | Some d => Some (name s, d)
      | None => first_unknown names rest
      end
  end.

(** ** Readiness *)

(** The names that are unexecuted and whose dependencies are all executed. *)
Definition ready_now (ns : dict DAGNode) (k : string) : bool :=
  negb (flag_of ns k) && forallb (flag_of ns) (deps_of ns k).

(** ** Levels *)

(** Every member of a group after the first has a dependency in the group
    just before it, and the members of the first group have none. *)
Definition tight (E : string -> string -> Prop) (groups : list (list string)) : Prop :=
  (forall g v d, nth_error groups 0 = Some g -> In v g -> ~ E v d) /\
  (forall i g g' v,
     nth_error groups i = Some g -> nth_error groups (S i) = Some g' -> In v g' ->
     exists d, In d g /\ E v d).

(** The names of the plan in the order of their first occurrence. *)
Fixpoint first_occurrences (seen names : list string) : list string :=
  match names with
  | [] => []
  | n :: rest =>
      if set_mem n seen then first_occurrences seen rest
      else n :: first_occurrences (seen ++ [n]) rest
  end.

(** ** Comparing two runs *)

Definition outcome_rel {A B : Type} (R : A -> B -> Prop)
  (o1 : outcome A) (o2 : outcome B) : Prop :=
  match o1, o2 with
  | Ok a, Ok b => R a b
  | Raise e1, Raise e2 => e1 = e2
  | OutOfFuel, OutOfFuel => True
  | _, _ => False
  end.

(** Two scheduler states that differ at most in flags and statuses. *)
Definition sched_sim (st1 st2 : sched) : Prop :=
  s_degree st1 = s_degree st2 /\ s_queue st1 = s_queue st2 /\
  same_graph (s_nodes st1) (s_nodes st2).

(** ** Simple loops *)

(** The exception carries a loop along [E] in which no name is repeated,
    the closing name apart. *)
Definition simple_loop (E : string -> string -> Prop) (e : exn) : Prop :=
  exists x mid,
    e = ValueError (cycle_msg (x :: mid ++ [x])) /\
    consecutive E (x :: mid ++ [x]) /\ NoDup (x :: mid).

(** ** Sample states *)

(** The builder as a call of [get_execution_order] leaves it. *)
Definition after_order (g : DAGBuilder) : DAGBuilder :=
  match get_execution_order g with
  | Ok (_, g') => g'
  | _ => g
  end.

End MoreVocabulary.


(** * Properties *)

Section Properties.
Context {SO : SetOrder} {CS : CallStack}.

(** ** Dictionaries and sets *)

Section DictFacts.
Context {V : Type}.
Implicit Types (d : dict V) (k : string) (v : V).

Lemma dict_get_set_same k v d : dict_get k (dict_set k v d) = Some v.
Proof.
  induction d as [|[k' v'] d IH]; simpl.
  - now rewrite String.eqb_refl.
  - destruct (String.eqb k k') eqn:E; simpl.
    + now rewrite String.eqb_refl.
    + now rewrite E.
Qed.

Lemma dict_get_set_other k k' v d :
  k <> k' -> dict_get k' (dict_set k v d) = dict_get k' d.
Proof.
  intros Hne. induction d as [|[k0 v0] d IH]; simpl.
  - destruct (String.eqb k' k) eqn:E; [|reflexivity].
    apply String.eqb_eq in E. congruence.
  - destruct (String.eqb k k0) eqn:E; simpl.
    + apply String.eqb_eq in E. subst k0.
      destruct (String.eqb k' k) eqn:E'; [|reflexivity].
      apply String.eqb_eq in E'. congruence.
    + now rewrite IH.
Qed.

Lemma dict_get_set k k' v d :
  dict_get k' (dict_set k v d) = if String.eqb k' k then Some v else dict_get k' d.
Proof.
  destruct (String.eqb k' k) eqn:E.
  - apply String.eqb_eq in E. subst. apply dict_get_set_same.
  - apply String.eqb_neq in E. apply dict_get_set_other. congruence.
Qed.

Lemma dict_get_in_keys k d : dict_get k d <> None <-> In k (dict_keys d).
Proof.
  induction d as [|[k' v'] d IH]; simpl.
  - tauto.
  - destruct (String.eqb k k') eqn:E.
    + apply String.eqb_eq in E. subst. split; [auto | discriminate].
    + apply String.eqb_neq in E. rewrite IH. split; [auto | intros [H|H]; congruence].
Qed.

Lemma dict_get_some_in_keys k v d : dict_get k d = Some v -> In k (dict_keys d).
Proof. intros H. apply dict_get_in_keys. congruence. Qed.

Lemma dict_get_none_not_in k d : dict_get k d = None <-> ~ In k (dict_keys d).
Proof.
  rewrite <- dict_get_in_keys. destruct (dict_get k d); intuition congruence.
Qed.

Lemma in_keys_get k d : In k (dict_keys d) -> exists v, dict_get k d = Some v.
Proof.
  intros H. apply dict_get_in_keys in H. destruct (dict_get k d) as [v|]; [eauto|congruence].
Qed.

Lemma dict_get_in k v d : dict_get k d = Some v -> In (k, v) d.
Proof.
  induction d as [|[k' v'] d IH]; simpl; [discriminate|].
  destruct (String.eqb k k') eqn:E.
  - apply String.eqb_eq in E. intros [= ->]. subst. now left.
  - auto.
Qed.

Lemma in_dict_get k v d : NoDup (dict_keys d) -> In (k, v) d -> dict_get k d = Some v.
Proof.
  induction d as [|[k' v'] d IH]; simpl; [tauto|].
  intros Hnd [H|H].
  - injection H as -> ->. now rewrite String.eqb_refl.
  - inversion Hnd; subst. destruct (String.eqb k k') eqn:E.
    + apply String.eqb_eq in E. subst. exfalso. apply H2.
      change (In (fst (k', v)) (map fst d)). now apply in_map.
    + auto.
Qed.

(** Assigning to a present key keeps the keys and their order. *)
Lemma dict_keys_set_present k v d :
  In k (dict_keys d) -> dict_keys (dict_set k v d) = dict_keys d.
Proof.
  induction d as [|[k' v'] d IH]; simpl; [tauto|].
  intros H. destruct (String.eqb k k') eqn:E; simpl.
  - apply String.eqb_eq in E. now subst.
  - f_equal. apply IH. destruct H as [H|H]; [|exact H].
    apply String.eqb_neq in E. congruence.
Qed.

(** Assigning to an absent key appends it. *)
Lemma dict_set_absent k v d :
  ~ In k (dict_keys d) -> dict_set k v d = d ++ [(k, v)].
Proof.
  induction d as [|[k' v'] d IH]; simpl; [reflexivity|].
  intros H. destruct (String.eqb k k') eqn:E.
  - apply String.eqb_eq in E. subst. tauto.
  - f_equal. apply IH. tauto.
Qed.

Lemma dict_set_length_present k v d :
  In k (dict_keys d) -> List.length (dict_set k v d) = List.length d.
Proof.
  intros H. apply dict_keys_set_present with (v := v) in H.
  unfold dict_keys in H. apply (f_equal (@List.length _)) in H.
  now rewrite !length_map in H.
Qed.

Lemma dict_mem_true k d : dict_mem k d = true <-> In k (dict_keys d).
Proof.
  unfold dict_mem. rewrite <- dict_get_in_keys.
  destruct (dict_get k d); split; intros; congruence.
Qed.

Lemma dict_mem_false k d : dict_mem k d = false <-> ~ In k (dict_keys d).
Proof.
  rewrite <- dict_mem_true. destruct (dict_mem k d); intuition congruence.
Qed.

Lemma dict_item_ok k v d : dict_get k d = Some v -> dict_item k d = Ok v.
Proof. unfold dict_item. now intros ->. Qed.
End DictFacts.

Lemma set_mem_true x s : set_mem x s = true <-> In x s.
Proof.
  unfold set_mem. rewrite existsb_exists. split.
  - intros (y & Hy & E). apply String.eqb_eq in E. now subst.
  - intros H. exists x. split; [exact H | apply String.eqb_refl].
Qed.

Lemma set_add_in x y s : In y (set_add x s) <-> y = x \/ In y s.
Proof.
  unfold set_add. destruct (set_mem x s) eqn:E.
  - apply set_mem_true in E. split; [auto | intros [->|H]; auto].
  - rewrite in_app_iff. simpl. split; intros H; intuition congruence.
Qed.

Lemma set_add_nodup x s : NoDup s -> NoDup (set_add x s).
Proof.
  intros H. unfold set_add. destruct (set_mem x s) eqn:E; [exact H|].
  assert (~ In x s) as Hn by (rewrite <- set_mem_true; congruence).
  apply NoDup_app; [exact H | repeat constructor; simpl; tauto |].
  intros a Ha [<-|[]]. tauto.
Qed.

Lemma dict_set_keys_nodup {V : Type} (k : string) (v : V) (d : dict V) :
  NoDup (dict_keys d) -> NoDup (dict_keys (dict_set k v d)).
Proof.
  intros H. destruct (in_dec string_dec k (dict_keys d)) as [Hin|Hout].
  - now rewrite dict_keys_set_present.
  - rewrite dict_set_absent by exact Hout. unfold dict_keys. rewrite map_app. simpl.
    apply NoDup_app; [exact H | repeat constructor; simpl; tauto |].
    intros a Ha [<-|[]]. tauto.
Qed.

(** ** Construction: the first loop *)

Lemma create_nodes_get ss : forall ns k,
  dict_get k (create_nodes ss ns) =
  match last_named k ss with
  | Some s => Some (new_node s)
  | None => dict_get k ns
  end.
Proof.
  induction ss as [|s ss IH]; intros ns k; simpl; [reflexivity|].
  unfold create_nodes in *. rewrite IH.
  destruct (last_named k ss); [reflexivity|].
  rewrite dict_get_set, String.eqb_sym.
  destruct (String.eqb_spec (name s) k); [subst|]; reflexivity.
Qed.

Lemma create_nodes_nodup ss : forall ns,
  NoDup (dict_keys ns) -> NoDup (dict_keys (create_nodes ss ns)).
Proof.
  induction ss as [|s ss IH]; intros ns H; simpl; [exact H|].
  apply IH. now apply dict_set_keys_nodup.
Qed.

Lemma last_named_some k ss : last_named k ss <> None <-> In k (map name ss).
Proof.
  induction ss as [|s ss IH]; simpl; [tauto|].
  destruct (last_named k ss) eqn:E.
  - split; [intros _; right; apply IH; discriminate | discriminate].
  - destruct (String.eqb_spec (name s) k).
    + split; [auto | discriminate].
    + split; [congruence | intros [H|H]; [congruence | apply IH in H; congruence]].
Qed.

Lemma last_named_in k ss s : last_named k ss = Some s -> In s ss /\ name s = k.
Proof.
  induction ss as [|s0 ss IH]; simpl; [discriminate|].
  destruct (last_named k ss) eqn:E.
  - intros [= ->]. destruct (IH eq_refl). auto.
  - destruct (String.eqb_spec (name s0) k); [|discriminate].
    intros [= ->]. auto.
Qed.

Lemma create_nodes_keys ss k :
  In k (dict_keys (create_nodes ss [])) <-> In k (map name ss).
Proof.
  rewrite <- dict_get_in_keys, create_nodes_get, <- last_named_some.
  destruct (last_named k ss); simpl; intuition congruence.
Qed.

(** ** Construction: the second loop *)

Lemma link_effect s d ns n_s n_d :
  dict_get s ns = Some n_s ->
  dict_get d ns = Some n_d ->
  exists ns',
    link s d ns = Ok ns' /\
    dict_keys ns' = dict_keys ns /\
    forall k,
      deps_of ns' k = (if String.eqb k s then set_add d (deps_of ns k) else deps_of ns k) /\
      rdeps_of ns' k = (if String.eqb k d then set_add s (rdeps_of ns k) else rdeps_of ns k) /\
      (forall n', dict_get k ns' = Some n' ->
         exists n, dict_get k ns = Some n /\ suite n' = suite n /\
                   executed n' = executed n /\ status n' = status n).
Proof.
  intros Hs Hd. unfold link.
  assert (dict_mem d ns = true) as -> by (unfold dict_mem; now rewrite Hd).
  rewrite (dict_item_ok _ _ _ Hs). cbn [bind].
  set (ns1 := dict_set s _ ns).
  assert (exists dn, dict_get d ns1 = Some dn /\ suite dn = suite n_d /\
            executed dn = executed n_d /\ status dn = status n_d /\
            dependents dn = dependents n_d /\
            node_dependencies dn =
              if String.eqb d s then set_add d (node_dependencies n_s)
              else node_dependencies n_d) as (dn & Hdn & Hq1 & Hq2 & Hq3 & Hq4 & Hq5).
  { unfold ns1. rewrite dict_get_set.
    destruct (String.eqb_spec d s) as [->|Hne].
    - eexists; split; [reflexivity|]. assert (n_s = n_d) as -> by congruence.
      simpl; auto 6.
    - exists n_d; auto 6. }
  rewrite (dict_item_ok _ _ _ Hdn). cbn [bind].
  eexists; split; [reflexivity|]. split.
  { rewrite dict_keys_set_present.
    - unfold ns1. apply dict_keys_set_present. eapply dict_get_some_in_keys; eauto.
    - eapply dict_get_some_in_keys; eauto. }
  intros k. unfold deps_of, rdeps_of. rewrite dict_get_set. unfold ns1.
  destruct (String.eqb_spec k d) as [->|Hkd].
  - rewrite Hd. simpl. rewrite Hq5, Hq4.
    destruct (String.eqb_spec d s) as [->|Hne].
    + rewrite Hs in Hd. injection Hd as <-. repeat split; auto.
      intros n' [= <-]. exists n_s. simpl. auto 6.
    + repeat split; auto. intros n' [= <-]. exists n_d. simpl. auto 6.
  - rewrite dict_get_set. destruct (String.eqb_spec k s) as [->|Hks].
    + rewrite Hs. simpl. repeat split; auto.
      intros n' [= <-]. exists n_s. simpl. auto.
    + repeat split; auto. intros n' Hn'. exists n'. auto.
Qed.

Lemma link_unknown s d ns :
  ~ In d (dict_keys ns) -> link s d ns = Raise (ValueError (unknown_msg s d)).
Proof.
  intros H. unfold link. apply dict_mem_false in H. now rewrite H.
Qed.

Lemma linked_init ns0 :
  (forall k n, dict_get k ns0 = Some n ->
     node_dependencies n = [] /\ dependents n = []) ->
  linked ns0 [] ns0.
Proof.
  intros H. split.
  - reflexivity.
  - intros k d. unfold deps_of. destruct (dict_get k ns0) eqn:E; simpl; [|tauto].
    destruct (H _ _ E) as [-> _]. simpl. tauto.
  - intros k d. unfold rdeps_of. destruct (dict_get k ns0) eqn:E; simpl; [|tauto].
    destruct (H _ _ E) as [_ ->]. simpl. tauto.
  - intros k. unfold deps_of, rdeps_of. destruct (dict_get k ns0) eqn:E.
    + destruct (H _ _ E) as [-> ->]. split; constructor.
    + split; constructor.
  - intros k n E. exists n. auto.
Qed.

Lemma linked_step ns0 edges ns s d :
  linked ns0 edges ns ->
  In s (dict_keys ns0) -> In d (dict_keys ns0) ->
  exists ns', link s d ns = Ok ns' /\ linked ns0 (edges ++ [(s, d)]) ns'.
Proof.
  intros L Hs Hd. rewrite <- (lk_keys _ _ _ L) in Hs, Hd.
  apply in_keys_get in Hs as [n_s Hs]. apply in_keys_get in Hd as [n_d Hd].
  destruct (link_effect s d ns n_s n_d Hs Hd) as (ns' & Hl & Hk & Hp).
  exists ns'. split; [exact Hl|]. split.
  - rewrite Hk. apply (lk_keys _ _ _ L).
  - intros k x. destruct (Hp k) as (-> & _ & _). rewrite in_app_iff. simpl.
    destruct (String.eqb_spec k s) as [->|Hne].
    + rewrite set_add_in, (lk_deps _ _ _ L). intuition congruence.
    + rewrite (lk_deps _ _ _ L). intuition congruence.
  - intros k x. destruct (Hp k) as (_ & -> & _). rewrite in_app_iff. simpl.
    destruct (String.eqb_spec k d) as [->|Hne].
    + rewrite set_add_in, (lk_rdeps _ _ _ L). intuition congruence.
    + rewrite (lk_rdeps _ _ _ L). intuition congruence.
  - intros k. destruct (Hp k) as (-> & -> & _). destruct (lk_sets _ _ _ L k) as [N1 N2].
    split.
    + destruct (String.eqb k s); auto using set_add_nodup.
    + destruct (String.eqb k d); auto using set_add_nodup.
  - intros k n' Hn'. destruct (Hp k) as (_ & _ & Hq).
    destruct (Hq _ Hn') as (n & Hn & E1 & E2 & E3).
    destruct (lk_same _ _ _ L _ _ Hn) as (n0 & Hn0 & F1 & F2 & F3).
    exists n0. repeat split; congruence.
Qed.

Lemma link_deps_spec ns0 s deps : forall edges ns,
  linked ns0 edges ns -> In s (dict_keys ns0) ->
  match link_deps s deps ns with
  | Ok ns' =>
      (forall d, In d deps -> In d (dict_keys ns0)) /\
      linked ns0 (edges ++ map (pair s) deps) ns'
  | Raise e =>
      exists d, In d deps /\ ~ In d (dict_keys ns0) /\ e = ValueError (unknown_msg s d)
  | OutOfFuel => False
  end.
Proof.
  induction deps as [|d deps IH]; intros edges ns L Hs; simpl.
  - rewrite app_nil_r. split; [tauto | exact L].
  - destruct (in_dec string_dec d (dict_keys ns0)) as [Hd|Hd].
    + destruct (linked_step _ _ _ _ _ L Hs Hd) as (ns' & -> & L'). cbn [bind].
      specialize (IH _ _ L' Hs). destruct (link_deps s deps ns') as [ns''|e|].
      * destruct IH as [H1 H2]. split.
        -- intros x [<-|Hx]; auto.
        -- now rewrite <- app_assoc in H2.
      * destruct IH as (x & Hx & Hn & ->). exists x. auto.
      * exact IH.
    + rewrite link_unknown by (now rewrite (lk_keys _ _ _ L)). cbn [bind].
      exists d. auto.
Qed.

Lemma link_suites_spec ns0 ss : forall edges ns,
  linked ns0 edges ns ->
  (forall s, In s ss -> In (name s) (dict_keys ns0)) ->
  match link_suites ss ns with
  | Ok ns' =>
      (forall s d, In s ss -> In d (dependencies s) -> In d (dict_keys ns0)) /\
      linked ns0 (edges ++ flat_map suite_edges ss) ns'
  | Raise e =>
      exists s d, In s ss /\ In d (dependencies s) /\ ~ In d (dict_keys ns0) /\
                  e = ValueError (unknown_msg (name s) d)
  | OutOfFuel => False
  end.
Proof.
  induction ss as [|s ss IH]; intros edges ns L Hss; simpl.
  - rewrite app_nil_r. split; [tauto | exact L].
  - assert (In (name s) (dict_keys ns0)) as Hs by (apply Hss; now left).
    assert (exists n, dict_get (name s) ns = Some n) as [n Hn]
      by (apply in_keys_get; now rewrite (lk_keys _ _ _ L)).
    rewrite (dict_item_ok _ _ _ Hn). cbn [bind].
    pose proof (link_deps_spec ns0 (name s) (dependencies s) _ _ L Hs) as Hd.
    destruct (link_deps (name s) (dependencies s) ns) as [ns'|e|]; cbn [bind].
    + destruct Hd as [Hd L'].
      specialize (IH _ _ L' (fun x Hx => Hss x (or_intror Hx))).
      destruct (link_suites ss ns') as [ns''|e|].
      * destruct IH as [H1 H2]. split.
        -- intros x d [<-|Hx]; eauto.
        -- unfold suite_edges at 1. now rewrite <- app_assoc in H2.
      * destruct IH as (x & d & Hx & Hd' & Hn' & ->). exists x, d. auto.
      * exact IH.
    + destruct Hd as (d & Hd & Hn' & ->). exists s, d. auto.
    + exact Hd.
Qed.

Lemma in_plan_edges p a b :
  In (a, b) (flat_map suite_edges (suites p)) <-> plan_edge p a b.
Proof.
  rewrite in_flat_map. unfold plan_edge, suite_edges. split.
  - intros (s & Hs & Hin). apply in_map_iff in Hin as (d & [= <- <-] & Hd). eauto.
  - intros (s & Hs & <- & Hb). exists s. split; [exact Hs|]. now apply in_map.
Qed.

Lemma link_suites_graph p :
  match link_suites (suites p) (create_nodes (suites p) []) with
  | Ok ns => graph_of p ns /\ fresh ns
  | Raise e =>
      ~ valid_references p /\
      exists s d, In s (suites p) /\ In d (dependencies s) /\
                  ~ In d (suite_names p) /\ e = ValueError (unknown_msg (name s) d)
  | OutOfFuel => False
  end.
Proof.
  set (ns0 := create_nodes (suites p) []).
  assert (linked ns0 [] ns0) as L.
  { apply linked_init. intros k n. unfold ns0. rewrite create_nodes_get.
    destruct (last_named k (suites p)); simpl; [|discriminate].
    intros [= <-]. auto. }
  assert (forall k, In k (dict_keys ns0) <-> In k (suite_names p)) as K
    by (intros k; apply create_nodes_keys).
  pose proof (link_suites_spec ns0 (suites p) [] ns0 L) as H.
  assert (forall s, In s (suites p) -> In (name s) (dict_keys ns0)) as Hn
    by (intros s Hs; apply K; now apply in_map).
  specialize (H Hn). destruct (link_suites (suites p) ns0) as [ns|e|].
  - destruct H as [Hv L']. simpl in L'. split.
    + split.
      * rewrite (lk_keys _ _ _ L'). apply create_nodes_nodup. constructor.
      * intros k. rewrite (lk_keys _ _ _ L'). apply K.
      * intros k d. rewrite (lk_deps _ _ _ L'). apply in_plan_edges.
      * intros k a. rewrite (lk_rdeps _ _ _ L'). apply in_plan_edges.
      * apply (lk_sets _ _ _ L').
      * intros s d Hs Hd. apply K. eauto.
      * intros k n Hk. destruct (lk_same _ _ _ L' _ _ Hk) as (n0 & Hn0 & -> & _).
        unfold ns0 in Hn0. rewrite create_nodes_get in Hn0.
        destruct (last_named k (suites p)); simpl in Hn0; [|discriminate].
        now injection Hn0 as <-.
    + intros k n Hk. destruct (lk_same _ _ _ L' _ _ Hk) as (n0 & Hn0 & _ & -> & ->).
      unfold ns0 in Hn0. rewrite create_nodes_get in Hn0.
      destruct (last_named k (suites p)); simpl in Hn0; [|discriminate].
      injection Hn0 as <-. auto.
  - destruct H as (s & d & Hs & Hd & Hnotin & ->). rewrite K in Hnotin. split.
    + intros Hv. apply Hnotin. eapply Hv; eauto.
    + exists s, d. auto.
  - exact H.
Qed.


(** ** Paths and loops *)

Lemma consecutive_tail R a l : consecutive R (a :: l) -> consecutive R l.
Proof. destruct l; simpl; tauto. Qed.

Lemma consecutive_skipn R i : forall l, consecutive R l -> consecutive R (skipn i l).
Proof.
  induction i as [|i IH]; intros l H; [exact H|].
  destruct l as [|a l]; [exact H|]. simpl. apply IH. eapply consecutive_tail; eauto.
Qed.

Lemma consecutive_snoc R x : forall l,
  consecutive R l -> (l <> [] -> R (last l x) x) -> consecutive R (l ++ [x]).
Proof.
  induction l as [|a l IH]; intros H Hl; [exact I|].
  destruct l as [|b l].
  - simpl. split; [apply Hl; discriminate | exact I].
  - change (R a b /\ consecutive R ((b :: l) ++ [x])). destruct H as [Hab H]. split; [exact Hab|].
    apply IH; [exact H|]. intros _. apply Hl. discriminate.
Qed.

Lemma last_indep (l : list string) (d d' : string) : l <> [] -> last l d = last l d'.
Proof.
  induction l as [|a l IH]; intros H; [congruence|].
  destruct l as [|b l]; [reflexivity|]. apply IH. discriminate.
Qed.

Lemma last_skipn (x d : string) i : forall l suf,
  skipn i l = x :: suf -> last l d = last (x :: suf) d.
Proof.
  induction i as [|i IH]; intros l suf H.
  - simpl in H. now subst.
  - destruct l as [|a l]; [discriminate|]. simpl in H.
    rewrite <- (IH _ _ H). destruct l; [destruct i; discriminate | reflexivity].
Qed.

Lemma list_index_in x : forall l,
  In x l -> exists i suf, list_index x l = Some i /\ skipn i l = x :: suf.
Proof.
  induction l as [|y l IH]; intros H; [destruct H|]. simpl.
  destruct (String.eqb_spec y x) as [->|Hne].
  - exists 0, l. auto.
  - destruct H as [H|H]; [congruence|].
    destruct (IH H) as (i & suf & -> & Hs). exists (S i), suf. auto.
Qed.

(** A rank that decreases along [R] rules out closed loops. *)
Lemma consecutive_rank (R : string -> string -> Prop) (rank : string -> nat) :
  (forall a b, R a b -> rank b < rank a) ->
  forall l a, consecutive R (a :: l) -> l <> [] -> rank (last l a) < rank a.
Proof.
  intros HR. induction l as [|b l IH]; intros a H Hne; [congruence|].
  destruct H as [Hab H]. destruct l as [|c l].
  - simpl. auto.
  - specialize (IH b H ltac:(discriminate)). apply HR in Hab.
    change (last (b :: c :: l) a) with (last (c :: l) a).
    rewrite (last_indep (c :: l) a b) by discriminate. lia.
Qed.

Lemma ranked_no_loop (R : string -> string -> Prop) (rank : string -> nat) l :
  (forall a b, R a b -> rank b < rank a) -> closed_loop R l -> False.
Proof.
  intros HR [(x & mid & ->) Hc].
  pose proof (consecutive_rank R rank HR (mid ++ [x]) x Hc) as H.
  rewrite last_last in H. assert (mid ++ [x] <> []) by (destruct mid; discriminate).
  specialize (H H0). lia.
Qed.

(** The loop reported when the gray node [dep] is met below [nm]. *)
Lemma found_cycle_loop R dep nm path :
  consecutive R path -> In dep path -> last path nm = nm -> path <> [] -> R nm dep ->
  exists cycle, found_cycle dep path = ValueError (cycle_msg cycle) /\ closed_loop R cycle.
Proof.
  intros Hc Hin Hlast Hne Hedge.
  destruct (list_index_in dep path Hin) as (i & suf & Hi & Hs).
  unfold found_cycle. rewrite Hi, Hs. eexists; split; [reflexivity|]. split.
  - exists dep, suf. reflexivity.
  - apply consecutive_snoc.
    + rewrite <- Hs. now apply consecutive_skipn.
    + intros _. rewrite <- (last_skipn dep dep i path suf Hs).
      rewrite (last_indep path dep nm) by exact Hne. now rewrite Hlast.
Qed.

(** ** Colours *)

Lemma count_white_set k v v' (c : dict colour) :
  dict_get k c = Some v ->
  count_white (dict_set k v' c) + (if is_white v then 1 else 0)
  = count_white c + (if is_white v' then 1 else 0).
Proof.
  unfold count_white. induction c as [|[k0 v0] c IH]; simpl; [discriminate|].
  destruct (String.eqb k k0) eqn:E; simpl.
  - intros [= ->]. destruct (is_white v), (is_white v'); simpl; lia.
  - intros H. specialize (IH H). destruct (is_white v0); simpl; lia.
Qed.

Lemma count_white_pos k (c : dict colour) :
  dict_get k c = Some WHITE -> 1 <= count_white c.
Proof.
  unfold count_white. induction c as [|[k0 v0] c IH]; simpl; [discriminate|].
  destruct (String.eqb k k0).
  - intros [= ->]. simpl. lia.
  - intros H. specialize (IH H). destruct (is_white v0); simpl; lia.
Qed.

Lemma initial_colours_get ns k c :
  dict_get k (initial_colours ns) = Some c -> c = WHITE.
Proof.
  unfold initial_colours. induction ns as [|[k0 n] ns IH]; simpl; [discriminate|].
  destruct (String.eqb k k0); [now intros [= <-] | exact IH].
Qed.

Lemma initial_colours_keys ns : dict_keys (initial_colours ns) = dict_keys ns.
Proof.
  unfold initial_colours, dict_keys. rewrite map_map. reflexivity.
Qed.

Lemma initial_colours_white ns : count_white (initial_colours ns) = List.length ns.
Proof.
  unfold count_white, initial_colours. induction ns as [|[k n] ns IH]; simpl; [reflexivity|].
  now rewrite IH.
Qed.

Lemma evolves_refl c : evolves c c.
Proof. intros x. now left. Qed.

Lemma evolves_trans c1 c2 c3 : evolves c1 c2 -> evolves c2 c3 -> evolves c1 c3.
Proof.
  intros H12 H23 x. destruct (H12 x) as [E1|[E1 E1']], (H23 x) as [E2|[E2 E2']].
  - left; congruence.
  - right; split; congruence.
  - right; split; congruence.
  - congruence.
Qed.

Lemma evolves_black c c' x :
  evolves c c' -> dict_get x c = Some BLACK -> dict_get x c' = Some BLACK.
Proof. intros H Hx. destruct (H x) as [E|[E _]]; congruence. Qed.

Lemma list_max_ge (f : string -> nat) l x : In x l -> f x <= list_max (map f l).
Proof.
  intros H. pose proof (proj1 (list_max_le (map f l) (list_max (map f l))) (le_n _)) as HF.
  rewrite Forall_forall in HF. apply HF. now apply in_map.
Qed.

(** ** The traversal *)

(** More room on the stack changes no outcome other than [RecursionError]. *)
Lemma dfs_deps_frames (rec rec' : string -> dfs_state -> outcome dfs_state) :
  (forall dep st, rec dep st <> Raise RecursionError -> rec' dep st = rec dep st) ->
  forall deps st,
    dfs_deps rec deps st <> Raise RecursionError ->
    dfs_deps rec' deps st = dfs_deps rec deps st.
Proof.
  intros Hrec. induction deps as [|dep deps IH]; intros st H; [reflexivity|].
  cbn [dfs_deps] in *.
  destruct (dict_item dep (fst st)) as [c|e|]; cbn [bind] in *; try reflexivity.
  destruct c; auto.
  destruct (rec dep st) as [st1|e|] eqn:E; cbn [bind] in *.
  - rewrite Hrec, E by (rewrite E; discriminate). cbn [bind]. auto.
  - rewrite Hrec, E by (rewrite E; exact H). reflexivity.
  - rewrite Hrec, E by (rewrite E; discriminate). reflexivity.
Qed.

Lemma dfs_frames_mono ns : forall f f' nm st,
  f <= f' -> dfs f ns nm st <> Raise RecursionError ->
  dfs f' ns nm st = dfs f ns nm st.
Proof.
  induction f as [|f IH]; intros f' nm st Hle H; [now contradiction H|].
  destruct f' as [|f']; [lia|]. cbn [dfs] in *.
  destruct (dict_item nm ns) as [node|e|]; cbn [bind] in *; try reflexivity.
  rewrite (dfs_deps_frames (dfs f ns) (dfs f' ns)); [reflexivity| |].
  - intros dep st' Hd. apply IH; [lia | exact Hd].
  - intros E. apply H. now rewrite E.
Qed.

Lemma dfs_roots_frames_mono ns f f' : f <= f' -> forall names st,
  dfs_roots f ns names st <> Raise RecursionError ->
  dfs_roots f' ns names st = dfs_roots f ns names st.
Proof.
  intros Hle. induction names as [|nm names IH]; intros st H; [reflexivity|].
  cbn [dfs_roots] in *.
  destruct (dict_item nm (fst st)) as [c|e|]; cbn [bind] in *; try reflexivity.
  destruct c; auto.
  destruct (dfs f ns nm st) as [st1|e|] eqn:E; cbn [bind] in *.
  - rewrite (dfs_frames_mono ns f f'), E by (auto; rewrite E; discriminate).
    cbn [bind]. auto.
  - rewrite (dfs_frames_mono ns f f'), E by (auto; rewrite E; exact H). reflexivity.
  - rewrite (dfs_frames_mono ns f f'), E by (auto; rewrite E; discriminate). reflexivity.
Qed.

Section Traversal.
Variable ns : dict DAGNode.
Hypothesis closed : forall a b, graph_edge ns a b -> In b (dict_keys ns).

Lemma ranked_enter color nm :
  ranked ns color -> dict_get nm color = Some WHITE ->
  ranked ns (dict_set nm GRAY color).
Proof.
  intros [rank Hr] Hw. exists rank. intros u d Hu He.
  rewrite dict_get_set in Hu. destruct (String.eqb_spec u nm); [discriminate|].
  destruct (Hr u d Hu He) as [Hd Hlt]. split; [|exact Hlt].
  rewrite dict_get_set. destruct (String.eqb_spec d nm); [congruence | exact Hd].
Qed.

Lemma ranked_leave color nm :
  ranked ns color -> dict_get nm color = Some GRAY ->
  (forall d, graph_edge ns nm d -> dict_get d color = Some BLACK) ->
  ranked ns (dict_set nm BLACK color).
Proof.
  intros [rank Hr] Hg Hdeps.
  exists (fun x => if String.eqb x nm
                   then S (list_max (map rank (deps_of ns nm))) else rank x).
  intros u d Hu He.
  assert (dict_get d color = Some BLACK /\ (u <> nm -> rank d < rank u)) as [Hd Hlt].
  { rewrite dict_get_set in Hu. destruct (String.eqb_spec u nm) as [->|Hne].
    - split; [auto | congruence].
    - destruct (Hr u d Hu He). auto. }
  assert (d <> nm) as Hdn by congruence.
  split.
  - rewrite dict_get_set. destruct (String.eqb_spec d nm); [congruence | exact Hd].
  - destruct (String.eqb_spec d nm); [congruence|].
    destruct (String.eqb_spec u nm) as [->|Hne]; [|auto].
    apply Nat.lt_succ_r. now apply list_max_ge.
Qed.

Lemma dfs_inv_enter st nm :
  dfs_inv ns st -> dict_get nm (fst st) = Some WHITE ->
  (snd st <> [] -> graph_edge ns (last (snd st) nm) nm) ->
  dfs_inv ns (dict_set nm GRAY (fst st), snd st ++ [nm]).
Proof.
  intros [HK HP HG HB] Hw He. split; simpl.
  - rewrite dict_keys_set_present; [exact HK|]. eapply dict_get_some_in_keys; eauto.
  - now apply consecutive_snoc.
  - intros x. rewrite dict_get_set, in_app_iff. simpl.
    destruct (String.eqb_spec x nm) as [->|Hne].
    + intuition.
    + rewrite HG. intuition congruence.
  - now apply ranked_enter.
Qed.

Lemma dfs_inv_leave color path nm :
  dfs_inv ns (color, path ++ [nm]) -> ~ In nm path ->
  (forall d, graph_edge ns nm d -> dict_get d color = Some BLACK) ->
  dfs_inv ns (dict_set nm BLACK color, path).
Proof.
  intros [HK HP HG HB] Hnp Hdeps. simpl in *.
  assert (dict_get nm color = Some GRAY) as Hg
    by (apply HG, in_app_iff; right; now left).
  split; simpl.
  - rewrite dict_keys_set_present; [exact HK|]. eapply dict_get_some_in_keys; eauto.
  - clear - HP. induction path as [|a path IH]; [exact I|].
    destruct path as [|b path]; [exact I|]. destruct HP as [Hab HP]. split; [exact Hab|].
    now apply IH.
  - intros x. rewrite dict_get_set. destruct (String.eqb_spec x nm) as [->|Hne].
    + split; [discriminate | tauto].
    + rewrite HG, in_app_iff. simpl. intuition congruence.
  - now apply ranked_leave.
Qed.

(** The loop over the dependencies of the gray node [nm], the last of the path. *)
Lemma dfs_deps_spec (rec : string -> dfs_state -> outcome dfs_state) (frames : nat) nm :
  (forall dep st,
     dfs_inv ns st -> dict_get dep (fst st) = Some WHITE ->
     (snd st <> [] -> graph_edge ns (last (snd st) dep) dep) ->
     count_white (fst st) <= frames ->
     dfs_post ns st (rec dep st) /\ blackens dep (rec dep st)) ->
  forall deps st,
    dfs_inv ns st -> snd st <> [] -> last (snd st) nm = nm ->
    (forall d, In d deps -> graph_edge ns nm d) ->
    count_white (fst st) <= frames ->
    dfs_post ns st (dfs_deps rec deps st) /\
    (forall st', dfs_deps rec deps st = Ok st' ->
       forall d, In d deps -> dict_get d (fst st') = Some BLACK).
Proof.
  intros Hrec. induction deps as [|dep deps IH]; intros st Hinv Hne Hlast Hdeps Hroom.
  - simpl. split.
    + split; [reflexivity|]. split; [exact Hinv|]. split; [apply evolves_refl | lia].
    + intros st' _ d [].
  - assert (graph_edge ns nm dep) as Hedge by (apply Hdeps; now left).
    assert (exists c, dict_get dep (fst st) = Some c) as [c Hc].
    { apply in_keys_get. rewrite (di_keys _ _ Hinv). eapply closed; eauto. }
    simpl. rewrite (dict_item_ok _ _ _ Hc). cbn [bind]. destruct c.
    + (* WHITE: recursive call *)
      destruct (Hrec dep st Hinv Hc) as [Hpost Hblack]; [|exact Hroom|].
      { intros _. rewrite (last_indep _ dep nm) by exact Hne. now rewrite Hlast. }
      destruct (rec dep st) as [st1|e|]; cbn [bind]; [|split; [exact Hpost | discriminate]|destruct Hpost].
      destruct Hpost as (Hp1 & Hinv1 & Hev1 & Hcw1).
      destruct (IH st1 Hinv1) as [Hpost2 Hblack2].
      { now rewrite Hp1. } { now rewrite Hp1. }
      { intros d Hd. apply Hdeps. now right. } { lia. }
      destruct (dfs_deps rec deps st1) as [st2|e|]; [|split; [exact Hpost2 | discriminate]|destruct Hpost2].
      destruct Hpost2 as (Hp2 & Hinv2 & Hev2 & Hcw2). split.
      * split; [congruence|]. split; [exact Hinv2|].
        split; [eapply evolves_trans; eauto | lia].
      * intros st' [= <-] d [<-|Hd]; [|now apply (Hblack2 st2)].
        eapply evolves_black; [exact Hev2|]. now apply Hblack.
    + (* GRAY: a cycle *)
      split; [|discriminate]. simpl.
      apply (found_cycle_loop (graph_edge ns) dep nm); auto.
      * apply Hinv.
      * now apply (di_gray _ _ Hinv).
    + (* BLACK: skipped *)
      destruct (IH st Hinv Hne Hlast) as [Hpost2 Hblack2]; [|exact Hroom|].
      { intros d Hd. apply Hdeps. now right. }
      split; [exact Hpost2|].
      intros st' Hst' d [<-|Hd]; [|now apply (Hblack2 st')].
      rewrite Hst' in Hpost2. destruct Hpost2 as (_ & _ & Hev & _).
      eapply evolves_black; eauto.
Qed.

Lemma dfs_spec : forall frames nm st,
  dfs_inv ns st -> dict_get nm (fst st) = Some WHITE ->
  (snd st <> [] -> graph_edge ns (last (snd st) nm) nm) ->
  count_white (fst st) <= frames ->
  dfs_post ns st (dfs frames ns nm st) /\ blackens nm (dfs frames ns nm st).
Proof.
  induction frames as [|frames IH]; intros nm st Hinv Hw Hedge Hroom.
  - apply count_white_pos in Hw. lia.
  - assert (exists node, dict_get nm ns = Some node) as [node Hnode].
    { apply in_keys_get. rewrite <- (di_keys _ _ Hinv). eapply dict_get_some_in_keys; eauto. }
    pose proof (count_white_set nm WHITE GRAY (fst st) Hw) as Hcw. simpl in Hcw.
    assert (~ In nm (snd st)) as Hnp.
    { intros Hin. apply (di_gray _ _ Hinv) in Hin. congruence. }
    pose proof (dfs_inv_enter st nm Hinv Hw Hedge) as Hinv1.
    destruct (dfs_deps_spec (dfs frames ns) frames nm (fun dep st' => IH dep st')
                (set_iter (node_dependencies node))
                (dict_set nm GRAY (fst st), snd st ++ [nm]) Hinv1)
      as [Hpost Hblack].
    { simpl. destruct (snd st); discriminate. }
    { simpl. apply last_last. }
    { intros d Hd. unfold graph_edge, deps_of. rewrite Hnode.
      eapply Permutation_in; [apply set_iter_perm | exact Hd]. }
    { simpl. lia. }
    cbn [dfs]. rewrite (dict_item_ok _ _ _ Hnode). cbn [bind].
    destruct (dfs_deps (dfs frames ns) (set_iter (node_dependencies node)) _)
      as [[c2 p2]|e|];
      cbn [bind fst snd]; [|split; [exact Hpost | discriminate]|destruct Hpost].
    destruct Hpost as (Hp & Hinv2 & Hev & Hcw2). simpl in Hp, Hev, Hcw2. subst p2.
    rewrite removelast_last.
    assert (dict_get nm c2 = Some GRAY) as Hg.
    { apply (di_gray _ _ Hinv2). simpl. apply in_app_iff. right. now left. }
    split; [|intros st' [= <-]; apply dict_get_set_same].
    simpl. split; [reflexivity|]. split; [|split].
    + apply dfs_inv_leave; auto.
      intros d Hd. apply (Hblack _ eq_refl).
      unfold graph_edge, deps_of in Hd. rewrite Hnode in Hd.
      eapply Permutation_in; [apply Permutation_sym, set_iter_perm | exact Hd].
    + intros x. rewrite dict_get_set. destruct (String.eqb_spec x nm) as [->|Hne].
      * right. auto.
      * destruct (Hev x) as [E|[E1 E2]].
        -- left. rewrite E. apply dict_get_set_other. congruence.
        -- right. split; [|exact E2]. rewrite <- E1. symmetry.
           apply dict_get_set_other. congruence.
    + pose proof (count_white_set nm GRAY BLACK c2 Hg) as Hcw3. simpl in Hcw3. lia.
Qed.

Lemma dfs_roots_spec frames : forall names st,
  dfs_inv ns st -> snd st = [] ->
  (forall nm, In nm names -> In nm (dict_keys ns)) ->
  count_white (fst st) <= frames ->
  match dfs_roots frames ns names st with
  | Ok st' =>
      dfs_inv ns st' /\ snd st' = [] /\ evolves (fst st) (fst st') /\
      forall nm, In nm names -> dict_get nm (fst st') = Some BLACK
  | Raise e =>
      exists cycle, e = ValueError (cycle_msg cycle) /\ closed_loop (graph_edge ns) cycle
  | OutOfFuel => False
  end.
Proof.
  induction names as [|nm names IH]; intros st Hinv Hp Hnames Hroom; simpl.
  - split; [exact Hinv|]. split; [exact Hp|]. split; [apply evolves_refl|]. intros nm [].
  - assert (exists c, dict_get nm (fst st) = Some c) as [c Hc].
    { apply in_keys_get. rewrite (di_keys _ _ Hinv). apply Hnames. now left. }
    rewrite (dict_item_ok _ _ _ Hc). cbn [bind].
    assert (forall x, In x names -> In x (dict_keys ns)) as Hnames'
      by (intros x Hx; apply Hnames; now right).
    destruct c.
    + destruct (dfs_spec frames nm st Hinv Hc) as [Hpost Hblack]; [|exact Hroom|].
      { rewrite Hp. congruence. }
      destruct (dfs frames ns nm st) as [st1|e|]; cbn [bind]; [|exact Hpost|destruct Hpost].
      destruct Hpost as (Hp1 & Hinv1 & Hev1 & Hcw1).
      specialize (IH st1 Hinv1 ltac:(congruence) Hnames' ltac:(lia)).
      destruct (dfs_roots frames ns names st1) as [st2|e|]; [|exact IH|exact IH].
      destruct IH as (Hinv2 & Hp2 & Hev2 & Hb2).
      split; [exact Hinv2|]. split; [exact Hp2|]. split; [eapply evolves_trans; eauto|].
      intros x [<-|Hx]; [|auto]. eapply evolves_black; [exact Hev2|]. now apply Hblack.
    + apply (di_gray _ _ Hinv) in Hc. rewrite Hp in Hc. destruct Hc.
    + specialize (IH st Hinv Hp Hnames' Hroom).
      destruct (dfs_roots frames ns names st) as [st2|e|]; [|exact IH|exact IH].
      destruct IH as (Hinv2 & Hp2 & Hev2 & Hb2).
      split; [exact Hinv2|]. split; [exact Hp2|]. split; [exact Hev2|].
      intros x [<-|Hx]; [|auto]. eapply evolves_black; eauto.
Qed.

(** The loop of [_detect_cycles] with room for every node: it certifies a
    rank that decreases along every edge, or raises with a closed loop of
    edges. *)
Lemma dfs_all_spec frames :
  List.length ns <= frames ->
  match dfs_roots frames ns (dict_keys ns) (initial_colours ns, []) with
  | Ok _ => exists rank : string -> nat, forall a b, graph_edge ns a b -> rank b < rank a
  | Raise e =>
      exists cycle, e = ValueError (cycle_msg cycle) /\ closed_loop (graph_edge ns) cycle
  | OutOfFuel => False
  end.
Proof.
  intros Hroom.
  assert (dfs_inv ns (initial_colours ns, [])) as Hinv.
  { split; simpl.
    - apply initial_colours_keys.
    - exact I.
    - intros x. split; [|tauto]. intros H. apply initial_colours_get in H. discriminate.
    - exists (fun _ => 0). intros u d H. apply initial_colours_get in H. discriminate. }
  pose proof (dfs_roots_spec frames (dict_keys ns) _ Hinv eq_refl
                (fun nm H => H)) as H.
  simpl in H. rewrite initial_colours_white in H. specialize (H Hroom).
  destruct (dfs_roots _ ns (dict_keys ns) _) as [st'|e|]; [|exact H|exact H].
  destruct H as (Hinv' & _ & _ & Hb).
  destruct (di_black _ _ Hinv') as [rank Hr]. exists rank. intros a b He.
  apply (Hr a b); [|exact He]. apply Hb.
  unfold graph_edge, deps_of in He. destruct (dict_get a ns) eqn:E; [|destruct He].
  eapply dict_get_some_in_keys; eauto.
Qed.

(** [_detect_cycles] either certifies a rank that decreases along every
    edge, or raises with a closed loop of edges, or, when the graph has
    more nodes than the stack has frames, may raise [RecursionError]. *)
Lemma detect_cycles_spec :
  match _detect_cycles ns with
  | Ok _ => exists rank : string -> nat, forall a b, graph_edge ns a b -> rank b < rank a
  | Raise e =>
      (exists cycle, e = ValueError (cycle_msg cycle) /\ closed_loop (graph_edge ns) cycle)
      \/ (e = RecursionError /\ dfs_frames < List.length ns)
  | OutOfFuel => False
  end.
Proof.
  unfold _detect_cycles.
  set (run := fun frames => dfs_roots frames ns (dict_keys ns) (initial_colours ns, [])).
  change (dfs_roots dfs_frames ns (dict_keys ns) (initial_colours ns, []))
    with (run dfs_frames).
  assert (run dfs_frames = Raise RecursionError \/ run dfs_frames <> Raise RecursionError)
    as [E|E].
  { destruct (run dfs_frames) as [st|[m|k|]|]; auto; right; discriminate. }
  - rewrite E. cbn [bind]. right. split; [reflexivity|].
    destruct (le_lt_dec (List.length ns) dfs_frames) as [Hle|Hlt]; [|exact Hlt].
    pose proof (dfs_all_spec dfs_frames Hle) as H. fold (run dfs_frames) in H.
    rewrite E in H. destruct H as (cycle & H & _). discriminate.
  - pose proof (dfs_all_spec (Nat.max dfs_frames (List.length ns)) (Nat.le_max_r _ _)) as H.
    fold (run (Nat.max dfs_frames (List.length ns))) in H. unfold run in H.
    rewrite (dfs_roots_frames_mono ns dfs_frames _ (Nat.le_max_l _ _) _ _ E) in H.
    fold (run dfs_frames) in H.
    destruct (run dfs_frames) as [st|e|]; cbn [bind]; [exact H | left; exact H | exact H].
Qed.

(** With room for every node the traversal does not exhaust the stack. *)
Lemma detect_cycles_room :
  List.length ns <= dfs_frames -> _detect_cycles ns <> Raise RecursionError.
Proof.
  intros Hle E. pose proof detect_cycles_spec as H. rewrite E in H.
  destruct H as [(cycle & H & _)|[_ H]]; [discriminate | lia].
Qed.
End Traversal.

(** ** The constructor *)

Lemma consecutive_impl (R R' : string -> string -> Prop) :
  (forall a b, R a b -> R' a b) -> forall l, consecutive R l -> consecutive R' l.
Proof.
  intros H. induction l as [|a l IH]; [auto|].
  destruct l as [|b l]; [auto|]. intros [Hab Hl]. split; auto.
Qed.

Lemma closed_loop_impl (R R' : string -> string -> Prop) l :
  (forall a b, R a b -> R' a b) -> closed_loop R l -> closed_loop R' l.
Proof. intros H [Hs Hc]. split; [exact Hs | eapply consecutive_impl; eauto]. Qed.

Lemma graph_edge_closed p ns :
  graph_of p ns -> forall a b, graph_edge ns a b -> In b (dict_keys ns).
Proof.
  intros G a b He. apply (g_deps _ _ G) in He. destruct He as (s & Hs & _ & Hb).
  apply (g_keys _ _ G). eapply (g_valid _ _ G); eauto.
Qed.

Lemma graph_size p ns : graph_of p ns -> List.length ns <= List.length (suites p).
Proof.
  intros G. unfold dict_keys in *.
  rewrite <- (length_map fst ns), <- (length_map name (suites p)).
  apply NoDup_incl_length; [apply (g_nodup _ _ G)|].
  intros k Hk. now apply (g_keys _ _ G).
Qed.

Lemma init_spec p : init_post p (__init__ p).
Proof.
  unfold __init__, _build. pose proof (link_suites_graph p) as H.
  destruct (link_suites (suites p) (create_nodes (suites p) [])) as [ns|e|]; cbn [bind].
  - destruct H as [G F]. pose proof (detect_cycles_spec ns (graph_edge_closed p ns G)) as D.
    destruct (_detect_cycles ns) as [[]|e|]; cbn [bind init_post].
    + simpl. split; [reflexivity|]. split; [exact G|]. split; [exact F|].
      destruct D as [rank Hr]. exists rank. intros a b He. apply Hr. now apply (g_deps _ _ G).
    + right. destruct D as [(cycle & -> & Hc)|[-> Hlt]].
      * left. split; [apply (g_valid _ _ G)|].
        exists cycle. split; [reflexivity|]. eapply closed_loop_impl; [|exact Hc].
        intros a b. apply (g_deps _ _ G).
      * right. split; [apply (g_valid _ _ G)|]. split; [reflexivity|].
        pose proof (graph_size p ns G). lia.
    + exact D.
  - left. exact H.
  - exact H.
Qed.

Lemma ranked_acyclic p (rank : string -> nat) :
  (forall a b, plan_edge p a b -> rank b < rank a) -> acyclic p.
Proof. intros Hr [l Hl]. eapply ranked_no_loop; eauto. Qed.

(** A constructed graph comes from a plan whose references are valid and
    whose dependency relation has no cycle. *)
Lemma init_ok_valid p g : __init__ p = Ok g -> valid_references p /\ acyclic p.
Proof.
  intros Hg. pose proof (init_spec p) as H. rewrite Hg in H.
  destruct H as (_ & G & _ & rank & Hr). split.
  - apply (g_valid _ _ G).
  - eapply ranked_acyclic; eauto.
Qed.

(** With room on the stack for every suite, construction succeeds exactly
    on the plans whose references are valid and whose dependency relation
    has no cycle. *)
Lemma init_ok_iff p :
  List.length (suites p) <= dfs_frames ->
  ((exists g, __init__ p = Ok g) <-> valid_references p /\ acyclic p).
Proof.
  intros Hroom. split; [intros [g Hg]; eapply init_ok_valid; eauto|].
  intros [Hv Ha]. pose proof (init_spec p) as H.
  destruct (__init__ p) as [g|e|]; simpl in H; [eauto| |destruct H].
  destruct H as [[Hn _]|[[_ (cycle & _ & Hc)]|(_ & _ & Hlt)]]; [tauto| |lia].
  exfalso. apply Ha. now exists cycle.
Qed.

(** ** Level scheduling: the decrements *)

Lemma relax_all_app ds1 : forall ds2 st,
  relax_all (ds1 ++ ds2) st = (st' <- relax_all ds1 st ;; relax_all ds2 st').
Proof.
  induction ds1 as [|d ds1 IH]; intros ds2 st; simpl; [reflexivity|].
  destruct (relax d st) as [st1|e|]; cbn [bind]; auto.
Qed.

(** Processing the dependents [ds] subtracts from each degree the number of
    its occurrences, and queues once each name whose degree reaches zero. *)
Lemma relax_all_spec ds : forall deg q,
  (forall d, In d ds -> In d (dict_keys deg)) ->
  exists deg' newq,
    relax_all ds (deg, q) = Ok (deg', q ++ newq) /\
    dict_keys deg' = dict_keys deg /\
    (forall v, dict_get v deg'
               = option_map (fun x => (x - Z.of_nat (count_occ string_dec ds v))%Z)
                            (dict_get v deg)) /\
    NoDup newq /\
    (forall v, In v newq <->
       exists x, dict_get v deg = Some x /\
                 (0 < x <= Z.of_nat (count_occ string_dec ds v))%Z).
Proof.
  induction ds as [|d ds IH]; intros deg q Hin.
  - exists deg, []. simpl. rewrite app_nil_r. split; [reflexivity|]. split; [reflexivity|].
    split; [|split; [constructor|]].
    + intros v. destruct (dict_get v deg); simpl; [f_equal; lia | reflexivity].
    + intros v. split; [intros [] | intros (x & _ & H); lia].
  - destruct (in_keys_get d deg (Hin d (or_introl eq_refl))) as [x0 Hx0].
    assert (dict_keys (dict_set d (x0 - 1)%Z deg) = dict_keys deg) as Hk1
      by (apply dict_keys_set_present; eapply dict_get_some_in_keys; eauto).
    destruct (IH (dict_set d (x0 - 1)%Z deg)
                 (if (x0 - 1 =? 0)%Z then q ++ [d] else q))
      as (deg2 & newq2 & Hrun & Hk2 & Hget2 & Hnd2 & Hq2).
    { intros x Hx. rewrite Hk1. apply Hin. now right. }
    exists deg2, ((if (x0 - 1 =? 0)%Z then [d] else []) ++ newq2).
    split; [|split; [congruence|split; [|split]]].
    + cbn [relax_all]. unfold relax. cbn [fst snd].
      rewrite (dict_item_ok _ _ _ Hx0). cbn [bind].
      unfold dict_item. rewrite dict_get_set_same. cbn [bind]. rewrite Hrun.
      destruct (x0 - 1 =? 0)%Z; simpl; now rewrite <- ?app_assoc.
    + intros v. rewrite Hget2, dict_get_set. simpl count_occ.
      destruct (String.eqb_spec v d) as [->|Hne].
      * rewrite Hx0. destruct (string_dec d d); [|congruence]. simpl. f_equal. lia.
      * destruct (string_dec d v); [congruence|]. reflexivity.
    + apply NoDup_app; [destruct (x0 - 1 =? 0)%Z; repeat constructor; simpl; tauto | exact Hnd2 |].
      intros a Ha Ha2. destruct (Z.eqb_spec (x0 - 1) 0) as [Hz|Hz]; [|destruct Ha].
      destruct Ha as [<-|[]]. apply Hq2 in Ha2 as (x & Hx & Hpos).
      rewrite dict_get_set_same in Hx. injection Hx as <-. lia.
    + intros v. rewrite in_app_iff, Hq2, dict_get_set. simpl count_occ.
      destruct (String.eqb_spec v d) as [->|Hne].
      * destruct (string_dec d d); [|congruence]. rewrite Hx0. split.
        -- intros [H|(x & [= <-] & Hpos)].
           ++ exists x0. split; [reflexivity|].
              destruct (Z.eqb_spec (x0 - 1) 0); [lia | destruct H].
           ++ exists x0. split; [reflexivity | lia].
        -- intros (x & [= <-] & Hpos). destruct (Z.eqb_spec (x0 - 1) 0) as [Hz|Hz].
           ++ left. now left.
           ++ right. exists (x0 - 1)%Z. split; [reflexivity | lia].
      * destruct (string_dec d v); [congruence|]. split.
        -- intros [H|H]; [|exact H]. destruct (x0 - 1 =? 0)%Z; [|destruct H].
           destruct H as [<-|[]]. congruence.
        -- auto.
Qed.

(** ** Level scheduling: counting *)

Lemma count_occ_nodup (l : list string) v :
  NoDup l -> count_occ string_dec l v = if set_mem v l then 1 else 0.
Proof.
  intros H. destruct (set_mem v l) eqn:E.
  - apply set_mem_true in E. now apply NoDup_count_occ'.
  - apply count_occ_not_In. rewrite <- set_mem_true. congruence.
Qed.

Lemma set_mem_cons x y l : set_mem x (y :: l) = String.eqb x y || set_mem x l.
Proof. reflexivity. Qed.

Lemma set_mem_app x l1 l2 : set_mem x (l1 ++ l2) = set_mem x l1 || set_mem x l2.
Proof. unfold set_mem. apply existsb_app. Qed.

Lemma set_mem_false x l : set_mem x l = false <-> ~ In x l.
Proof. rewrite <- set_mem_true. destruct (set_mem x l); intuition congruence. Qed.

Lemma filter_mem_cons u P (D : list string) :
  NoDup D -> ~ In u P ->
  List.length (filter (fun d => set_mem d (u :: P)) D)
  = (if set_mem u D then 1 else 0) + List.length (filter (fun d => set_mem d P) D).
Proof.
  intros HD Hu. induction D as [|d D IH]; [reflexivity|].
  inversion HD as [|? ? Hd HD']; subst. specialize (IH HD').
  cbn [filter]. rewrite !set_mem_cons.
  destruct (String.eqb_spec d u) as [->|Hne].
  - rewrite String.eqb_refl. cbn [orb]. apply set_mem_false in Hu. rewrite Hu.
    apply set_mem_false in Hd. rewrite Hd in IH. cbn [List.length]. lia.
  - rewrite (proj2 (String.eqb_neq u d)) by congruence. cbn [orb].
    destruct (set_mem d P); cbn [List.length]; lia.
Qed.

Lemma filter_split_disjoint (P G D : list string) :
  (forall x, In x G -> ~ In x P) ->
  List.length (filter (fun d => negb (set_mem d P)) D)
  = List.length (filter (fun d => set_mem d G) D)
    + List.length (filter (fun d => negb (set_mem d (P ++ G))) D).
Proof.
  intros Hdis. induction D as [|d D IH]; [reflexivity|].
  cbn [filter]. rewrite set_mem_app.
  destruct (set_mem d P) eqn:EP, (set_mem d G) eqn:EG; simpl; try lia.
  apply set_mem_true in EP, EG. exfalso. eapply Hdis; eauto.
Qed.

Lemma bool_eq_iff (a b : bool) : (a = true <-> b = true) -> a = b.
Proof. destruct a, b; intuition congruence. Qed.

Lemma graph_inverse p ns u v :
  graph_of p ns -> set_mem v (rdeps_of ns u) = set_mem u (deps_of ns v).
Proof.
  intros G. apply bool_eq_iff. rewrite !set_mem_true.
  now rewrite (g_rdeps _ _ G), (g_deps _ _ G).
Qed.

(** The decrements caused by a group reach [v] once per dependency of [v]
    in that group. *)
Lemma events_count p ns v :
  graph_of p ns -> forall G, NoDup G ->
  count_occ string_dec (flat_map (fun u => set_iter (rdeps_of ns u)) G) v
  = List.length (filter (fun d => set_mem d G) (deps_of ns v)).
Proof.
  intros Hg. induction G as [|u G IH]; intros HG.
  - simpl. induction (deps_of ns v); simpl; auto.
  - inversion HG as [|? ? Hu HG']; subst. cbn [flat_map].
    rewrite count_occ_app, (IH HG'), filter_mem_cons; auto; [|apply (g_sets _ _ Hg)].
    rewrite (proj1 (Permutation_count_occ string_dec _ _) (set_iter_perm (rdeps_of ns u))).
    rewrite count_occ_nodup by apply (g_sets _ _ Hg).
    now rewrite (graph_inverse p ns u v Hg).
Qed.

Lemma pending_nil ns P v :
  pending_deps ns P v = [] <-> (forall d, In d (deps_of ns v) -> In d P).
Proof.
  unfold pending_deps. induction (deps_of ns v) as [|d D IH]; simpl; [tauto|].
  destruct (set_mem d P) eqn:E; simpl.
  - apply set_mem_true in E. rewrite IH. split; [intros H x [<-|Hx]; auto | auto].
  - apply set_mem_false in E. split; [discriminate | intros H; exfalso; auto].
Qed.

Lemma leveled_closed E groups v d :
  leveled E groups -> In v (List.concat groups) -> E v d -> In d (List.concat groups).
Proof.
  intros HL Hv He. apply in_concat in Hv as (g & Hg & Hvg).
  apply In_nth_error in Hg as [i Hi].
  destruct (HL i g v d Hi Hvg He) as (j & g' & _ & Hj & Hd).
  apply in_concat. exists g'. split; [eapply nth_error_In; eauto | exact Hd].
Qed.

(** ** Level scheduling: the flags *)

Lemma same_graph_refl ns : same_graph ns ns.
Proof. split; auto. Qed.

Lemma same_graph_trans ns1 ns2 ns3 :
  same_graph ns1 ns2 -> same_graph ns2 ns3 -> same_graph ns1 ns3.
Proof.
  intros [K1 H1] [K2 H2]. split; [congruence|]. intros k.
  destruct (H1 k) as (A1 & B1 & C1), (H2 k) as (A2 & B2 & C2).
  repeat split; congruence.
Qed.

Lemma same_graph_sym ns1 ns2 : same_graph ns1 ns2 -> same_graph ns2 ns1.
Proof.
  intros [K H]. split; [congruence|]. intros k. destruct (H k) as (A & B & C). auto.
Qed.

(** Rewriting the flag or the status of one node keeps the graph. *)
Lemma set_node_same_graph ns nm n n' :
  dict_get nm ns = Some n ->
  suite n' = suite n -> node_dependencies n' = node_dependencies n ->
  dependents n' = dependents n ->
  same_graph ns (dict_set nm n' ns).
Proof.
  intros Hn E1 E2 E3. split.
  - apply dict_keys_set_present. eapply dict_get_some_in_keys; eauto.
  - intros k. unfold deps_of, rdeps_of. rewrite dict_get_set.
    destruct (String.eqb_spec k nm) as [->|Hne]; [|auto].
    rewrite Hn. simpl. repeat split; congruence.
Qed.

Lemma mark_all_spec G : forall ns,
  same_graph ns (mark_all G ns) /\
  (forall k, status_of (mark_all G ns) k = status_of ns k) /\
  (forall k, In k (dict_keys ns) ->
             flag_of (mark_all G ns) k = flag_of ns k || set_mem k G) /\
  (forall k, ~ In k (dict_keys ns) -> flag_of (mark_all G ns) k = false).
Proof.
  induction G as [|nm G IH]; intros ns.
  - simpl. split; [apply same_graph_refl|]. split; [reflexivity|]. split.
    + intros k _. now rewrite orb_false_r.
    + intros k Hk. unfold flag_of. apply dict_get_none_not_in in Hk. now rewrite Hk.
  - cbn [mark_all fold_left]. destruct (dict_get nm ns) as [n|] eqn:Hn.
    + set (ns1 := dict_set nm (with_executed n true) ns).
      assert (same_graph ns ns1) as S1 by (apply (set_node_same_graph ns nm n); auto).
      destruct (IH ns1) as (S2 & St & Fl & Fo). fold (mark_all G ns1).
      split; [eapply same_graph_trans; eauto|]. split; [|split].
      * intros k. rewrite St. unfold status_of, ns1. rewrite dict_get_set.
        destruct (String.eqb_spec k nm) as [->|]; [now rewrite Hn | reflexivity].
      * intros k Hk. rewrite Fl by (now rewrite (proj1 S1)).
        rewrite set_mem_cons. unfold flag_of, ns1. rewrite dict_get_set.
        destruct (String.eqb_spec k nm) as [->|]; simpl.
        -- now rewrite orb_true_r.
        -- reflexivity.
      * intros k Hk. apply Fo. now rewrite (proj1 S1).
    + destruct (IH ns) as (S2 & St & Fl & Fo). fold (mark_all G ns).
      split; [exact S2|]. split; [exact St|]. split; [|exact Fo].
      intros k Hk. rewrite Fl by exact Hk. rewrite set_mem_cons.
      destruct (String.eqb_spec k nm) as [->|]; [|reflexivity].
      apply dict_get_in_keys in Hk. congruence.
Qed.

(** A group is processed as one run of decrements over the dependents of
    its members, in order, and the setting of their flags. *)
Lemma process_group_eq G : forall st,
  (forall x, In x G -> In x (dict_keys (s_nodes st))) ->
  process_group G st =
  (dq <- relax_all (flat_map (fun u => set_iter (rdeps_of (s_nodes st) u)) G)
           (s_degree st, s_queue st) ;;
   Ok {| s_nodes := mark_all G (s_nodes st); s_degree := fst dq; s_queue := snd dq |}).
Proof.
  induction G as [|nm G IH]; intros st Hin.
  - destruct st. reflexivity.
  - destruct (in_keys_get nm (s_nodes st) (Hin nm (or_introl eq_refl))) as [n Hn].
    cbn [process_group flat_map]. unfold process_node.
    rewrite (dict_item_ok _ _ _ Hn). cbn [bind]. rewrite relax_all_app.
    unfold rdeps_of at 1. rewrite Hn.
    destruct (relax_all (set_iter (dependents n)) (s_degree st, s_queue st)) as [dq|e|];
      cbn [bind]; [|reflexivity|reflexivity].
    assert (same_graph (s_nodes st) (dict_set nm (with_executed n true) (s_nodes st))) as S1
      by (apply (set_node_same_graph _ nm n); auto).
    rewrite IH; cbn [s_nodes s_degree s_queue].
    + rewrite (flat_map_ext _ (fun u => set_iter (rdeps_of (s_nodes st) u)))
        by (intros a; now rewrite (proj1 (proj2 (proj2 S1 a)))).
      destruct dq as [deg q]. cbn [fst snd].
      destruct (relax_all _ (deg, q)) as [dq'|e|]; cbn [bind]; try reflexivity.
      cbn [mark_all fold_left]. now rewrite Hn.
    + intros x Hx. rewrite (proj1 S1). apply Hin. now right.
Qed.

Lemma graph_of_same p ns ns' : graph_of p ns -> same_graph ns ns' -> graph_of p ns'.
Proof.
  intros G [K H]. split.
  - rewrite K. apply (g_nodup _ _ G).
  - intros k. rewrite K. apply (g_keys _ _ G).
  - intros k d. rewrite (proj1 (H k)). apply (g_deps _ _ G).
  - intros k a. rewrite (proj1 (proj2 (H k))). apply (g_rdeps _ _ G).
  - intros k. rewrite (proj1 (H k)), (proj1 (proj2 (H k))). apply (g_sets _ _ G).
  - apply (g_valid _ _ G).
  - intros k n Hn. destruct (H k) as (_ & _ & Hs). rewrite Hn in Hs. simpl in Hs.
    destruct (dict_get k ns) as [n0|] eqn:E; [|discriminate]. simpl in Hs.
    injection Hs as ->. now apply (g_suite _ _ G).
Qed.

Lemma nodup_app_disjoint (l1 l2 : list string) x :
  NoDup (l1 ++ l2) -> In x l1 -> In x l2 -> False.
Proof.
  induction l1 as [|a l1 IH]; simpl; [tauto|].
  intros H [->|H1] H2; inversion H; subst.
  - apply H3, in_app_iff. now right.
  - now apply IH.
Qed.

Lemma length_zero_nil {A : Type} (l : list A) : Z.of_nat (List.length l) = 0%Z -> l = [].
Proof. destruct l; simpl; [reflexivity | lia]. Qed.

(** One round of the [while] loop keeps the invariant. *)
Lemma sched_step p ns0 st groups :
  graph_of p ns0 -> sched_inv ns0 st groups -> s_queue st <> [] ->
  exists st',
    process_group (s_queue st)
      {| s_nodes := s_nodes st; s_degree := s_degree st; s_queue := [] |} = Ok st' /\
    sched_inv ns0 st' (groups ++ [s_queue st]).
Proof.
  intros G0 [SG IFl ISt IK IN II ID IQ IL IE] Hne.
  assert (forall x, In x (s_queue st) -> In x (dict_keys (s_nodes st))) as HQkeys.
  { intros x Hx. rewrite (proj1 SG). apply II, in_app_iff. now right. }
  rewrite process_group_eq by exact HQkeys. cbn [s_nodes s_degree s_queue].
  rewrite (flat_map_ext _ (fun u => set_iter (rdeps_of ns0 u)))
    by (intros a; now rewrite (proj1 (proj2 (proj2 SG a)))).
  destruct (relax_all_spec (flat_map (fun u => set_iter (rdeps_of ns0 u)) (s_queue st))
              (s_degree st) [])
    as (deg' & newq & Hrun & Hk & Hget & Hnd & Hq).
  { intros d Hd. rewrite IK. apply in_flat_map in Hd as (u & Hu & Hd).
    apply (Permutation_in _ (set_iter_perm _)) in Hd.
    apply (g_rdeps _ _ G0) in Hd. destruct Hd as (s & Hs & <- & _).
    apply (g_keys _ _ G0). unfold suite_names. now apply in_map. }
  rewrite Hrun. cbn [bind app fst snd]. eexists; split; [reflexivity|].
  set (P := List.concat groups) in *. set (Q := s_queue st) in *.
  assert (List.concat (groups ++ [Q]) = P ++ Q) as Hcat
    by (rewrite concat_app; simpl; now rewrite app_nil_r).
  pose proof IN as HPQ.
  assert (forall x, In x Q -> ~ In x P) as Hdis
    by (intros x HxQ HxP; eapply nodup_app_disjoint; eauto).
  assert (forall v, In v P -> pending_deps ns0 P v = []) as Hclosed.
  { intros v Hv. apply pending_nil. intros d Hd.
    eapply leveled_closed; [apply IL | exact Hv | exact Hd]. }
  assert (forall v, In v (dict_keys ns0) ->
            dict_get v deg' = Some (Z.of_nat (List.length (pending_deps ns0 (P ++ Q) v))))
    as Hdeg'.
  { intros v Hv. rewrite Hget, (ID v Hv). simpl. f_equal.
    rewrite (events_count p ns0 v G0 Q (NoDup_app_remove_l _ _ HPQ)).
    unfold pending_deps. fold P. rewrite (filter_split_disjoint P Q _ Hdis). lia. }
  assert (forall a, In a newq -> In a (dict_keys ns0) /\ ~ In a P /\ ~ In a Q) as Hnew.
  { intros a Ha. apply Hq in Ha as (x & Hx & Hpos).
    assert (In a (dict_keys ns0)) as Hak
      by (rewrite <- IK; eapply dict_get_some_in_keys; eauto).
    rewrite (ID a Hak) in Hx. injection Hx as <-. fold P in Hpos.
    split; [exact Hak|]. split.
    - intros HaP. rewrite (Hclosed a HaP) in Hpos. simpl in Hpos. lia.
    - intros HaQ. apply (IQ a Hak) in HaQ as [_ H0].
      rewrite (ID a Hak) in H0. fold P in H0. injection H0 as H0. lia. }
  destruct (mark_all_spec Q (s_nodes st)) as (S2 & St & Fl & Fo).
  split; cbn [s_nodes s_degree s_queue]; rewrite ?Hcat.
  - eapply same_graph_trans; eauto.
  - intros k. rewrite set_mem_app, orb_assoc, <- (IFl k).
    destruct (in_dec string_dec k (dict_keys (s_nodes st))) as [Hin|Hout].
    + now apply Fl.
    + rewrite (Fo k Hout). unfold flag_of.
      rewrite (proj2 (dict_get_none_not_in k (s_nodes st)) Hout). symmetry.
      apply set_mem_false. intros HkQ. apply Hout. now apply HQkeys.
  - intros k. rewrite St. apply ISt.
  - rewrite Hk. apply IK.
  - apply NoDup_app; [exact HPQ | exact Hnd |].
    intros a Ha Ha'. destruct (Hnew a Ha') as (_ & HnP & HnQ).
    apply in_app_iff in Ha. tauto.
  - intros x Hx. apply in_app_iff in Hx as [Hx|Hx].
    + now apply II.
    + now apply Hnew.
  - exact Hdeg'.
  - intros v Hv. rewrite (Hdeg' v Hv). split.
    + intros Hvn. destruct (Hnew v Hvn) as (_ & HnP & HnQ). split.
      * rewrite in_app_iff. tauto.
      * apply Hq in Hvn as (x & Hx & Hpos). pose proof (Hdeg' v Hv) as Hd'.
        rewrite Hget, Hx in Hd'. simpl in Hd'. injection Hd' as Hd'.
        f_equal. lia.
    + intros [Hnot H0]. rewrite in_app_iff in Hnot. apply Hq.
      pose proof (ID v Hv) as Hd. fold P in Hd.
      eexists; split; [exact Hd|].
      pose proof (Hdeg' v Hv) as Hd'. rewrite Hget, Hd in Hd'. simpl in Hd'.
      rewrite H0 in Hd'. injection Hd' as Hd'. split; [|lia].
      destruct (Z.eq_dec (Z.of_nat (List.length (pending_deps ns0 P v))) 0) as [Hz|Hz]; [|lia].
      exfalso. apply Hnot. right. apply (IQ v Hv). split; [tauto|].
      rewrite Hd. now rewrite Hz.
  - intros i g v d Hi Hv He.
    destruct (Nat.lt_ge_cases i (List.length groups)) as [Hlt|Hge].
    + rewrite nth_error_app1 in Hi by exact Hlt.
      destruct (IL i g v d Hi Hv He) as (j & g' & Hj & Hg' & Hd).
      exists j, g'. split; [exact Hj|]. split; [|exact Hd].
      rewrite nth_error_app1 by lia. exact Hg'.
    + rewrite nth_error_app2 in Hi by exact Hge.
      destruct (i - List.length groups) as [|m] eqn:Em; [|destruct m; discriminate].
      simpl in Hi. injection Hi as <-.
      assert (In v (dict_keys ns0)) as Hvk
        by (apply II, in_app_iff; now right).
      apply (IQ v Hvk) in Hv as [_ H0].
      rewrite (ID v Hvk) in H0. injection H0 as H0.
      apply length_zero_nil in H0. fold P in H0.
      pose proof (proj1 (pending_nil ns0 P v) H0 d He) as HdP.
      apply in_concat in HdP as (g' & Hg' & Hd).
      apply In_nth_error in Hg' as [j Hj]. exists j, g'.
      assert (j < List.length groups) by (apply nth_error_Some; congruence).
      split; [lia|]. split; [|exact Hd]. rewrite nth_error_app1 by lia. exact Hj.
  - apply Forall_app. split; [apply IE|].
    constructor; [exact Hne | constructor].
Qed.

(** The loop ends within the fuel that the number of unscheduled nodes
    allows, with the invariant and an empty queue. *)
Lemma schedule_spec p ns0 :
  graph_of p ns0 ->
  forall fuel st groups,
    sched_inv ns0 st groups ->
    List.length (dict_keys ns0) <= List.length (List.concat groups) + fuel ->
    exists st' groups',
      schedule fuel st groups = Ok (s_nodes st', groups') /\
      sched_inv ns0 st' groups' /\ s_queue st' = [].
Proof.
  intros G0. induction fuel as [|fuel IH]; intros st groups I Hfuel.
  - destruct (s_queue st) as [|x q] eqn:EQ.
    + exists st, groups. simpl. rewrite EQ. auto.
    + exfalso. pose proof (si_nodup _ _ _ I) as Hnd.
      pose proof (NoDup_incl_length Hnd (si_incl _ _ _ I)) as Hlen.
      rewrite length_app, EQ in Hlen. simpl in Hlen. lia.
  - destruct (s_queue st) as [|x q] eqn:EQ.
    + exists st, groups. simpl. rewrite EQ. auto.
    + destruct (sched_step p ns0 st groups G0 I) as (st1 & Hrun & I1).
      { rewrite EQ. discriminate. }
      destruct (IH st1 (groups ++ [s_queue st]) I1) as (st' & groups' & Hs & I' & Hq).
      { rewrite concat_app, length_app. simpl. rewrite app_nil_r, EQ. simpl. lia. }
      exists st', groups'. split; [|auto].
      cbn [schedule]. rewrite EQ. rewrite EQ in Hrun, Hs. rewrite Hrun. cbn [bind].
      exact Hs.
Qed.

(** The state in which the loop starts. *)
Lemma zero_degree_spec (deg : dict Z) :
  NoDup (dict_keys deg) ->
  NoDup (zero_degree deg) /\
  forall v, In v (zero_degree deg) <-> dict_get v deg = Some 0%Z.
Proof.
  unfold zero_degree. intros Hnd. split.
  - clear - Hnd. induction deg as [|[k x] deg IH]; simpl; [constructor|].
    inversion Hnd as [|? ? Hk Hnd']; subst. destruct (x =? 0)%Z; simpl; [|auto].
    constructor; [|auto]. intros Hin. apply Hk.
    apply in_map_iff in Hin as ([k' x'] & <- & Hin). apply filter_In in Hin as [Hin _].
    change (In (fst (k', x')) (map fst deg)). now apply in_map.
  - intros v. rewrite in_map_iff. split.
    + intros ([k x] & <- & Hin). apply filter_In in Hin as [Hin Hz]. simpl in *.
      apply Z.eqb_eq in Hz. subst x. now apply in_dict_get.
    + intros Hget. exists (v, 0%Z). split; [reflexivity|]. apply filter_In.
      split; [now apply dict_get_in | reflexivity].
Qed.

Lemma in_degrees_keys ns : dict_keys (in_degrees ns) = dict_keys ns.
Proof. unfold in_degrees, dict_keys. now rewrite map_map. Qed.

Lemma in_degrees_get ns v :
  dict_get v (in_degrees ns)
  = option_map (fun n => Z.of_nat (List.length (node_dependencies n))) (dict_get v ns).
Proof.
  unfold in_degrees. induction ns as [|[k n] ns IH]; simpl; [reflexivity|].
  destruct (String.eqb v k); [reflexivity | exact IH].
Qed.

Lemma pending_start ns v : pending_deps ns [] v = deps_of ns v.
Proof.
  unfold pending_deps. induction (deps_of ns v) as [|d D IH]; simpl; [reflexivity|].
  f_equal. exact IH.
Qed.

Lemma sched_inv_start p ns :
  graph_of p ns ->
  sched_inv ns {| s_nodes := ns; s_degree := in_degrees ns;
                  s_queue := zero_degree (in_degrees ns) |} [].
Proof.
  intros G.
  assert (NoDup (dict_keys (in_degrees ns))) as Hnd
    by (rewrite in_degrees_keys; apply (g_nodup _ _ G)).
  destruct (zero_degree_spec _ Hnd) as [Hz1 Hz2].
  split; cbn [s_nodes s_degree s_queue List.concat app].
  - apply same_graph_refl.
  - intros k. now rewrite orb_false_r.
  - reflexivity.
  - apply in_degrees_keys.
  - exact Hz1.
  - intros x Hx. apply Hz2 in Hx. rewrite <- in_degrees_keys.
    eapply dict_get_some_in_keys; eauto.
  - intros v Hv. rewrite in_degrees_get, pending_start. unfold deps_of.
    destruct (in_keys_get v ns Hv) as [n ->]. reflexivity.
  - intros v Hv. rewrite Hz2. tauto.
  - intros i g v d Hi. destruct i; discriminate.
  - constructor.
Qed.

(** ** Level scheduling: the result *)

Lemma unexecuted_none ns :
  (forall k n, In (k, n) ns -> executed n = true) -> unexecuted_names ns = [].
Proof.
  unfold unexecuted_names. induction ns as [|[k n] ns IH]; intros H; [reflexivity|].
  simpl. rewrite (H k n (or_introl eq_refl)). simpl. apply IH.
  intros k' n' Hin. apply (H k' n'). now right.
Qed.

Lemma get_execution_order_spec p g :
  graph_of p (nodes g) ->
  (exists rank : string -> nat, forall a b, plan_edge p a b -> rank b < rank a) ->
  order_post g (get_execution_order g).
Proof.
  intros G [rank Hrank]. unfold get_execution_order.
  destruct (schedule_spec p (nodes g) G (List.length (nodes g)) _ []
              (sched_inv_start p (nodes g) G)) as (st' & groups & Hrun & I & Hq).
  { unfold dict_keys. rewrite length_map. simpl. lia. }
  rewrite Hrun. cbn [bind fst snd].
  pose proof (si_nodup _ _ _ I) as Hnd. rewrite Hq, app_nil_r in Hnd.
  assert (forall x, In x (List.concat groups) -> In x (dict_keys (nodes g))) as Hincl.
  { intros x Hx. apply (si_incl _ _ _ I), in_app_iff. now left. }
  assert (forall n v, rank v < n -> In v (dict_keys (nodes g)) ->
                      In v (List.concat groups)) as Hall.
  { induction n as [|n IH]; intros v Hlt Hv; [lia|].
    destruct (in_dec string_dec v (List.concat groups)) as [Hin|Hout]; [exact Hin|].
    exfalso. assert (pending_deps (nodes g) (List.concat groups) v = []) as Hp.
    { apply pending_nil. intros d Hd. apply IH.
      - apply (g_deps _ _ G) in Hd. apply Hrank in Hd. lia.
      - eapply graph_edge_closed; eauto. }
    pose proof (si_deg _ _ _ I v Hv) as Hd. rewrite Hp in Hd.
    assert (In v (s_queue st')) as Hvq by (apply (si_queue _ _ _ I v Hv); auto).
    rewrite Hq in Hvq. destruct Hvq. }
  assert (forall k, In k (dict_keys (nodes g)) -> flag_of (s_nodes st') k = true) as Hflag.
  { intros k Hk. rewrite (si_flags _ _ _ I).
    rewrite (proj2 (set_mem_true k _) (Hall (S (rank k)) k (Nat.lt_succ_diag_r _) Hk)).
    apply orb_true_r. }
  pose proof (si_graph _ _ _ I) as SG.
  rewrite unexecuted_none.
  - split; [reflexivity|]. split; [exact SG|]. split; [exact Hflag|].
    split; [apply (si_status _ _ _ I)|]. split; [|split].
    + apply NoDup_Permutation; [exact Hnd | apply (g_nodup _ _ G) |].
      intros x. split; [apply Hincl | apply (Hall (S (rank x)) x (Nat.lt_succ_diag_r _))].
    + apply (si_levels _ _ _ I).
    + apply (si_nonempty _ _ _ I).
  - intros k n Hin.
    assert (In k (dict_keys (nodes g))) as Hk.
    { rewrite <- (proj1 SG). change (In (fst (k, n)) (map fst (s_nodes st'))).
      now apply in_map. }
    specialize (Hflag k Hk). unfold flag_of in Hflag.
    rewrite (in_dict_get k n (s_nodes st')) in Hflag; [exact Hflag | | exact Hin].
    rewrite (proj1 SG). apply (g_nodup _ _ G).
Qed.

(** ** Runtime states *)

Lemma mark_executed_same_graph nm st g :
  same_graph (nodes g) (nodes (mark_executed nm st g)).
Proof.
  unfold mark_executed. destruct (dict_get nm (nodes g)) as [n|] eqn:E.
  - simpl. apply (set_node_same_graph _ nm n); auto.
  - apply same_graph_refl.
Qed.

Lemma mark_executed_plan nm st g : plan (mark_executed nm st g) = plan g.
Proof. unfold mark_executed. destruct (dict_get nm (nodes g)); reflexivity. Qed.

Lemma parallel_groups_order g mp result g' :
  get_parallel_groups g mp = Ok (result, g') ->
  exists groups, get_execution_order g = Ok (groups, g').
Proof.
  unfold get_parallel_groups. destruct (get_execution_order g) as [[groups g1]|e|];
    cbn [bind fst snd]; try discriminate.
  destruct (split_groups mp groups); cbn [bind]; try discriminate.
  intros [= _ <-]. eauto.
Qed.

Lemma stats_order g stats g' :
  get_stats g = Ok (stats, g') ->
  exists groups, get_execution_order g = Ok (groups, g').
Proof.
  unfold get_stats. destruct (get_execution_order g) as [[groups g1]|e|];
    cbn [bind fst snd]; try discriminate.
  intros [= _ <-]. eauto.
Qed.

(** Every runtime state of a constructed builder carries the graph of its plan. *)
Lemma runtime_graph p g0 g :
  __init__ p = Ok g0 -> runtime g0 g ->
  plan g = p /\ graph_of p (nodes g) /\ same_graph (nodes g0) (nodes g) /\
  exists rank : string -> nat, forall a b, plan_edge p a b -> rank b < rank a.
Proof.
  intros Hinit Hrt. pose proof (init_spec p) as H0. rewrite Hinit in H0.
  destruct H0 as (Hp & G0 & _ & Hrank).
  assert (forall g1 groups g2,
            plan g1 = p /\ graph_of p (nodes g1) /\ same_graph (nodes g0) (nodes g1) ->
            get_execution_order g1 = Ok (groups, g2) ->
            plan g2 = p /\ graph_of p (nodes g2) /\ same_graph (nodes g0) (nodes g2)) as Hstep.
  { intros g1 groups g2 (Hp1 & G1 & S1) Hrun.
    pose proof (get_execution_order_spec p g1 G1 Hrank) as Ho. rewrite Hrun in Ho.
    destruct Ho as (Hp2 & S2 & _). split; [congruence|]. split.
    - eapply graph_of_same; eauto.
    - eapply same_graph_trans; eauto. }
  assert (plan g = p /\ graph_of p (nodes g) /\ same_graph (nodes g0) (nodes g)) as R.
  { induction Hrt as [|g nm st Hrt IH|g groups g' Hrt IH Hrun|g mp result g' Hrt IH Hrun
                      |g stats g' Hrt IH Hrun].
    - split; [exact Hp|]. split; [exact G0 | apply same_graph_refl].
    - destruct IH as (Hp1 & G1 & S1). split; [now rewrite mark_executed_plan|]. split.
      + eapply graph_of_same; [exact G1 | apply mark_executed_same_graph].
      + eapply same_graph_trans; [exact S1 | apply mark_executed_same_graph].
    - eapply Hstep; eauto.
    - apply parallel_groups_order in Hrun as [groups Hrun]. eapply Hstep; eauto.
    - apply stats_order in Hrun as [groups Hrun]. eapply Hstep; eauto. }
  destruct R as (R1 & R2 & R3). auto.
Qed.


(** ** Runtime tracking *)

Lemma mark_executed_absent nm st g :
  ~ In nm (dict_keys (nodes g)) -> mark_executed nm st g = g.
Proof.
  intros H. unfold mark_executed. apply dict_get_none_not_in in H. now rewrite H.
Qed.

Lemma mark_executed_flag nm st g k :
  In nm (dict_keys (nodes g)) ->
  flag_of (nodes (mark_executed nm st g)) k
  = if String.eqb k nm then true else flag_of (nodes g) k.
Proof.
  intros H. apply in_keys_get in H as [n Hn]. unfold mark_executed. rewrite Hn.
  unfold flag_of. simpl. rewrite dict_get_set.
  destruct (String.eqb k nm); reflexivity.
Qed.

Lemma mark_executed_status nm st g k :
  In nm (dict_keys (nodes g)) ->
  status_of (nodes (mark_executed nm st g)) k
  = if String.eqb k nm then Some st else status_of (nodes g) k.
Proof.
  intros H. apply in_keys_get in H as [n Hn]. unfold mark_executed. rewrite Hn.
  unfold status_of. simpl. rewrite dict_get_set.
  destruct (String.eqb k nm); reflexivity.
Qed.

Lemma dict_set_set {V : Type} k (v v' : V) d :
  dict_set k v' (dict_set k v d) = dict_set k v' d.
Proof.
  induction d as [|[k0 v0] d IH]; simpl.
  - now rewrite String.eqb_refl.
  - destruct (String.eqb k k0) eqn:E; simpl.
    + now rewrite String.eqb_refl.
    + now rewrite E, IH.
Qed.

(** [all(...)] over dependencies that are nodes: no [KeyError], and true
    exactly when every flag is set. *)
Lemma all_executed_spec ns deps :
  (forall d, In d deps -> In d (dict_keys ns)) ->
  exists b, all_executed ns deps = Ok b /\
            (b = true <-> forall d, In d deps -> flag_of ns d = true).
Proof.
  induction deps as [|d deps IH]; intros Hin.
  - exists true. simpl. split; [reflexivity|]. split; [intros _ d [] | reflexivity].
  - destruct (in_keys_get d ns (Hin d (or_introl eq_refl))) as [n Hn].
    simpl. rewrite (dict_item_ok _ _ _ Hn). cbn [bind].
    destruct (executed n) eqn:E.
    + destruct (IH (fun x Hx => Hin x (or_intror Hx))) as (b & Hb & Hiff).
      exists b. split; [exact Hb|]. rewrite Hiff. split.
      * intros H x [<-|Hx]; [|auto]. unfold flag_of. now rewrite Hn.
      * intros H x Hx. apply H. now right.
    + exists false. split; [reflexivity|]. split; [discriminate|].
      intros H. specialize (H d (or_introl eq_refl)). unfold flag_of in H.
      rewrite Hn in H. congruence.
Qed.

(** [get_dependencies] lists the dependency set, in the order of iteration. *)
Lemma get_dependencies_in g nm d :
  In d (get_dependencies g nm) <-> In d (deps_of (nodes g) nm).
Proof.
  unfold get_dependencies, deps_of. destruct (dict_get nm (nodes g)); [|tauto].
  split; apply Permutation_in; [|apply Permutation_sym]; apply set_iter_perm.
Qed.

Lemma is_ready_spec p g nm :
  graph_of p (nodes g) -> In nm (dict_keys (nodes g)) ->
  exists b, is_ready g nm = Ok b /\
            (b = true <->
             forall d, In d (get_dependencies g nm) -> flag_of (nodes g) d = true).
Proof.
  intros G Hnm. unfold is_ready, get_dependencies.
  destruct (in_keys_get nm (nodes g) Hnm) as [n Hn]. rewrite Hn.
  apply all_executed_spec. intros d Hd.
  apply (graph_edge_closed p (nodes g) G nm d). unfold graph_edge, deps_of. rewrite Hn.
  eapply Permutation_in; [apply set_iter_perm | exact Hd].
Qed.

(** ** Readiness and statuses *)

Lemma agree_get ns1 ns2 k :
  agree_up_to_status ns1 ns2 ->
  match dict_get k ns1, dict_get k ns2 with
  | Some n1, Some n2 => with_status n1 None = with_status n2 None
  | None, None => True
  | _, _ => False
  end.
Proof.
  induction 1 as [|[k1 n1] [k2 n2] ns1 ns2 [Hk Hn] HF IH]; simpl; [exact I|].
  simpl in Hk, Hn. subst k2. destruct (String.eqb k k1); [exact Hn | exact IH].
Qed.

Lemma agree_node n1 n2 :
  with_status n1 None = with_status n2 None ->
  executed n1 = executed n2 /\ node_dependencies n1 = node_dependencies n2.
Proof. intros H. injection H. auto. Qed.

Lemma agree_all_executed ns1 ns2 deps :
  agree_up_to_status ns1 ns2 -> all_executed ns1 deps = all_executed ns2 deps.
Proof.
  intros HA. induction deps as [|d deps IH]; [reflexivity|].
  simpl. unfold dict_item. pose proof (agree_get ns1 ns2 d HA) as Hd.
  destruct (dict_get d ns1) as [n1|], (dict_get d ns2) as [n2|]; try contradiction.
  - cbn [bind]. destruct (agree_node n1 n2 Hd) as [-> _]. now rewrite IH.
  - reflexivity.
Qed.

Lemma agree_is_ready g1 g2 nm :
  agree_up_to_status (nodes g1) (nodes g2) -> is_ready g1 nm = is_ready g2 nm.
Proof.
  intros HA. unfold is_ready. pose proof (agree_get _ _ nm HA) as Hn.
  destruct (dict_get nm (nodes g1)) as [n1|], (dict_get nm (nodes g2)) as [n2|];
    try contradiction; [|reflexivity].
  destruct (agree_node n1 n2 Hn) as [_ ->]. now apply agree_all_executed.
Qed.

Lemma agree_ready_among g1 g2 items1 items2 :
  agree_up_to_status (nodes g1) (nodes g2) ->
  agree_up_to_status items1 items2 ->
  ready_among g1 items1 = ready_among g2 items2.
Proof.
  intros HA. induction 1 as [|[k1 n1] [k2 n2] l1 l2 [Hk Hn] HF IH]; [reflexivity|].
  simpl in Hk, Hn. subst k2. simpl.
  destruct (agree_node n1 n2 Hn) as [-> _].
  now rewrite (agree_is_ready g1 g2 k1 HA), IH.
Qed.

Lemma agree_dict_set ns1 ns2 k n1 n2 :
  agree_up_to_status ns1 ns2 -> with_status n1 None = with_status n2 None ->
  agree_up_to_status (dict_set k n1 ns1) (dict_set k n2 ns2).
Proof.
  intros HA Hn. induction HA as [|[k1 m1] [k2 m2] l1 l2 [Hk Hm] HF IH]; simpl.
  - constructor; [split; [reflexivity | exact Hn] | constructor].
  - simpl in Hk, Hm. subst k2. destruct (String.eqb k k1).
    + constructor; [split; [reflexivity | exact Hn] | exact HF].
    + constructor; [split; [reflexivity | exact Hm] | exact IH].
Qed.

(** Marking the same suite with two different statuses keeps two states in
    agreement up to statuses. *)
Lemma agree_mark_executed g1 g2 nm s1 s2 :
  agree_up_to_status (nodes g1) (nodes g2) ->
  agree_up_to_status (nodes (mark_executed nm s1 g1)) (nodes (mark_executed nm s2 g2)).
Proof.
  intros HA. unfold mark_executed. pose proof (agree_get _ _ nm HA) as Hn.
  destruct (dict_get nm (nodes g1)) as [n1|], (dict_get nm (nodes g2)) as [n2|];
    try contradiction; [|exact HA].
  simpl. apply agree_dict_set; [exact HA|].
  injection Hn as E1 E2 E3 E4. unfold with_status, with_executed. simpl. congruence.
Qed.


(** ** Bounded parallelism *)

Lemma py_slice_nonneg {A : Type} (l : list A) (lo hi : Z) :
  (0 <= lo <= hi)%Z ->
  py_slice l lo hi = skipn (Z.to_nat lo) (firstn (Z.to_nat hi) l).
Proof.
  intros H. unfold py_slice.
  destruct (Z.ltb_spec lo 0) as [|_]; [lia|]. destruct (Z.ltb_spec hi 0) as [|_]; [lia|].
  destruct (Z.le_gt_cases hi (Z.of_nat (List.length l))) as [Hhi|Hhi].
  - rewrite (Z.min_l hi) by lia. rewrite (Z.min_l lo) by lia. reflexivity.
  - rewrite (Z.min_r hi) by lia. rewrite Nat2Z.id.
    rewrite firstn_all, (firstn_all2 (n := Z.to_nat hi)) by lia.
    destruct (Z.le_gt_cases lo (Z.of_nat (List.length l))) as [Hlo|Hlo].
    + rewrite (Z.min_l lo) by lia. reflexivity.
    + rewrite (Z.min_r lo) by lia. rewrite Nat2Z.id.
      rewrite skipn_all, skipn_all2 by lia. reflexivity.
Qed.

Lemma chunk_count_bounds (len mp : Z) :
  (0 <= len)%Z -> (0 < mp)%Z ->
  let q := ((len + mp - 1) / mp)%Z in
  (0 <= q /\ len <= q * mp /\ (0 < q -> (q - 1) * mp < len))%Z.
Proof.
  intros Hl Hm q. pose proof (Z.div_mod (len + mp - 1) mp ltac:(lia)) as Hdm.
  pose proof (Z.mod_pos_bound (len + mp - 1) mp Hm) as Hb. fold q in Hdm.
  assert (0 <= q)%Z by (apply Z.div_pos; lia). nia.
Qed.

Lemma split_group_eq (mp : Z) (g : list string) :
  (0 < mp)%Z ->
  split_group mp g
  = Ok (map (chunk_at (Z.to_nat mp) g)
            (seq 0 (Z.to_nat ((Z.of_nat (List.length g) + mp - 1) / mp)))).
Proof.
  intros Hm. unfold split_group, py_range.
  destruct (Z.eqb_spec mp 0) as [|_]; [lia|]. destruct (Z.ltb_spec 0 mp) as [_|]; [|lia].
  cbn [bind]. rewrite Z.sub_0_r, map_map. f_equal. apply map_ext. intros k.
  rewrite py_slice_nonneg by lia. unfold chunk_at. f_equal.
  - rewrite Z.add_0_l, Z2Nat.inj_mul, Nat2Z.id by lia. reflexivity.
  - f_equal. rewrite Z.add_0_l, Z2Nat.inj_add, Z2Nat.inj_mul, Nat2Z.id by lia. reflexivity.
Qed.

Lemma chunk_at_concat m (g : list string) c :
  List.concat (map (chunk_at m g) (seq 0 c)) = firstn (c * m) g.
Proof.
  induction c as [|c IH]; [reflexivity|].
  rewrite seq_S, map_app, concat_app, IH. cbn [map List.concat Nat.add].
  rewrite app_nil_r. unfold chunk_at.
  replace (S c * m) with (c * m + m) by lia.
  rewrite <- (firstn_skipn (c * m) (firstn (c * m + m) g)) at 2.
  rewrite firstn_firstn. f_equal. f_equal. lia.
Qed.

Lemma chunk_at_length m (g : list string) k :
  List.length (chunk_at m g k) = Nat.min (k * m + m) (List.length g) - k * m.
Proof. unfold chunk_at. now rewrite length_skipn, length_firstn. Qed.

Lemma removelast_map_seq {A : Type} (f : nat -> A) c :
  removelast (map f (seq 0 c)) = map f (seq 0 (Nat.pred c)).
Proof.
  destruct c as [|c]; [reflexivity|].
  rewrite seq_S, map_app. simpl. now rewrite removelast_last.
Qed.

(** The chunks of one group, for a positive ceiling. *)
Lemma split_group_spec (mp : Z) (g : list string) :
  (0 < mp)%Z ->
  exists chunks, split_group mp g = Ok chunks /\ chunks_of_group (Z.to_nat mp) g chunks.
Proof.
  intros Hm. rewrite (split_group_eq mp g Hm). eexists; split; [reflexivity|].
  destruct (chunk_count_bounds (Z.of_nat (List.length g)) mp ltac:(lia) Hm) as (Hq0 & Hq1 & Hq2).
  set (q := ((Z.of_nat (List.length g) + mp - 1) / mp)%Z) in *.
  set (m := Z.to_nat mp). set (c := Z.to_nat q).
  assert (List.length g <= c * m) as Hc1 by (unfold c, m; nia).
  assert (0 < c -> (c - 1) * m < List.length g) as Hc2.
  { intros Hc. unfold c, m in *. assert (0 < q)%Z as Hq by lia. specialize (Hq2 Hq). nia. }
  assert (0 < m) as Hmpos by (unfold m; lia).
  split; [|split].
  - rewrite chunk_at_concat. now apply firstn_all2.
  - apply Forall_forall. intros x Hx. apply in_map_iff in Hx as (k & <- & Hk).
    apply in_seq in Hk. specialize (Hc2 ltac:(lia)).
    assert (k * m < List.length g) as Hkm by nia.
    pose proof (chunk_at_length m g k) as Hlen. split.
    + intros E. rewrite E in Hlen. simpl in Hlen. lia.
    + lia.
  - intros x Hx. rewrite removelast_map_seq in Hx.
    apply in_map_iff in Hx as (k & <- & Hk). apply in_seq in Hk.
    specialize (Hc2 ltac:(lia)). rewrite chunk_at_length.
    assert (k * m + m <= List.length g) by nia. lia.
Qed.

Lemma split_groups_spec (mp : Z) (groups : list (list string)) :
  (0 < mp)%Z ->
  exists chunked : list (list (list string)),
    split_groups mp groups = Ok (List.concat chunked) /\
    Forall2 (chunks_of_group (Z.to_nat mp)) groups chunked.
Proof.
  intros Hm. induction groups as [|g groups IH].
  - exists []. split; [reflexivity | constructor].
  - destruct (split_group_spec mp g Hm) as (chunks & Hc & Hs).
    destruct IH as (chunked & Hr & HF).
    exists (chunks :: chunked). split; [|now constructor].
    simpl. rewrite Hc, Hr. reflexivity.
Qed.

Lemma chunked_flatten m groups chunked :
  Forall2 (chunks_of_group m) groups chunked ->
  List.concat (List.concat chunked) = List.concat groups.
Proof.
  induction 1 as [|g chunks groups chunked [Hc _] HF IH]; [reflexivity|].
  simpl. now rewrite concat_app, Hc, IH.
Qed.


(** ** Duplicate names *)

(** [last_named] returns the descriptor of that name with the greatest index. *)
Lemma last_named_is_last nm ss s :
  last_named nm ss = Some s ->
  exists k, nth_error ss k = Some s /\ name s = nm /\
            forall k' s', k < k' -> nth_error ss k' = Some s' -> name s' <> nm.
Proof.
  revert s. induction ss as [|s0 ss IH]; intros s; simpl; [discriminate|].
  destruct (last_named nm ss) as [s1|] eqn:E.
  - intros [= <-]. destruct (IH s1 eq_refl) as (k & Hk & Hn & Hlast).
    exists (S k). split; [exact Hk|]. split; [exact Hn|].
    intros [|k'] s' Hlt Hs'; [lia|]. apply (Hlast k' s'); [lia | exact Hs'].
  - destruct (String.eqb_spec (name s0) nm) as [Hn|]; [|discriminate].
    intros [= <-]. exists 0. split; [reflexivity|]. split; [exact Hn|].
    intros [|k'] s' Hlt Hs'; [lia|]. simpl in Hs'. intros Hn'.
    assert (last_named nm ss <> None) as Hsome.
    { apply last_named_some. rewrite <- Hn'. apply in_map. eapply nth_error_In; eauto. }
    congruence.
Qed.

(** ** Non-positive ceilings *)

Lemma split_groups_negative (mp : Z) (groups : list (list string)) :
  (mp < 0)%Z -> split_groups mp groups = Ok [].
Proof.
  intros Hm. induction groups as [|g groups IH]; [reflexivity|].
  simpl. unfold split_group, py_range.
  destruct (Z.eqb_spec mp 0) as [|_]; [lia|]. destruct (Z.ltb_spec 0 mp) as [|_]; [lia|].
  assert ((0 - Z.of_nat (List.length g) - mp - 1) / - mp < 1)%Z as Hq
    by (apply Z.div_lt_upper_bound; lia).
  replace (Z.to_nat ((0 - Z.of_nat (List.length g) - mp - 1) / - mp)) with 0 by lia.
  cbn [seq map bind]. rewrite IH. reflexivity.
Qed.

Lemma split_groups_zero (g : list string) (groups : list (list string)) :
  split_groups 0 (g :: groups) = Raise (ValueError "range() arg 3 must not be zero").
Proof. reflexivity. Qed.

(** For a negative ceiling the result holds no group at all. *)
Lemma negative_ceiling_returns_no_groups (g : DAGBuilder) (mp : Z) groups g' :
  (mp < 0)%Z -> get_execution_order g = Ok (groups, g') ->
  get_parallel_groups g mp = Ok ([], g').
Proof.
  intros Hm Ho. unfold get_parallel_groups. rewrite Ho. cbn [bind fst snd].
  now rewrite split_groups_negative.
Qed.

(** ** The flags written by the scheduler *)

(** In every runtime state, a call of [get_execution_order] leaves the
    statuses as they were and sets the execution flag of every node. *)
Lemma get_execution_order_marks_every_node p g0 g groups g' :
  __init__ p = Ok g0 -> runtime g0 g -> get_execution_order g = Ok (groups, g') ->
  (forall k, In k (dict_keys (nodes g)) -> flag_of (nodes g') k = true) /\
  (forall k, status_of (nodes g') k = status_of (nodes g) k).
Proof.
  intros Hinit Hrt Hord.
  destruct (runtime_graph p g0 g Hinit Hrt) as (_ & G & _ & Hrank).
  pose proof (get_execution_order_spec p g G Hrank) as Ho. rewrite Hord in Ho.
  destruct Ho as (_ & _ & Hf & Hs & _). auto.
Qed.

End Properties.

(** * Main results *)

(** ** Sample plans *)

(** The samples are run with [insertion_order] and [default_stack]. *)

Lemma built_ok p g : __init__ p = Ok g -> built p = g.
Proof. unfold built. now intros ->. Qed.

Lemma valid_references_by_names p :
  forallb (fun s => forallb (fun d => set_mem d (suite_names p)) (dependencies s)) (suites p)
  = true ->
  valid_references p.
Proof.
  intros H s d Hs Hd. rewrite forallb_forall in H. specialize (H s Hs).
  rewrite forallb_forall in H. apply set_mem_true. now apply H.
Qed.

Lemma diamond_valid : valid_references diamond.
Proof. apply valid_references_by_names. reflexivity. Qed.

Lemma diamond_acyclic : acyclic diamond.
Proof. apply (init_ok_valid diamond (built diamond)). reflexivity. Qed.

Lemma duplicated_valid : valid_references duplicated.
Proof. apply valid_references_by_names. reflexivity. Qed.

Lemma duplicated_acyclic : acyclic duplicated.
Proof. apply (init_ok_valid duplicated (built duplicated)). reflexivity. Qed.

Lemma two_cycle_valid : valid_references two_cycle_plan.
Proof. apply valid_references_by_names. reflexivity. Qed.

Lemma two_cycle_has_cycle : has_cycle two_cycle_plan.
Proof.
  exists ["A"; "B"; "A"]%string. split.
  - exists "A"%string, ["B"%string]. reflexivity.
  - split; [|split; [|exact I]].
    + exists (mk_suite "A" ["B"%string]). simpl. auto.
    + exists (mk_suite "B" ["A"%string]). simpl. auto.
Qed.

Example diamond_order :
  groups_of (self <- __init__ diamond ;; get_execution_order self)
  = Ok [["A"]; ["B"; "C"]; ["D"]]%string.
Proof. vm_compute. reflexivity. Qed.

Example diamond_ceiling_1 :
  groups_of (self <- __init__ diamond ;; get_parallel_groups self 1)
  = Ok [["A"]; ["B"]; ["C"]; ["D"]]%string.
Proof. vm_compute. reflexivity. Qed.

Example two_cycle :
  __init__ (mk_plan [mk_suite "A" ["B"]; mk_suite "B" ["A"]]%string)
  = Raise (ValueError "Circular dependency detected: A -> B -> A").
Proof. vm_compute. reflexivity. Qed.

Example unknown_reference :
  __init__ (mk_plan [mk_suite "X" ["Y"]]%string)
  = Raise (ValueError "Suite 'X' depends on unknown suite 'Y'").
Proof. vm_compute. reflexivity. Qed.

(** ** What the scheduler writes *)

(** C1 (the code departs from it): [get_execution_order] does not leave
    the execution flags as they were. On the plan [A], [B -> A], freshly
    built, no flag is set and [A] is ready. [get_execution_order] returns
    the plan [[A], [B]] and leaves both flags set, with no status recorded,
    so that no suite is ready any more; [get_stats], which calls it,
    reports 0 executed suites and leaves both flags set, and reports 2
    executed suites when called again. No [mark_executed] took place. (The
    sets of this plan have at most one element: the run is the same for
    every iteration order.) *)
Theorem get_execution_order_sets_execution_flags :
  __init__ chain = Ok (built chain) /\
  flag_of (nodes (built chain)) "A" = false /\
  flag_of (nodes (built chain)) "B" = false /\
  get_ready_suites (built chain) = Ok ["A"%string] /\
  (exists g',
     get_execution_order (built chain) = Ok ([["A"]; ["B"]]%string, g') /\
     flag_of (nodes g') "A" = true /\ flag_of (nodes g') "B" = true /\
     status_of (nodes g') "A" = None /\ status_of (nodes g') "B" = None /\
     get_ready_suites g' = Ok []) /\
  (exists stats g' stats' g'',
     get_stats (built chain) = Ok (stats, g') /\
     dict_get "executed" stats = Some 0%Z /\ dict_get "pending" stats = Some 2%Z /\
     flag_of (nodes g') "A" = true /\ flag_of (nodes g') "B" = true /\
     get_stats g' = Ok (stats', g'') /\
     dict_get "executed" stats' = Some 2%Z /\ dict_get "pending" stats' = Some 0%Z).
Proof.
  repeat split.
  - eexists. vm_compute. repeat split.
  - do 4 eexists. vm_compute. repeat split.
Qed.

(** ** Readiness *)

(** C2 (as the code has it): for a name in the graph, [is_ready] returns,
    and returns true exactly when every declared dependency has its flag
    set; the flag of the suite itself is not consulted. While exactly one
    dependency is still unexecuted the answer is false, and marking that
    last dependency executed, with any status, makes it true. *)
Theorem is_ready_iff_dependencies_executed {SO : SetOrder} {CS : CallStack}
  (p : TestPlan) (g0 g : DAGBuilder) (nm : string) :
  __init__ p = Ok g0 -> runtime g0 g -> In nm (dict_keys (nodes g)) ->
  exists b,
    is_ready g nm = Ok b /\
    (b = true <->
     forall d, In d (get_dependencies g nm) -> flag_of (nodes g) d = true) /\
    (forall d st,
       In d (get_dependencies g nm) -> flag_of (nodes g) d = false ->
       (forall d', In d' (get_dependencies g nm) -> d' <> d ->
                   flag_of (nodes g) d' = true) ->
       b = false /\ is_ready (mark_executed d st g) nm = Ok true).
Proof.
  intros Hinit Hrt Hnm.
  destruct (runtime_graph p g0 g Hinit Hrt) as (_ & G & _ & _).
  destruct (is_ready_spec p g nm G Hnm) as (b & Hb & Hiff).
  exists b. split; [exact Hb|]. split; [exact Hiff|].
  intros d st Hd Hflag Hothers. split.
  - destruct b; [|reflexivity]. rewrite (proj1 Hiff eq_refl d Hd) in Hflag. discriminate.
  - assert (In d (dict_keys (nodes g))) as Hdk
      by (apply (graph_edge_closed p (nodes g) G nm d); now apply get_dependencies_in).
    pose proof (mark_executed_same_graph d st g) as S.
    destruct (is_ready_spec p (mark_executed d st g) nm) as (b' & Hb' & Hiff').
    + eapply graph_of_same; eauto.
    + now rewrite (proj1 S).
    + rewrite Hb'. f_equal. apply Hiff'. intros x Hx.
      apply get_dependencies_in in Hx. rewrite (proj1 (proj2 S nm)) in Hx.
      rewrite mark_executed_flag by exact Hdk.
      destruct (String.eqb_spec x d) as [->|Hne]; [reflexivity|].
      apply Hothers; [now apply get_dependencies_in | exact Hne].
Qed.

Lemma is_ready_iff_dependencies_executed_witness :
  exists b,
    is_ready (built chain) "B" = Ok b /\
    (b = true <->
     forall d, In d (get_dependencies (built chain) "B") ->
               flag_of (nodes (built chain)) d = true) /\
    (forall d st,
       In d (get_dependencies (built chain) "B") ->
       flag_of (nodes (built chain)) d = false ->
       (forall d', In d' (get_dependencies (built chain) "B") -> d' <> d ->
                   flag_of (nodes (built chain)) d' = true) ->
       b = false /\ is_ready (mark_executed d st (built chain)) "B" = Ok true).
Proof.
  apply (is_ready_iff_dependencies_executed chain (built chain) (built chain) "B").
  - reflexivity.
  - apply rt_built.
  - vm_compute. right. now left.
Defined.

(** C2 as stated fails: an executed suite without dependencies is still
    reported ready by [is_ready], although its own flag is set. *)
Lemma is_ready_true_for_executed_suite :
  __init__ single = Ok (built single) /\
  flag_of (nodes (mark_executed "A" "passed" (built single))) "A" = true /\
  ~ (is_ready (mark_executed "A" "passed" (built single)) "A" = Ok true <->
     flag_of (nodes (mark_executed "A" "passed" (built single))) "A" = false /\
     forall d, In d (get_dependencies (mark_executed "A" "passed" (built single)) "A") ->
               flag_of (nodes (mark_executed "A" "passed" (built single))) d = true).
Proof.
  split; [reflexivity|]. split; [reflexivity|].
  intros [H _]. specialize (H eq_refl). destruct H as [H _]. vm_compute in H. discriminate.
Qed.

(** ** The execution order *)

(** C3: for an acyclic plan with valid references, and whatever the
    iteration order of sets, construction succeeds when the stack has room
    for one frame of [dfs] per suite, and, from every builder that
    construction returns, in every runtime state, [get_execution_order]
    returns groups in whose concatenation every suite name occurs exactly
    once (and nothing else occurs), and in which every dependency of a
    member of group [i] is a member of a group of index [j < i]. *)
Theorem execution_order_respects_dependencies {SO : SetOrder} {CS : CallStack}
  (p : TestPlan) :
  valid_references p -> acyclic p ->
  (List.length (suites p) <= dfs_frames -> exists g0, __init__ p = Ok g0) /\
  forall g0 g, __init__ p = Ok g0 -> runtime g0 g ->
    exists groups g',
      get_execution_order g = Ok (groups, g') /\
      (forall s, In s (suites p) ->
                 count_occ string_dec (List.concat groups) (name s) = 1) /\
      (forall x, In x (List.concat groups) -> In x (suite_names p)) /\
      (forall i gi v d,
         nth_error groups i = Some gi -> In v gi -> plan_edge p v d ->
         exists j gj, j < i /\ nth_error groups j = Some gj /\ In d gj).
Proof.
  intros Hv Ha. split.
  { intros Hroom. now apply (init_ok_iff p Hroom). }
  intros g0 g Hinit Hrt.
  destruct (runtime_graph p g0 g Hinit Hrt) as (_ & G & _ & Hrank).
  pose proof (get_execution_order_spec p g G Hrank) as Ho.
  destruct (get_execution_order g) as [[groups g']|e|]; try contradiction.
  destruct Ho as (_ & _ & _ & _ & Hperm & Hlev & _).
  exists groups, g'. split; [reflexivity|]. split; [|split].
  - intros s Hs. apply NoDup_count_occ'.
    + eapply Permutation_NoDup; [apply Permutation_sym; exact Hperm | apply (g_nodup _ _ G)].
    + eapply Permutation_in; [apply Permutation_sym; exact Hperm|].
      apply (g_keys _ _ G). unfold suite_names. now apply in_map.
  - intros x Hx. apply (g_keys _ _ G). eapply Permutation_in; eauto.
  - intros i gi v d Hi Hvin He. apply (Hlev i gi v d Hi Hvin). now apply (g_deps _ _ G).
Qed.

Lemma execution_order_respects_dependencies_witness :
  (exists g0, __init__ diamond = Ok g0) /\
  exists groups g',
    get_execution_order (mark_executed "B" "failed" (built diamond)) = Ok (groups, g') /\
    (forall s, In s (suites diamond) ->
               count_occ string_dec (List.concat groups) (name s) = 1) /\
    (forall x, In x (List.concat groups) -> In x (suite_names diamond)) /\
    (forall i gi v d,
       nth_error groups i = Some gi -> In v gi -> plan_edge diamond v d ->
       exists j gj, j < i /\ nth_error groups j = Some gj /\ In d gj).
Proof.
  destruct (execution_order_respects_dependencies diamond diamond_valid diamond_acyclic)
    as [Hbuilt Horder].
  split.
  - apply Hbuilt. simpl. lia.
  - apply (Horder (built diamond)).
    + reflexivity.
    + apply rt_mark, rt_built.
Defined.

(** ** Cycles *)

(** C4 (as the code has it): for a plan whose references are all valid and
    whose dependency relation has a cycle (a self-dependency included),
    construction never succeeds. It raises the circular-dependency
    [ValueError], whose path starts and ends at the same name and has a
    declared dependency in each of its consecutive pairs, unless the
    traversal exhausts the stack before it meets the closing edge, when it
    raises [RecursionError]; that cannot happen when the stack has room
    for one frame of [dfs] per suite. *)
Theorem cycle_is_reported_as_closed_loop {SO : SetOrder} {CS : CallStack}
  (p : TestPlan) :
  valid_references p -> has_cycle p ->
  (__init__ p = Raise RecursionError \/
   exists cycle x mid,
     __init__ p = Raise (ValueError (cycle_msg cycle)) /\
     cycle = x :: mid ++ [x] /\
     consecutive (plan_edge p) cycle) /\
  (List.length (suites p) <= dfs_frames -> __init__ p <> Raise RecursionError).
Proof.
  intros Hv Hc. pose proof (init_spec p) as H.
  destruct (__init__ p) as [g|e|]; simpl in H.
  - destruct H as (_ & _ & _ & rank & Hr). exfalso.
    now apply (ranked_acyclic p rank Hr).
  - destruct H as [[Hn _]|[[_ (cycle & -> & (x & mid & Hs) & Hcons)]|(_ & -> & Hlt)]];
      [tauto| |].
    + split; [|discriminate]. right. exists cycle, x, mid. auto.
    + split; [now left|]. intros Hle _. lia.
  - destruct H.
Qed.

Lemma cycle_is_reported_as_closed_loop_witness :
  exists cycle x mid,
    __init__ two_cycle_plan = Raise (ValueError (cycle_msg cycle)) /\
    cycle = x :: mid ++ [x] /\
    consecutive (plan_edge two_cycle_plan) cycle.
Proof.
  destruct (cycle_is_reported_as_closed_loop two_cycle_plan
              two_cycle_valid two_cycle_has_cycle) as [[E|H] Hroom].
  - exfalso. apply Hroom; [simpl; lia | exact E].
  - exact H.
Defined.

(** On a stack with room for two frames of [dfs], the three-suite loop is
    not reported: the traversal is stopped before it closes. *)
Example deep_cycle_exhausts_stack :
  has_cycle three_cycle_plan /\
  @__init__ insertion_order shallow_stack three_cycle_plan = Raise RecursionError.
Proof.
  split; [|reflexivity].
  exists ["A"; "B"; "C"; "A"]%string. split.
  - exists "A"%string, ["B"; "C"]%string. reflexivity.
  - split; [|split; [|split; [|exact I]]].
    + exists (mk_suite "A" ["B"%string]). simpl. auto.
    + exists (mk_suite "B" ["C"%string]). simpl. auto 6.
    + exists (mk_suite "C" ["A"%string]). simpl. auto 6.
Qed.

(** C4 as stated fails: the plan with the single suite [A], which depends
    on itself and on the undeclared [Z], has a cycle, and its construction
    raises the unknown-dependency error, not the circular-dependency one. *)
Lemma unknown_reference_reported_before_cycle :
  has_cycle cycle_with_unknown /\
  __init__ cycle_with_unknown
  = Raise (ValueError "Suite 'A' depends on unknown suite 'Z'") /\
  forall cycle, __init__ cycle_with_unknown <> Raise (ValueError (cycle_msg cycle)).
Proof.
  split; [|split].
  - exists ["A"; "A"]%string. split.
    + exists "A"%string, []. reflexivity.
    + split; [|exact I]. exists (mk_suite "A" ["A"; "Z"]%string). simpl. auto.
  - vm_compute. reflexivity.
  - intros cycle H. vm_compute in H. discriminate.
Qed.

(** ** Duplicate names *)

(** C5 (as the code has it): two descriptors of the same name do not make
    construction fail. For a plan with valid references and no cycle in
    which the descriptors at positions [i < j] share a name, construction
    can only fail by exhausting the stack, which it does not when there is
    room for one frame of [dfs] per suite; and every graph it returns has
    exactly one node of that name, whose suite is the descriptor of that
    name at the greatest position (at [j] or later): a later descriptor
    overwrites an earlier one. *)
Theorem duplicate_names_overwrite {SO : SetOrder} {CS : CallStack}
  (p : TestPlan) (i j : nat) (s1 s2 : TestSuite) :
  i < j ->
  nth_error (suites p) i = Some s1 -> nth_error (suites p) j = Some s2 ->
  name s1 = name s2 ->
  valid_references p -> acyclic p ->
  (forall e, __init__ p = Raise e -> e = RecursionError) /\
  (List.length (suites p) <= dfs_frames -> exists g, __init__ p = Ok g) /\
  forall g, __init__ p = Ok g ->
    exists n k,
      count_occ string_dec (dict_keys (nodes g)) (name s1) = 1 /\
      dict_get (name s1) (nodes g) = Some n /\
      j <= k /\ nth_error (suites p) k = Some (suite n) /\
      name (suite n) = name s1 /\
      forall k' s', k < k' -> nth_error (suites p) k' = Some s' -> name s' <> name s1.
Proof.
  intros Hij Hi Hj Hname Hv Ha. split; [|split].
  { intros e He. pose proof (init_spec p) as H. rewrite He in H. simpl in H.
    destruct H as [[Hn _]|[[_ (cycle & _ & Hc)]|(_ & -> & _)]]; [tauto| |reflexivity].
    exfalso. apply Ha. now exists cycle. }
  { intros Hroom. now apply (init_ok_iff p Hroom). }
  intros g Hinit.
  pose proof (init_spec p) as H. rewrite Hinit in H. destruct H as (_ & G & _ & _).
  assert (In (name s1) (dict_keys (nodes g))) as Hk.
  { apply (g_keys _ _ G). unfold suite_names. apply in_map. eapply nth_error_In; eauto. }
  destruct (in_keys_get _ _ Hk) as [n Hn].
  destruct (last_named_is_last _ _ _ (g_suite _ _ G _ _ Hn)) as (k & Hkth & Hnm & Hlast).
  exists n, k. split; [|split; [exact Hn|split; [|split; [exact Hkth|split; [exact Hnm|auto]]]]].
  - apply NoDup_count_occ'; [apply (g_nodup _ _ G) | exact Hk].
  - destruct (Nat.le_gt_cases j k) as [Hle|Hgt]; [exact Hle|].
    exfalso. apply (Hlast j s2 Hgt Hj). now symmetry.
Qed.

Lemma duplicate_names_overwrite_witness :
  (exists g, __init__ duplicated = Ok g) /\
  exists n k,
    count_occ string_dec (dict_keys (nodes (built duplicated))) (name first_A) = 1 /\
    dict_get (name first_A) (nodes (built duplicated)) = Some n /\
    3 <= k /\ nth_error (suites duplicated) k = Some (suite n) /\
    name (suite n) = name first_A /\
    forall k' s', k < k' -> nth_error (suites duplicated) k' = Some s' ->
                  name s' <> name first_A.
Proof.
  destruct (duplicate_names_overwrite duplicated 2 3 first_A second_A)
    as (_ & Hbuilt & Hnode).
  - lia.
  - reflexivity.
  - reflexivity.
  - reflexivity.
  - exact duplicated_valid.
  - exact duplicated_acyclic.
  - split.
    + apply Hbuilt. simpl. lia.
    + apply (Hnode (built duplicated)). reflexivity.
Defined.

(** C5 as stated fails: the plan [duplicated] holds two descriptors named
    [A], and its construction succeeds; the node [A] holds the second one. *)
Lemma duplicate_names_are_accepted :
  ~ NoDup (suite_names duplicated) /\
  __init__ duplicated = Ok (built duplicated) /\
  get_suite (built duplicated) "A" = Some second_A.
Proof.
  split; [|split; reflexivity].
  intros H. vm_compute in H.
  inversion H as [|? ? _ H1]; subst. inversion H1 as [|? ? _ H2]; subst.
  inversion H2 as [|? ? H3 _]; subst. apply H3. now left.
Qed.

Example duplicate_dependencies_are_merged :
  get_dependencies (built duplicated) "A" = ["B"; "C"]%string.
Proof. reflexivity. Qed.

(** ** Non-positive ceilings *)

(** C6 (as the code has it): a non-positive ceiling is not rejected by a
    check of its own. In every runtime state of a constructed builder,
    [get_execution_order] succeeds; with ceiling 0, [get_parallel_groups]
    fails with the [ValueError] of [range] when the plan has a suite and
    returns the empty list when it has none; with a negative ceiling it
    raises nothing and returns a result. *)
Theorem nonpositive_ceiling_is_not_checked {SO : SetOrder} {CS : CallStack}
  (p : TestPlan) (g0 g : DAGBuilder) (max_parallel : Z) :
  __init__ p = Ok g0 -> runtime g0 g -> (max_parallel <= 0)%Z ->
  exists groups g',
    get_execution_order g = Ok (groups, g') /\
    (max_parallel = 0%Z -> suites p <> [] ->
     get_parallel_groups g max_parallel
     = Raise (ValueError "range() arg 3 must not be zero")) /\
    (max_parallel = 0%Z -> suites p = [] ->
     get_parallel_groups g max_parallel = Ok ([], g')) /\
    ((max_parallel < 0)%Z ->
     exists result, get_parallel_groups g max_parallel = Ok (result, g')).
Proof.
  intros Hinit Hrt Hle.
  destruct (runtime_graph p g0 g Hinit Hrt) as (_ & G & _ & Hrank).
  pose proof (get_execution_order_spec p g G Hrank) as Ho.
  destruct (get_execution_order g) as [[groups g']|e|] eqn:Hord; try contradiction.
  destruct Ho as (_ & _ & _ & _ & Hperm & _ & Hne).
  exists groups, g'. split; [reflexivity|]. split; [|split].
  - intros -> Hs. unfold get_parallel_groups. rewrite Hord. cbn [bind fst snd].
    destruct groups as [|grp groups]; [|reflexivity].
    exfalso. simpl in Hperm. apply Permutation_nil in Hperm.
    destruct (suites p) as [|s ss] eqn:E; [congruence|].
    assert (In (name s) (dict_keys (nodes g))) as Hin
      by (apply (g_keys _ _ G); unfold suite_names; rewrite E; now left).
    rewrite Hperm in Hin. destruct Hin.
  - intros -> Hs. unfold get_parallel_groups. rewrite Hord. cbn [bind fst snd].
    destruct groups as [|grp groups]; [reflexivity|].
    exfalso. inversion Hne as [|? ? Hgrp _]; subst. destruct grp as [|x grp]; [congruence|].
    assert (In x (suite_names p)) as Hin.
    { apply (g_keys _ _ G). eapply Permutation_in; [exact Hperm|]. simpl. now left. }
    unfold suite_names in Hin. rewrite Hs in Hin. destruct Hin.
  - intros Hneg. exists [].
    exact (negative_ceiling_returns_no_groups g max_parallel groups g' Hneg Hord).
Qed.

Lemma nonpositive_ceiling_is_not_checked_witness :
  exists groups g',
    get_execution_order (built chain) = Ok (groups, g') /\
    (0%Z = 0%Z -> suites chain <> [] ->
     get_parallel_groups (built chain) 0
     = Raise (ValueError "range() arg 3 must not be zero")) /\
    (0%Z = 0%Z -> suites chain = [] ->
     get_parallel_groups (built chain) 0 = Ok ([], g')) /\
    ((0 < 0)%Z ->
     exists result, get_parallel_groups (built chain) 0 = Ok (result, g')).
Proof.
  apply (nonpositive_ceiling_is_not_checked chain (built chain) (built chain) 0).
  - reflexivity.
  - apply rt_built.
  - lia.
Defined.

(** C6 as stated fails: with ceiling [-1] no error is raised, and the
    result holds none of the suites that [get_execution_order] schedules. *)
Lemma negative_ceiling_drops_suites :
  __init__ single = Ok (built single) /\
  groups_of (get_execution_order (built single)) = Ok [["A"%string]] /\
  groups_of (get_parallel_groups (built single) (-1)) = Ok [].
Proof. vm_compute. auto. Qed.

(** ** Marking twice *)

(** C7 (as the code has it): a second [mark_executed] for the same suite is
    accepted. The function has no failing outcome; the flag stays set and the
    status recorded first is overwritten by the new one, so that the state
    is the one the second call alone would have produced. *)
Theorem mark_executed_twice_overwrites (self : DAGBuilder) (nm s1 s2 : string) :
  In nm (dict_keys (nodes self)) ->
  mark_executed nm s2 (mark_executed nm s1 self) = mark_executed nm s2 self /\
  flag_of (nodes (mark_executed nm s2 (mark_executed nm s1 self))) nm = true /\
  status_of (nodes (mark_executed nm s2 (mark_executed nm s1 self))) nm = Some s2.
Proof.
  intros H.
  assert (In nm (dict_keys (nodes (mark_executed nm s1 self)))) as H1
    by (rewrite (proj1 (mark_executed_same_graph nm s1 self)); exact H).
  split; [|split].
  - apply in_keys_get in H as [n Hn]. unfold mark_executed at 2 3. rewrite Hn.
    unfold mark_executed. cbn [nodes with_nodes plan]. rewrite dict_get_set_same.
    unfold with_nodes. cbn [nodes plan]. now rewrite dict_set_set.
  - rewrite mark_executed_flag by exact H1. now rewrite String.eqb_refl.
  - rewrite mark_executed_status by exact H1. now rewrite String.eqb_refl.
Qed.

Lemma mark_executed_twice_overwrites_witness :
  mark_executed "A" "failed" (mark_executed "A" "passed" (built single))
  = mark_executed "A" "failed" (built single) /\
  flag_of (nodes (mark_executed "A" "failed" (mark_executed "A" "passed" (built single))))
    "A" = true /\
  status_of (nodes (mark_executed "A" "failed" (mark_executed "A" "passed" (built single))))
    "A" = Some "failed"%string.
Proof.
  apply (mark_executed_twice_overwrites (built single) "A" "passed" "failed").
  vm_compute. now left.
Defined.

(** C7 as stated fails: after [mark_executed("A", "passed")], the call
    [mark_executed("A", "failed")] goes through and the recorded status is
    no longer the first one. *)
Lemma second_mark_changes_status :
  __init__ single = Ok (built single) /\
  status_of (nodes (mark_executed "A" "passed" (built single))) "A"
  = Some "passed"%string /\
  status_of (nodes (mark_executed "A" "failed"
                      (mark_executed "A" "passed" (built single)))) "A"
  <> status_of (nodes (mark_executed "A" "passed" (built single))) "A".
Proof. vm_compute. repeat split; discriminate. Qed.

(** ** Chunks *)

(** C8: for a positive ceiling, the loop of [get_parallel_groups] replaces
    every group by its consecutive chunks. The chunks of a group,
    concatenated in order, are the group itself (so each chunk is a
    contiguous run of one group, in the group's order, and no chunk spans
    two groups); every chunk is non-empty and no longer than the ceiling,
    and all but the last chunk of a group have exactly the ceiling's length;
    the flattened result has as many elements as the flattened input. When
    [get_execution_order] returns [groups], [get_parallel_groups] returns
    these chunks. A group of 10 with ceiling 4 gives chunks of 4, 4 and 2. *)
Theorem get_parallel_groups_chunks {SO : SetOrder}
  (max_parallel : Z) (groups : list (list string)) :
  (0 < max_parallel)%Z ->
  (exists chunked : list (list (list string)),
     split_groups max_parallel groups = Ok (List.concat chunked) /\
     Forall2
       (fun group chunks =>
          List.concat chunks = group /\
          Forall (fun c => c <> [] /\ (Z.of_nat (List.length c) <= max_parallel)%Z) chunks /\
          (forall c, In c (removelast chunks) ->
                     Z.of_nat (List.length c) = max_parallel))
       groups chunked /\
     List.length (List.concat (List.concat chunked)) = List.length (List.concat groups) /\
     (forall self self',
        get_execution_order self = Ok (groups, self') ->
        get_parallel_groups self max_parallel = Ok (List.concat chunked, self'))) /\
  (forall g : list string,
     List.length g = 10 ->
     exists c1 c2 c3,
       split_groups 4 [g] = Ok [c1; c2; c3] /\ g = c1 ++ c2 ++ c3 /\
       List.length c1 = 4 /\ List.length c2 = 4 /\ List.length c3 = 2).
Proof.
  intros Hm. split.
  - destruct (split_groups_spec max_parallel groups Hm) as (chunked & Hrun & HF).
    exists chunked. split; [exact Hrun|]. split; [|split].
    + eapply Forall2_impl; [|exact HF]. intros g chunks (Hc & Hall & Hfull).
      split; [exact Hc|]. split.
      * eapply Forall_impl; [|exact Hall]. intros c [Hne Hle]. split; [exact Hne | lia].
      * intros c Hin. specialize (Hfull c Hin). lia.
    + now rewrite (chunked_flatten _ _ _ HF).
    + intros self self' Hord. unfold get_parallel_groups.
      rewrite Hord. cbn [bind fst snd]. now rewrite Hrun.
  - intros g Hg.
    do 11 (destruct g as [|? g]; try discriminate).
    eexists _, _, _. split; [vm_compute; reflexivity|]. repeat split.
Qed.

Lemma get_parallel_groups_chunks_witness :
  (exists chunked : list (list (list string)),
     split_groups 1 [["A"]; ["B"; "C"]; ["D"]]%string = Ok (List.concat chunked) /\
     Forall2
       (fun group chunks =>
          List.concat chunks = group /\
          Forall (fun c => c <> [] /\ (Z.of_nat (List.length c) <= 1)%Z) chunks /\
          (forall c, In c (removelast chunks) -> Z.of_nat (List.length c) = 1%Z))
       [["A"]; ["B"; "C"]; ["D"]]%string chunked /\
     List.length (List.concat (List.concat chunked))
     = List.length (List.concat [["A"]; ["B"; "C"]; ["D"]]%string) /\
     (forall self self',
        get_execution_order self = Ok ([["A"]; ["B"; "C"]; ["D"]]%string, self') ->
        get_parallel_groups self 1 = Ok (List.concat chunked, self'))) /\
  (forall g : list string,
     List.length g = 10 ->
     exists c1 c2 c3,
       split_groups 4 [g] = Ok [c1; c2; c3] /\ g = c1 ++ c2 ++ c3 /\
       List.length c1 = 4 /\ List.length c2 = 4 /\ List.length c3 = 2).
Proof.
  apply (get_parallel_groups_chunks 1 [["A"]; ["B"; "C"]; ["D"]]%string). lia.
Defined.

Example ten_by_four :
  split_groups 4 [["s0"; "s1"; "s2"; "s3"; "s4"; "s5"; "s6"; "s7"; "s8"; "s9"]]%string
  = Ok [["s0"; "s1"; "s2"; "s3"]; ["s4"; "s5"; "s6"; "s7"]; ["s8"; "s9"]]%string.
Proof. vm_compute. reflexivity. Qed.

(** ** Statuses *)

(** C9: readiness does not depend on the recorded statuses. Two states of
    a graph whose nodes are equal except for their statuses give the same
    answer to [is_ready] for every name and the same [get_ready_suites]. *)
Theorem readiness_independent_of_status {SO : SetOrder} (g1 g2 : DAGBuilder) :
  agree_up_to_status (nodes g1) (nodes g2) ->
  (forall nm, is_ready g1 nm = is_ready g2 nm) /\
  get_ready_suites g1 = get_ready_suites g2.
Proof.
  intros HA. split.
  - intros nm. now apply agree_is_ready.
  - unfold get_ready_suites. now apply agree_ready_among.
Qed.

Lemma readiness_independent_of_status_witness :
  (forall nm, is_ready (mark_executed "A" "passed" (built chain)) nm
              = is_ready (mark_executed "A" "failed" (built chain)) nm) /\
  get_ready_suites (mark_executed "A" "passed" (built chain))
  = get_ready_suites (mark_executed "A" "failed" (built chain)).
Proof.
  apply (readiness_independent_of_status (mark_executed "A" "passed" (built chain))
           (mark_executed "A" "failed" (built chain))).
  vm_compute. repeat constructor.
Defined.

Example failed_dependency_does_not_block :
  is_ready (mark_executed "A" "failed" (built chain)) "B" = Ok true /\
  get_ready_suites (mark_executed "A" "failed" (built chain)) = Ok ["B"%string].
Proof. vm_compute. auto. Qed.

(** ** Unknown names *)

(** C10: [mark_executed] with a name that is not a node of the graph is a
    silent no-op: the function has no failing outcome, the builder it
    returns is the one it was given, and so the flag and the status of
    every node are unchanged. *)
Theorem mark_executed_unknown_is_noop (self : DAGBuilder) (nm st : string) :
  ~ In nm (dict_keys (nodes self)) ->
  mark_executed nm st self = self /\
  forall k, flag_of (nodes (mark_executed nm st self)) k = flag_of (nodes self) k /\
            status_of (nodes (mark_executed nm st self)) k = status_of (nodes self) k.
Proof.
  intros H. rewrite (mark_executed_absent nm st self H). auto.
Qed.

Lemma mark_executed_unknown_is_noop_witness :
  mark_executed "Z" "passed" (built chain) = built chain /\
  forall k, flag_of (nodes (mark_executed "Z" "passed" (built chain))) k
            = flag_of (nodes (built chain)) k /\
            status_of (nodes (mark_executed "Z" "passed" (built chain))) k
            = status_of (nodes (built chain)) k.
Proof.
  apply (mark_executed_unknown_is_noop (built chain) "Z" "passed").
  vm_compute. intros [H|[H|[]]]; discriminate.
Defined.

(** * Further properties *)

Section MoreProperties.
Context {SO : SetOrder} {CS : CallStack}.

(** ** Unknown references *)

Lemma link_deps_first ns0 (known : string -> bool) s deps :
  (forall d, known d = true <-> In d (dict_keys ns0)) ->
  forall edges ns,
    linked ns0 edges ns -> In s (dict_keys ns0) ->
    match find (fun d => negb (known d)) deps with
    | Some d => link_deps s deps ns = Raise (ValueError (unknown_msg s d))
    | None =>
        exists ns', link_deps s deps ns = Ok ns' /\
                    linked ns0 (edges ++ map (pair s) deps) ns'
    end.
Proof.
  intros Hknown. induction deps as [|d deps IH]; intros edges ns L Hs; simpl.
  - exists ns. rewrite app_nil_r. auto.
  - destruct (known d) eqn:E; simpl.
    + apply Hknown in E. destruct (linked_step _ _ _ _ _ L Hs E) as (ns' & -> & L').
      cbn [bind]. specialize (IH _ _ L' Hs).
      destruct (find (fun d0 => negb (known d0)) deps); [exact IH|].
      destruct IH as (ns'' & Hr & L''). exists ns''. split; [exact Hr|].
      now rewrite <- app_assoc in L''.
    + rewrite link_unknown; [reflexivity|]. rewrite (lk_keys _ _ _ L).
      intros Hin. apply Hknown in Hin. congruence.
Qed.

Lemma link_suites_first ns0 names ss :
  (forall d, In d names <-> In d (dict_keys ns0)) ->
  forall edges ns,
    linked ns0 edges ns ->
    (forall s, In s ss -> In (name s) (dict_keys ns0)) ->
    match first_unknown names ss with
    | Some (s, d) => link_suites ss ns = Raise (ValueError (unknown_msg s d))
    | None => exists ns', link_suites ss ns = Ok ns'
    end.
Proof.
  intros Hnames. induction ss as [|s ss IH]; intros edges ns L Hss; simpl.
  - eauto.
  - assert (In (name s) (dict_keys ns0)) as Hs by (apply Hss; now left).
    assert (exists n, dict_get (name s) ns = Some n) as [n Hn]
      by (apply in_keys_get; now rewrite (lk_keys _ _ _ L)).
    rewrite (dict_item_ok _ _ _ Hn). cbn [bind].
    pose proof (link_deps_first ns0 (fun d => set_mem d names) (name s) (dependencies s))
      as Hd.
    specialize (Hd (fun d => iff_trans (set_mem_true d names) (Hnames d)) edges ns L Hs).
    unfold unknown_in.
    destruct (find (fun d => negb (set_mem d names)) (dependencies s)) as [d|].
    + now rewrite Hd.
    + destruct Hd as (ns' & -> & L'). cbn [bind].
      apply (IH _ _ L'). intros x Hx. apply Hss. now right.
Qed.

Lemma init_first_unknown p s d :
  first_unknown (suite_names p) (suites p) = Some (s, d) ->
  __init__ p = Raise (ValueError (unknown_msg s d)).
Proof.
  intros H. unfold __init__, _build.
  set (ns0 := create_nodes (suites p) []).
  assert (linked ns0 [] ns0) as L.
  { apply linked_init. intros k n. unfold ns0. rewrite create_nodes_get.
    destruct (last_named k (suites p)); simpl; [|discriminate].
    intros [= <-]. auto. }
  assert (forall k, In k (suite_names p) <-> In k (dict_keys ns0)) as K
    by (intros k; symmetry; apply create_nodes_keys).
  pose proof (link_suites_first ns0 (suite_names p) (suites p) K [] ns0 L) as Hl.
  rewrite H in Hl. rewrite Hl; [reflexivity|].
  intros x Hx. apply K. unfold suite_names. now apply in_map.
Qed.

Lemma unknown_in_spec names deps d :
  unknown_in names deps = Some d ->
  In d deps /\ ~ In d names /\
  exists before after, deps = before ++ d :: after /\ forall x, In x before -> In x names.
Proof.
  unfold unknown_in. induction deps as [|x deps IH]; simpl; [discriminate|].
  destruct (set_mem x names) eqn:E; simpl.
  - intros H. destruct (IH H) as (Hin & Hn & before & after & -> & Hb).
    split; [now right|]. split; [exact Hn|].
    exists (x :: before), after. split; [reflexivity|].
    intros y [<-|Hy]; [now apply set_mem_true | auto].
  - intros [= <-]. split; [now left|]. split; [now apply set_mem_false|].
    exists [], deps. split; [reflexivity | intros y []].
Qed.

Lemma first_unknown_spec names ss s d :
  first_unknown names ss = Some (s, d) ->
  exists t, In t ss /\ name t = s /\ In d (dependencies t) /\ ~ In d names.
Proof.
  induction ss as [|t ss IH]; simpl; [discriminate|].
  destruct (unknown_in names (dependencies t)) as [x|] eqn:E.
  - intros [= <- <-]. destruct (unknown_in_spec _ _ _ E) as (Hin & Hn & _).
    exists t. auto.
  - intros H. destruct (IH H) as (t' & Ht & Hr). exists t'. split; [now right | exact Hr].
Qed.

Lemma first_unknown_none names ss :
  first_unknown names ss = None <->
  forall s d, In s ss -> In d (dependencies s) -> In d names.
Proof.
  induction ss as [|t ss IH]; simpl.
  - split; [intros _ s d [] | reflexivity].
  - destruct (unknown_in names (dependencies t)) as [x|] eqn:E.
    + split; [discriminate|]. intros H. exfalso.
      destruct (unknown_in_spec _ _ _ E) as (Hin & Hn & _). apply Hn. eapply H; eauto.
    + rewrite IH. unfold unknown_in in E. split.
      * intros H s d [<-|Hs] Hd; [|eauto].
        pose proof (find_none _ _ E d Hd) as Hf. simpl in Hf.
        apply negb_false_iff in Hf. now apply set_mem_true.
      * intros H s d Hs Hd. eapply H; eauto.
Qed.

(** ** Runtime states: what never changes back *)

Lemma runtime_trans g0 g g' : runtime g0 g -> runtime g g' -> runtime g0 g'.
Proof.
  intros H0 H. induction H as [|g1 nm st H IH|g1 groups g2 H IH Hr|g1 mp r g2 H IH Hr
                               |g1 stats g2 H IH Hr].
  - exact H0.
  - now apply rt_mark.
  - eapply rt_order; eauto.
  - eapply rt_parallel; eauto.
  - eapply rt_stats; eauto.
Qed.

Lemma flag_of_true_in_keys ns k : flag_of ns k = true -> In k (dict_keys ns).
Proof.
  unfold flag_of. destruct (dict_get k ns) eqn:E; [|discriminate].
  intros _. eapply dict_get_some_in_keys; eauto.
Qed.

Lemma status_of_some_in_keys ns k : status_of ns k <> None -> In k (dict_keys ns).
Proof.
  unfold status_of. destruct (dict_get k ns) eqn:E; [|congruence].
  intros _. eapply dict_get_some_in_keys; eauto.
Qed.

Lemma mark_executed_flag_mono nm st g k :
  flag_of (nodes g) k = true -> flag_of (nodes (mark_executed nm st g)) k = true.
Proof.
  intros H. destruct (in_dec string_dec nm (dict_keys (nodes g))) as [Hin|Hout].
  - rewrite mark_executed_flag by exact Hin. now destruct (String.eqb k nm).
  - now rewrite mark_executed_absent.
Qed.

(** One step of the runtime, seen through [get_execution_order]. *)
Lemma runtime_step_cases g0 g g' :
  runtime g0 g -> runtime g g' ->
  g' = g \/
  exists g1,
    runtime g0 g1 /\ runtime g g1 /\
    ((exists nm st, g' = mark_executed nm st g1) \/
     (exists groups, get_execution_order g1 = Ok (groups, g'))).
Proof.
  intros H0 H. destruct H as [|g1 nm st H|g1 groups g2 H Hr|g1 mp r g2 H Hr
                              |g1 stats g2 H Hr].
  - now left.
  - right. exists g1. split; [eapply runtime_trans; eauto|]. split; [exact H|]. left. eauto.
  - right. exists g1. split; [eapply runtime_trans; eauto|]. split; [exact H|]. right. eauto.
  - right. exists g1. split; [eapply runtime_trans; eauto|]. split; [exact H|]. right.
    now apply parallel_groups_order in Hr.
  - right. exists g1. split; [eapply runtime_trans; eauto|]. split; [exact H|]. right.
    now apply stats_order in Hr.
Qed.

Lemma runtime_flags_mono p g0 g g' k :
  __init__ p = Ok g0 -> runtime g0 g -> runtime g g' ->
  flag_of (nodes g) k = true -> flag_of (nodes g') k = true.
Proof.
  intros Hinit H0 H Hk.
  induction H as [|g1 nm st H IH|g1 groups g2 H IH Hr|g1 mp r g2 H IH Hr
                   |g1 stats g2 H IH Hr].
  - exact Hk.
  - now apply mark_executed_flag_mono.
  - pose proof (runtime_trans _ _ _ H0 H) as H1.
    destruct (get_execution_order_marks_every_node p g0 g1 groups g2 Hinit H1 Hr) as [Hf _].
    apply Hf. now apply flag_of_true_in_keys.
  - pose proof (runtime_trans _ _ _ H0 H) as H1.
    apply parallel_groups_order in Hr as [groups Hr].
    destruct (get_execution_order_marks_every_node p g0 g1 groups g2 Hinit H1 Hr) as [Hf _].
    apply Hf. now apply flag_of_true_in_keys.
  - pose proof (runtime_trans _ _ _ H0 H) as H1.
    apply stats_order in Hr as [groups Hr].
    destruct (get_execution_order_marks_every_node p g0 g1 groups g2 Hinit H1 Hr) as [Hf _].
    apply Hf. now apply flag_of_true_in_keys.
Qed.

Lemma runtime_status_implies_flag p g0 g k :
  __init__ p = Ok g0 -> runtime g0 g ->
  status_of (nodes g) k <> None -> flag_of (nodes g) k = true.
Proof.
  intros Hinit H.
  assert (forall g1 groups g2,
            runtime g0 g1 ->
            (status_of (nodes g1) k <> None -> flag_of (nodes g1) k = true) ->
            get_execution_order g1 = Ok (groups, g2) ->
            status_of (nodes g2) k <> None -> flag_of (nodes g2) k = true) as Hstep.
  { intros g1 groups g2 H1 _ Hr Hs.
    destruct (get_execution_order_marks_every_node p g0 g1 groups g2 Hinit H1 Hr) as [Hf Hst].
    apply Hf. rewrite Hst in Hs. now apply status_of_some_in_keys. }
  induction H as [|g1 nm st H IH|g1 groups g2 H IH Hr|g1 mp r g2 H IH Hr
                   |g1 stats g2 H IH Hr].
  - pose proof (init_spec p) as Hi. rewrite Hinit in Hi. destruct Hi as (_ & _ & F & _).
    intros Hs. exfalso. apply Hs. unfold status_of.
    destruct (dict_get k (nodes g0)) as [n|] eqn:E; [|reflexivity]. apply (F k n E).
  - destruct (in_dec string_dec nm (dict_keys (nodes g1))) as [Hin|Hout].
    + rewrite mark_executed_flag, mark_executed_status by exact Hin.
      destruct (String.eqb k nm); [reflexivity | exact IH].
    + now rewrite mark_executed_absent.
  - eapply Hstep; eauto.
  - apply parallel_groups_order in Hr as [groups Hr]. eapply Hstep; eauto.
  - apply stats_order in Hr as [groups Hr]. eapply Hstep; eauto.
Qed.

(** ** Marking two suites *)

Lemma dict_set_comm {V : Type} k1 k2 (v1 v2 : V) d :
  k1 <> k2 -> In k1 (dict_keys d) -> In k2 (dict_keys d) ->
  dict_set k1 v1 (dict_set k2 v2 d) = dict_set k2 v2 (dict_set k1 v1 d).
Proof.
  intros Hne. induction d as [|[k v] d IH]; simpl; [tauto|].
  intros H1 H2.
  destruct (String.eqb_spec k2 k) as [->|N2], (String.eqb_spec k1 k) as [->|N1]; simpl.
  - congruence.
  - rewrite String.eqb_refl. rewrite (proj2 (String.eqb_neq k1 k)) by exact N1. reflexivity.
  - rewrite String.eqb_refl. rewrite (proj2 (String.eqb_neq k2 k)) by exact N2. reflexivity.
  - rewrite (proj2 (String.eqb_neq k1 k)) by exact N1.
    rewrite (proj2 (String.eqb_neq k2 k)) by exact N2.
    f_equal. apply IH; [destruct H1; congruence | destruct H2; congruence].
Qed.

Lemma mark_executed_comm a sa b sb g :
  a <> b ->
  mark_executed a sa (mark_executed b sb g) = mark_executed b sb (mark_executed a sa g).
Proof.
  intros Hne. unfold mark_executed.
  destruct (dict_get a (nodes g)) as [na|] eqn:Ea, (dict_get b (nodes g)) as [nb|] eqn:Eb;
    cbn [nodes with_nodes plan].
  - rewrite !dict_get_set_other by congruence. rewrite Ea, Eb.
    unfold with_nodes. cbn [nodes plan]. f_equal.
    apply dict_set_comm; [exact Hne | eapply dict_get_some_in_keys; eauto
                         | eapply dict_get_some_in_keys; eauto].
  - rewrite ?dict_get_set_other by congruence. now rewrite ?Ea, ?Eb.
  - rewrite ?dict_get_set_other by congruence. now rewrite ?Ea, ?Eb.
  - now rewrite ?Ea, ?Eb.
Qed.

(** ** What [get_ready_suites] returns *)

Lemma forallb_perm {A : Type} (f : A -> bool) l l' :
  Permutation l l' -> forallb f l = forallb f l'.
Proof.
  intros HP. apply bool_eq_iff. rewrite !forallb_forall. split; intros H x Hx; apply H.
  - eapply Permutation_in; [apply Permutation_sym; exact HP | exact Hx].
  - eapply Permutation_in; eauto.
Qed.

Lemma ready_now_true ns k :
  ready_now ns k = true <->
  flag_of ns k = false /\ forall d, In d (deps_of ns k) -> flag_of ns d = true.
Proof.
  unfold ready_now. rewrite andb_true_iff, negb_true_iff, forallb_forall. tauto.
Qed.

Lemma is_ready_value p g nm :
  graph_of p (nodes g) -> In nm (dict_keys (nodes g)) ->
  is_ready g nm = Ok (forallb (flag_of (nodes g)) (deps_of (nodes g) nm)).
Proof.
  intros G Hnm. destruct (is_ready_spec p g nm G Hnm) as (b & -> & Hiff). f_equal.
  apply bool_eq_iff. rewrite Hiff, forallb_forall. split; intros H d Hd; apply H.
  - now apply get_dependencies_in.
  - now apply get_dependencies_in in Hd.
Qed.

Lemma ready_among_spec p g :
  graph_of p (nodes g) ->
  forall items,
    (forall k n, In (k, n) items -> dict_get k (nodes g) = Some n) ->
    ready_among g items = Ok (filter (ready_now (nodes g)) (map fst items)).
Proof.
  intros G. induction items as [|[k n] items IH]; intros Hitems; [reflexivity|].
  assert (dict_get k (nodes g) = Some n) as Hk by (apply Hitems; now left).
  cbn [ready_among map fst filter].
  rewrite IH by (intros k' n' H'; apply Hitems; now right).
  unfold ready_now at 2. unfold flag_of at 1. rewrite Hk.
  destruct (executed n); cbn [bind negb andb]; [reflexivity|].
  rewrite (is_ready_value p g k G) by (eapply dict_get_some_in_keys; eauto).
  cbn [bind]. reflexivity.
Qed.

Lemma get_ready_suites_spec p g :
  graph_of p (nodes g) ->
  get_ready_suites g = Ok (filter (ready_now (nodes g)) (dict_keys (nodes g))).
Proof.
  intros G. unfold get_ready_suites. apply (ready_among_spec p g G).
  intros k n Hin. apply in_dict_get; [apply (g_nodup _ _ G) | exact Hin].
Qed.

(** While a node is unexecuted, some node is ready. *)
Lemma some_node_ready p ns (rank : string -> nat) :
  graph_of p ns -> (forall a b, plan_edge p a b -> rank b < rank a) ->
  forall k, In k (dict_keys ns) -> flag_of ns k = false ->
  exists nm, In nm (dict_keys ns) /\ ready_now ns nm = true.
Proof.
  intros G Hrank.
  assert (forall n k, rank k < n -> In k (dict_keys ns) -> flag_of ns k = false ->
                      exists nm, In nm (dict_keys ns) /\ ready_now ns nm = true) as H.
  { induction n as [|n IH]; intros k Hlt Hk Hf; [lia|].
    destruct (forallb (flag_of ns) (deps_of ns k)) eqn:E.
    - exists k. split; [exact Hk|]. unfold ready_now. now rewrite Hf, E.
    - assert (exists d, In d (deps_of ns k) /\ flag_of ns d = false) as (d & Hd & Hfd).
      { clear - E. induction (deps_of ns k) as [|x l IHl]; simpl in E; [discriminate|].
        destruct (flag_of ns x) eqn:Ex.
        - destruct (IHl E) as (d & Hd & Hfd). exists d. split; [now right | exact Hfd].
        - exists x. split; [now left | exact Ex]. }
      apply (IH d).
      + apply (g_deps _ _ G) in Hd. apply Hrank in Hd. lia.
      + eapply graph_edge_closed; eauto.
      + exact Hfd. }
  intros k. apply (H (S (rank k))). lia.
Qed.

(** Marking [d] can only make dependents of [d] newly ready. *)
Lemma newly_ready_are_dependents p g d st nm :
  graph_of p (nodes g) -> In d (dict_keys (nodes g)) ->
  ready_now (nodes (mark_executed d st g)) nm = true ->
  nm <> d /\ (ready_now (nodes g) nm = true \/ In nm (rdeps_of (nodes g) d)).
Proof.
  intros G Hd Hr. apply ready_now_true in Hr as [Hf Hdeps].
  pose proof (mark_executed_same_graph d st g) as S.
  rewrite mark_executed_flag in Hf by exact Hd.
  destruct (String.eqb_spec nm d) as [->|Hne]; [discriminate|]. split; [exact Hne|].
  destruct (in_dec string_dec d (deps_of (nodes g) nm)) as [Hin|Hout].
  - right. apply (g_rdeps _ _ G). now apply (g_deps _ _ G).
  - left. apply ready_now_true. split; [exact Hf|]. intros x Hx.
    specialize (Hdeps x). rewrite (proj1 (proj2 S nm)) in Hdeps. specialize (Hdeps Hx).
    rewrite mark_executed_flag in Hdeps by exact Hd.
    destruct (String.eqb_spec x d) as [E|E]; [subst x; contradiction | exact Hdeps].
Qed.

(** ** The first group *)

Lemma schedule_prefix fuel : forall st groups ns' groups',
  schedule fuel st groups = Ok (ns', groups') ->
  exists rest, groups' = groups ++ rest /\ hd [] rest = s_queue st.
Proof.
  induction fuel as [|fuel IH]; intros st groups ns' groups'; simpl.
  - destruct (s_queue st) eqn:EQ; [|discriminate].
    intros [= _ <-]. exists []. now rewrite app_nil_r.
  - destruct (s_queue st) as [|x q] eqn:EQ.
    + intros [= _ <-]. exists []. now rewrite app_nil_r.
    + destruct (process_group (x :: q) _) as [st'|e|]; cbn [bind]; try discriminate.
      intros H. destruct (IH _ _ _ _ H) as (rest & -> & _).
      exists ((x :: q) :: rest). now rewrite <- app_assoc.
Qed.

Lemma fresh_ready_is_zero_degree ns :
  fresh ns ->
  forall items,
    (forall k n, In (k, n) items -> dict_get k ns = Some n) ->
    filter (ready_now ns) (map fst items) = zero_degree (in_degrees items).
Proof.
  intros F. induction items as [|[k n] items IH]; intros Hitems; [reflexivity|].
  assert (dict_get k ns = Some n) as Hk by (apply Hitems; now left).
  unfold zero_degree, in_degrees in *. cbn [map filter fst snd].
  rewrite IH by (intros k' n' H'; apply Hitems; now right).
  assert (ready_now ns k = (Z.of_nat (List.length (node_dependencies n)) =? 0)%Z) as ->.
  { unfold ready_now, flag_of at 1, deps_of. rewrite Hk.
    rewrite (proj1 (F k n Hk)). cbn [negb andb].
    destruct (node_dependencies n) as [|d l]; [reflexivity|].
    cbn [forallb]. unfold flag_of at 1.
    destruct (dict_get d ns) as [nd|] eqn:Ed; [rewrite (proj1 (F d nd Ed))|]; reflexivity. }
  destruct (Z.of_nat (List.length (node_dependencies n)) =? 0)%Z; reflexivity.
Qed.

(** ** The plan does not depend on flags and statuses *)

Lemma same_graph_get ns1 ns2 k :
  same_graph ns1 ns2 ->
  match dict_get k ns1, dict_get k ns2 with
  | Some n1, Some n2 =>
      node_dependencies n1 = node_dependencies n2 /\ dependents n1 = dependents n2
  | None, None => True
  | _, _ => False
  end.
Proof.
  intros [K H]. destruct (H k) as (Hd & Hr & Hs). unfold deps_of, rdeps_of in *.
  destruct (dict_get k ns1), (dict_get k ns2); simpl in *; try discriminate; auto.
Qed.

Lemma process_node_sim nm st1 st2 :
  sched_sim st1 st2 ->
  outcome_rel sched_sim (process_node nm st1) (process_node nm st2).
Proof.
  intros (Hd & Hq & SG). unfold process_node, dict_item.
  pose proof (same_graph_get _ _ nm SG) as Hn.
  destruct (dict_get nm (s_nodes st1)) as [n1|] eqn:E1,
           (dict_get nm (s_nodes st2)) as [n2|] eqn:E2; try contradiction; cbn [bind].
  - destruct Hn as [_ Hr]. rewrite Hd, Hq, Hr.
    destruct (relax_all (set_iter (dependents n2)) (s_degree st2, s_queue st2)) as [dq|e|];
      cbn [bind outcome_rel]; auto.
    split; [reflexivity|]. split; [reflexivity|]. cbn [s_nodes].
    eapply same_graph_trans; [apply same_graph_sym, (set_node_same_graph _ nm n1); eauto|].
    eapply same_graph_trans; [exact SG|]. apply (set_node_same_graph _ nm n2); auto.
  - reflexivity.
Qed.

Lemma process_group_sim group : forall st1 st2,
  sched_sim st1 st2 ->
  outcome_rel sched_sim (process_group group st1) (process_group group st2).
Proof.
  induction group as [|nm group IH]; intros st1 st2 Hs; [exact Hs|].
  cbn [process_group]. pose proof (process_node_sim nm st1 st2 Hs) as Hn.
  destruct (process_node nm st1) as [a|e1|], (process_node nm st2) as [b|e2|];
    try contradiction; cbn [bind]; auto.
Qed.

Lemma schedule_sim fuel : forall st1 st2 groups,
  sched_sim st1 st2 ->
  outcome_rel (fun r1 r2 => snd r1 = snd r2 /\ same_graph (fst r1) (fst r2))
    (schedule fuel st1 groups) (schedule fuel st2 groups).
Proof.
  induction fuel as [|fuel IH]; intros st1 st2 groups (Hd & Hq & SG); simpl; rewrite Hq.
  - destruct (s_queue st2); simpl; auto.
  - destruct (s_queue st2) as [|x q]; [simpl; auto|].
    pose proof (process_group_sim (x :: q)
                  {| s_nodes := s_nodes st1; s_degree := s_degree st1; s_queue := [] |}
                  {| s_nodes := s_nodes st2; s_degree := s_degree st2; s_queue := [] |}) as Hg.
    specialize (Hg (conj Hd (conj eq_refl SG))).
    destruct (process_group (x :: q) {| s_nodes := s_nodes st1 |}) as [a|e1|],
             (process_group (x :: q) {| s_nodes := s_nodes st2 |}) as [b|e2|];
      try contradiction; cbn [bind]; auto.
Qed.

Lemma in_degrees_by_keys ns :
  forall items,
    (forall k n, In (k, n) items -> dict_get k ns = Some n) ->
    in_degrees items
    = map (fun k => (k, Z.of_nat (List.length (deps_of ns k)))) (map fst items).
Proof.
  induction items as [|[k n] items IH]; intros H; [reflexivity|].
  unfold in_degrees in *. cbn [map fst snd]. rewrite IH by (intros; apply H; now right).
  f_equal. unfold deps_of. now rewrite (H k n (or_introl eq_refl)).
Qed.

Lemma in_degrees_same ns1 ns2 :
  NoDup (dict_keys ns1) -> same_graph ns1 ns2 -> in_degrees ns1 = in_degrees ns2.
Proof.
  intros Hnd [K H].
  rewrite (in_degrees_by_keys ns1 ns1), (in_degrees_by_keys ns2 ns2).
  - fold (dict_keys ns1). fold (dict_keys ns2). rewrite K. apply map_ext.
    intros k. now rewrite (proj1 (H k)).
  - intros k n. apply in_dict_get. now rewrite K.
  - intros k n. now apply in_dict_get.
Qed.

Lemma execution_order_same p g1 g2 :
  graph_of p (nodes g1) -> same_graph (nodes g1) (nodes g2) ->
  outcome_rel (fun r1 r2 => fst r1 = fst r2)
    (get_execution_order g1) (get_execution_order g2) \/
  (exists r, get_execution_order g1 = Raise r) \/
  (exists r, get_execution_order g2 = Raise r).
Proof.
  intros G SG. unfold get_execution_order.
  rewrite <- (in_degrees_same _ _ (g_nodup _ _ G) SG).
  assert (List.length (nodes g2) = List.length (nodes g1)) as ->.
  { rewrite <- (length_map fst (nodes g2)), <- (length_map fst (nodes g1)).
    fold (dict_keys (nodes g2)). now rewrite (proj1 SG). }
  pose proof (schedule_sim (List.length (nodes g1))
                {| s_nodes := nodes g1; s_degree := in_degrees (nodes g1);
                   s_queue := zero_degree (in_degrees (nodes g1)) |}
                {| s_nodes := nodes g2; s_degree := in_degrees (nodes g1);
                   s_queue := zero_degree (in_degrees (nodes g1)) |} []
                (conj eq_refl (conj eq_refl SG))) as Hs.
  destruct (schedule _ {| s_nodes := nodes g1 |} []) as [r1|e1|],
           (schedule _ {| s_nodes := nodes g2 |} []) as [r2|e2|];
    try contradiction; cbn [bind].
  - destruct Hs as [Hg _].
    destruct (unexecuted_names (fst r1)); [|right; left; eauto].
    destruct (unexecuted_names (fst r2)); [|right; right; eauto].
    left. exact Hg.
  - right. left. eauto.
  - left. exact I.
Qed.

(** ** The levels are tight *)

Lemma tight_prefix E (L M : list (list string)) : tight E (L ++ M) -> tight E L.
Proof.
  intros [H0 H1]. split.
  - intros g v d Hg. apply (H0 g v d).
    rewrite nth_error_app1; [exact Hg | apply nth_error_Some; congruence].
  - intros i g g' v Hg Hg'. apply (H1 i g g' v).
    + rewrite nth_error_app1; [exact Hg | apply nth_error_Some; congruence].
    + rewrite nth_error_app1; [exact Hg' | apply nth_error_Some; congruence].
Qed.

Lemma tight_snoc E (L : list (list string)) Q N :
  tight E (L ++ [Q]) -> (forall v, In v N -> exists d, In d Q /\ E v d) ->
  tight E ((L ++ [Q]) ++ [N]).
Proof.
  intros [H0 H1] HN. split.
  - intros g v d Hg. apply (H0 g v d).
    rewrite nth_error_app1 in Hg; [exact Hg | rewrite length_app; simpl; lia].
  - intros i g g' v Hg Hg' Hv.
    destruct (Nat.lt_ge_cases (S i) (List.length (L ++ [Q]))) as [Hlt|Hge].
    + rewrite nth_error_app1 in Hg by lia. rewrite nth_error_app1 in Hg' by lia.
      now apply (H1 i g g' v).
    + assert (S i < List.length ((L ++ [Q]) ++ [N])) as Hb
        by (apply nth_error_Some; congruence).
      repeat rewrite length_app in Hb. rewrite length_app in Hge. simpl in Hb, Hge.
      assert (i = List.length L) as -> by lia.
      rewrite <- app_assoc in Hg. rewrite nth_error_app2 in Hg by lia.
      rewrite Nat.sub_diag in Hg. simpl in Hg. injection Hg as <-.
      rewrite nth_error_app2 in Hg' by (rewrite length_app; simpl; lia).
      rewrite length_app in Hg'. cbn [List.length] in Hg'.
      replace (S (List.length L) - (List.length L + 1)) with 0 in Hg' by lia.
      simpl in Hg'. injection Hg' as <-. now apply HN.
Qed.

Lemma sched_step_tight p ns0 st groups st' :
  graph_of p ns0 -> sched_inv ns0 st groups ->
  process_group (s_queue st)
    {| s_nodes := s_nodes st; s_degree := s_degree st; s_queue := [] |} = Ok st' ->
  forall v, In v (s_queue st') -> exists d, In d (s_queue st) /\ graph_edge ns0 v d.
Proof.
  intros G0 I Hrun v Hv.
  pose proof (si_graph _ _ _ I) as SG.
  rewrite process_group_eq in Hrun.
  2:{ cbn [s_nodes]. intros x Hx. rewrite (proj1 SG).
      apply (si_incl _ _ _ I), in_app_iff. now right. }
  cbn [s_nodes s_degree s_queue] in Hrun.
  destruct (relax_all_spec (flat_map (fun u => set_iter (rdeps_of (s_nodes st) u)) (s_queue st))
              (s_degree st) [])
    as (deg' & newq & Hr & _ & _ & _ & Hq).
  { intros d Hd. rewrite (si_degkeys _ _ _ I). apply in_flat_map in Hd as (u & Hu & Hd).
    apply (Permutation_in _ (set_iter_perm _)) in Hd.
    rewrite (proj1 (proj2 (proj2 SG u))) in Hd.
    apply (g_rdeps _ _ G0) in Hd. destruct Hd as (s & Hs & <- & _).
    apply (g_keys _ _ G0). unfold suite_names. now apply in_map. }
  rewrite Hr in Hrun. cbn [bind app fst snd] in Hrun. injection Hrun as <-.
  cbn [s_queue] in Hv. apply Hq in Hv as (x & _ & Hpos).
  assert (In v (flat_map (fun u => set_iter (rdeps_of (s_nodes st) u)) (s_queue st))) as Hin.
  { apply (count_occ_In string_dec). lia. }
  apply in_flat_map in Hin as (u & Hu & Hin). exists u. split; [exact Hu|].
  apply (Permutation_in _ (set_iter_perm _)) in Hin.
  rewrite (proj1 (proj2 (proj2 SG u))) in Hin.
  apply (g_deps _ _ G0). now apply (g_rdeps _ _ G0).
Qed.

Lemma schedule_tight p ns0 :
  graph_of p ns0 ->
  forall fuel st groups ns' groups',
    sched_inv ns0 st groups ->
    tight (graph_edge ns0) (groups ++ [s_queue st]) ->
    schedule fuel st groups = Ok (ns', groups') ->
    tight (graph_edge ns0) groups'.
Proof.
  intros G0. induction fuel as [|fuel IH]; intros st groups ns' groups' I HT Hrun;
    simpl in Hrun.
  - destruct (s_queue st); [|discriminate]. injection Hrun as _ <-.
    eapply tight_prefix; eauto.
  - destruct (s_queue st) as [|x q] eqn:EQ.
    + injection Hrun as _ <-. eapply tight_prefix; eauto.
    + destruct (sched_step p ns0 st groups G0 I) as (st1 & Hp & I1).
      { rewrite EQ. discriminate. }
      rewrite EQ in Hp. rewrite Hp in Hrun. cbn [bind] in Hrun.
      apply (IH st1 (groups ++ [x :: q]) ns' groups'); [now rewrite <- EQ | | exact Hrun].
      apply tight_snoc; [exact HT|]. rewrite <- EQ in Hp |- *.
      now apply (sched_step_tight p ns0 st groups st1 G0 I).
Qed.

Lemma tight_start p ns :
  graph_of p ns -> tight (graph_edge ns) ([] ++ [zero_degree (in_degrees ns)]).
Proof.
  intros G. split.
  - intros g v d [= <-] Hv He.
    destruct (zero_degree_spec (in_degrees ns)) as [_ Hz].
    { rewrite in_degrees_keys. apply (g_nodup _ _ G). }
    apply Hz in Hv. rewrite in_degrees_get in Hv. unfold graph_edge, deps_of in He.
    destruct (dict_get v ns) as [n|]; [|destruct He]. simpl in Hv. injection Hv as Hv.
    destruct (node_dependencies n); [destruct He | simpl in Hv; lia].
  - intros i g g' v _ Hg'. destruct i; discriminate.
Qed.

Lemma tight_impl (E E' : string -> string -> Prop) groups :
  (forall a b, E a b <-> E' a b) -> tight E groups -> tight E' groups.
Proof.
  intros H [H0 H1]. split.
  - intros g v d Hg Hv He. apply (H0 g v d Hg Hv). now apply H.
  - intros i g g' v Hg Hg' Hv. destruct (H1 i g g' v Hg Hg' Hv) as (d & Hd & He).
    exists d. split; [exact Hd | now apply H].
Qed.

Lemma get_execution_order_tight p g groups g' :
  graph_of p (nodes g) -> get_execution_order g = Ok (groups, g') ->
  tight (plan_edge p) groups.
Proof.
  intros G. unfold get_execution_order.
  destruct (schedule _ _ []) as [[ns' gs]|e|] eqn:Hs; cbn [bind fst snd]; try discriminate.
  destruct (unexecuted_names ns'); [|discriminate]. intros [= <- _].
  apply (tight_impl (graph_edge (nodes g))); [intros a b; apply (g_deps _ _ G)|].
  eapply (schedule_tight p (nodes g) G); [apply (sched_inv_start p); exact G | | exact Hs].
  cbn [s_queue]. now apply (tight_start p).
Qed.

(** ** How many groups *)

Lemma nonempty_groups_length (L : list (list string)) :
  Forall (fun g => g <> []) L -> List.length L <= List.length (List.concat L).
Proof.
  induction 1 as [|g L Hg HF IH]; [simpl; lia|].
  simpl. rewrite length_app. destruct g; [congruence | simpl; lia].
Qed.

(** ** The order of the nodes *)

Lemma create_nodes_key_order ss : forall ns,
  dict_keys (create_nodes ss ns)
  = dict_keys ns ++ first_occurrences (dict_keys ns) (map name ss).
Proof.
  induction ss as [|s ss IH]; intros ns; simpl; [now rewrite app_nil_r|].
  unfold create_nodes in *. rewrite IH.
  destruct (set_mem (name s) (dict_keys ns)) eqn:E.
  - apply set_mem_true in E. now rewrite dict_keys_set_present.
  - apply set_mem_false in E. rewrite dict_set_absent by exact E.
    unfold dict_keys. rewrite map_app. simpl. now rewrite <- app_assoc.
Qed.

(** ** Chunks keep the order of the levels *)

Lemma nth_error_concat_inv {A : Type} (L : list (list A)) : forall i c,
  nth_error (List.concat L) i = Some c ->
  exists k cs off,
    nth_error L k = Some cs /\ nth_error cs off = Some c /\
    i = List.length (List.concat (firstn k L)) + off.
Proof.
  induction L as [|cs0 L IH]; intros i c Hi; [destruct i; discriminate|].
  simpl in Hi. destruct (Nat.lt_ge_cases i (List.length cs0)) as [Hlt|Hge].
  - rewrite nth_error_app1 in Hi by exact Hlt. exists 0, cs0, i. auto.
  - rewrite nth_error_app2 in Hi by exact Hge.
    destruct (IH _ _ Hi) as (k & cs & off & Hk & Hoff & Heq).
    exists (S k), cs, off. split; [exact Hk|]. split; [exact Hoff|].
    simpl. rewrite length_app. lia.
Qed.

Lemma nth_error_concat_intro {A : Type} (L : list (list A)) : forall k cs off c,
  nth_error L k = Some cs -> nth_error cs off = Some c ->
  nth_error (List.concat L) (List.length (List.concat (firstn k L)) + off) = Some c.
Proof.
  induction L as [|cs0 L IH]; intros k cs off c Hk Hoff; [destruct k; discriminate|].
  destruct k as [|k]; simpl in *.
  - injection Hk as ->. rewrite nth_error_app1; [exact Hoff|].
    apply nth_error_Some. congruence.
  - rewrite length_app, <- Nat.add_assoc, nth_error_app2 by lia.
    replace (List.length cs0 + (List.length (List.concat (firstn k L)) + off)
             - List.length cs0)
      with (List.length (List.concat (firstn k L)) + off) by lia.
    eapply IH; eauto.
Qed.

Lemma concat_firstn_succ {A : Type} (L : list (list A)) : forall k cs,
  nth_error L k = Some cs ->
  List.length (List.concat (firstn (S k) L))
  = List.length (List.concat (firstn k L)) + List.length cs.
Proof.
  induction L as [|cs0 L IH]; intros k cs Hk; [destruct k; discriminate|].
  destruct k as [|k].
  - simpl in *. injection Hk as ->. rewrite app_nil_r. reflexivity.
  - change (firstn (S (S k)) (cs0 :: L)) with (cs0 :: firstn (S k) L).
    change (firstn (S k) (cs0 :: L)) with (cs0 :: firstn k L).
    cbn [List.concat]. rewrite !length_app, (IH k cs Hk). lia.
Qed.

Lemma concat_firstn_mono {A : Type} (L : list (list A)) : forall k1 k2,
  k1 <= k2 ->
  List.length (List.concat (firstn k1 L)) <= List.length (List.concat (firstn k2 L)).
Proof.
  induction L as [|cs0 L IH]; intros k1 k2 Hle.
  - now rewrite !firstn_nil.
  - destruct k1 as [|k1]; [simpl; lia|]. destruct k2 as [|k2]; [lia|].
    simpl. rewrite !length_app. specialize (IH k1 k2 ltac:(lia)). lia.
Qed.

Lemma Forall2_nth_error_l {A B : Type} (R : A -> B -> Prop) l l' :
  Forall2 R l l' -> forall k x, nth_error l k = Some x ->
  exists y, nth_error l' k = Some y /\ R x y.
Proof.
  induction 1 as [|a b l l' Hab HF IH]; intros k x Hk; [destruct k; discriminate|].
  destruct k as [|k]; simpl in *.
  - injection Hk as <-. eauto.
  - eauto.
Qed.

Lemma Forall2_nth_error_r {A B : Type} (R : A -> B -> Prop) l l' :
  Forall2 R l l' -> forall k y, nth_error l' k = Some y ->
  exists x, nth_error l k = Some x /\ R x y.
Proof.
  induction 1 as [|a b l l' Hab HF IH]; intros k y Hk; [destruct k; discriminate|].
  destruct k as [|k]; simpl in *.
  - injection Hk as <-. eauto.
  - eauto.
Qed.

Lemma leveled_chunked E m groups chunked :
  Forall2 (chunks_of_group m) groups chunked ->
  leveled E groups -> leveled E (List.concat chunked).
Proof.
  intros HF HL i c v d Hi Hv He.
  destruct (nth_error_concat_inv chunked i c Hi) as (k & cs & off & Hk & Hoff & ->).
  destruct (Forall2_nth_error_r _ _ _ HF k cs Hk) as (g & Hg & (Hcat & _ & _)).
  assert (In v g) as Hvg.
  { rewrite <- Hcat. apply in_concat. exists c. split; [eapply nth_error_In; eauto | exact Hv]. }
  destruct (HL k g v d Hg Hvg He) as (k' & g' & Hlt & Hg' & Hd).
  destruct (Forall2_nth_error_l _ _ _ HF k' g' Hg') as (cs' & Hcs' & (Hcat' & _ & _)).
  rewrite <- Hcat' in Hd. apply in_concat in Hd as (c' & Hc' & Hdc').
  apply In_nth_error in Hc' as [off' Hoff'].
  exists (List.length (List.concat (firstn k' chunked)) + off'), c'.
  split; [|split; [eapply nth_error_concat_intro; eauto | exact Hdc']].
  assert (off' < List.length cs') by (apply nth_error_Some; congruence).
  pose proof (concat_firstn_succ chunked k' cs' Hcs').
  pose proof (concat_firstn_mono chunked (S k') k ltac:(lia)). lia.
Qed.

(** A group that fits under the ceiling is kept as one chunk. *)
Lemma chunks_of_small_group m (g : list string) chunks :
  chunks_of_group m g chunks -> g <> [] -> List.length g <= m -> chunks = [g].
Proof.
  intros (Hcat & Hall & Hfull) Hne Hle.
  destruct chunks as [|c1 [|c2 rest]].
  - simpl in Hcat. congruence.
  - simpl in Hcat. rewrite app_nil_r in Hcat. now subst.
  - exfalso. assert (List.length c1 = m) as H1 by (apply Hfull; now left).
    inversion Hall as [|? ? _ Hall']; subst. inversion Hall' as [|? ? [Hc2 _] _]; subst.
    simpl in Hle. rewrite !length_app in Hle. destruct c2; [congruence | simpl in Hle; lia].
Qed.

Lemma split_groups_identity (mp : Z) (groups : list (list string)) :
  (0 < mp)%Z ->
  Forall (fun g => g <> [] /\ (Z.of_nat (List.length g) <= mp)%Z) groups ->
  split_groups mp groups = Ok groups.
Proof.
  intros Hm HF. destruct (split_groups_spec mp groups Hm) as (chunked & -> & H2).
  f_equal. induction H2 as [|g cs groups chunked Hc H2 IH]; [reflexivity|].
  inversion HF as [|? ? [Hne Hle] HF']; subst.
  rewrite (chunks_of_small_group _ g cs Hc Hne) by lia.
  simpl. f_equal. now apply IH.
Qed.

(** ** Counting executed nodes *)

Lemma count_executed_bounds ns :
  (0 <= count_executed ns <= Z.of_nat (List.length ns))%Z.
Proof.
  unfold count_executed. pose proof (filter_length_le (fun kv => executed (snd kv)) ns). lia.
Qed.

Lemma count_executed_fresh ns : fresh ns -> NoDup (dict_keys ns) -> count_executed ns = 0%Z.
Proof.
  intros F Hnd. unfold count_executed.
  assert (forall items, (forall k n, In (k, n) items -> dict_get k ns = Some n) ->
            filter (fun kv : string * DAGNode => executed (snd kv)) items = []) as H.
  { induction items as [|[k n] items IH]; intros Hi; [reflexivity|].
    simpl. rewrite (proj1 (F k n (Hi k n (or_introl eq_refl)))).
    apply IH. intros k' n' H'. apply Hi. now right. }
  rewrite H; [reflexivity|]. intros k n. now apply in_dict_get.
Qed.

Lemma count_executed_all ns :
  NoDup (dict_keys ns) -> (forall k, In k (dict_keys ns) -> flag_of ns k = true) ->
  count_executed ns = Z.of_nat (List.length ns).
Proof.
  intros Hnd Hall. unfold count_executed. f_equal.
  assert (forall items, (forall k n, In (k, n) items -> dict_get k ns = Some n) ->
            filter (fun kv : string * DAGNode => executed (snd kv)) items = items) as H.
  { induction items as [|[k n] items IH]; intros Hi; [reflexivity|].
    assert (dict_get k ns = Some n) as Hk by (apply Hi; now left).
    simpl. specialize (Hall k (dict_get_some_in_keys _ _ _ Hk)).
    unfold flag_of in Hall. rewrite Hk in Hall. rewrite Hall. f_equal.
    apply IH. intros k' n' H'. apply Hi. now right. }
  rewrite H; [reflexivity|]. intros k n. now apply in_dict_get.
Qed.

(** ** The reported loop is simple *)

Lemma nodup_skipn {A : Type} i : forall l : list A, NoDup l -> NoDup (skipn i l).
Proof.
  induction i as [|i IH]; intros l H; [exact H|].
  destruct l as [|a l]; [exact H|]. simpl. apply IH. now inversion H.
Qed.

Lemma found_cycle_simple E dep nm path :
  consecutive E path -> NoDup path -> In dep path -> last path nm = nm -> path <> [] ->
  E nm dep -> simple_loop E (found_cycle dep path).
Proof.
  intros Hc Hnd Hin Hlast Hne Hedge.
  destruct (list_index_in dep path Hin) as (i & suf & Hi & Hs).
  unfold found_cycle. rewrite Hi, Hs. exists dep, suf. split; [reflexivity|]. split.
  - change (dep :: suf ++ [dep]) with ((dep :: suf) ++ [dep]). apply consecutive_snoc.
    + rewrite <- Hs. now apply consecutive_skipn.
    + intros _. rewrite <- (last_skipn dep dep i path suf Hs).
      rewrite (last_indep path dep nm) by exact Hne. now rewrite Hlast.
  - rewrite <- Hs. now apply nodup_skipn.
Qed.

Section SimpleLoops.
Variable ns : dict DAGNode.
Hypothesis closed : forall a b, graph_edge ns a b -> In b (dict_keys ns).

Lemma dfs_deps_simple frames nm :
  (forall dep st,
     dfs_inv ns st -> dict_get dep (fst st) = Some WHITE ->
     (snd st <> [] -> graph_edge ns (last (snd st) dep) dep) ->
     count_white (fst st) <= frames -> NoDup (snd st) ->
     forall e, dfs frames ns dep st = Raise e -> simple_loop (graph_edge ns) e) ->
  forall deps st,
    dfs_inv ns st -> snd st <> [] -> last (snd st) nm = nm ->
    (forall d, In d deps -> graph_edge ns nm d) ->
    count_white (fst st) <= frames -> NoDup (snd st) ->
    forall e, dfs_deps (dfs frames ns) deps st = Raise e -> simple_loop (graph_edge ns) e.
Proof.
  intros Hrec. induction deps as [|dep deps IH];
    intros st Hinv Hne Hlast Hdeps Hroom Hnd e Hrun; [discriminate|].
  assert (graph_edge ns nm dep) as Hedge by (apply Hdeps; now left).
  assert (exists c, dict_get dep (fst st) = Some c) as [c Hc].
  { apply in_keys_get. rewrite (di_keys _ _ Hinv). eapply closed; eauto. }
  simpl in Hrun. rewrite (dict_item_ok _ _ _ Hc) in Hrun. cbn [bind] in Hrun.
  assert (forall d, In d deps -> graph_edge ns nm d) as Hdeps'
    by (intros d Hd; apply Hdeps; now right).
  destruct c.
  - assert (snd st <> [] -> graph_edge ns (last (snd st) dep) dep) as Hl.
    { intros _. rewrite (last_indep _ dep nm) by exact Hne. now rewrite Hlast. }
    destruct (dfs_spec ns closed frames dep st Hinv Hc Hl Hroom) as [Hpost _].
    destruct (dfs frames ns dep st) as [st1|e1|] eqn:Hd; cbn [bind] in Hrun.
    + destruct Hpost as (Hp1 & Hinv1 & _ & Hcw1).
      apply (IH st1); auto; try (rewrite Hp1; auto); lia.
    + injection Hrun as <-. eapply Hrec; eauto.
    + destruct Hpost.
  - injection Hrun as <-. apply (found_cycle_simple (graph_edge ns) dep nm); auto.
    + apply Hinv.
    + now apply (di_gray _ _ Hinv).
  - eapply IH; eauto.
Qed.

Lemma dfs_simple : forall frames nm st,
  dfs_inv ns st -> dict_get nm (fst st) = Some WHITE ->
  (snd st <> [] -> graph_edge ns (last (snd st) nm) nm) ->
  count_white (fst st) <= frames -> NoDup (snd st) ->
  forall e, dfs frames ns nm st = Raise e -> simple_loop (graph_edge ns) e.
Proof.
  induction frames as [|frames IH]; intros nm st Hinv Hw Hedge Hroom Hnd e Hrun.
  { apply count_white_pos in Hw. lia. }
  assert (exists node, dict_get nm ns = Some node) as [node Hnode].
  { apply in_keys_get. rewrite <- (di_keys _ _ Hinv). eapply dict_get_some_in_keys; eauto. }
  pose proof (count_white_set nm WHITE GRAY (fst st) Hw) as Hcw. simpl in Hcw.
  assert (~ In nm (snd st)) as Hnp.
  { intros Hin. apply (di_gray _ _ Hinv) in Hin. congruence. }
  cbn [dfs] in Hrun. rewrite (dict_item_ok _ _ _ Hnode) in Hrun. cbn [bind] in Hrun.
  destruct (dfs_deps (dfs frames ns) (set_iter (node_dependencies node)) _)
    as [st2|e2|] eqn:Hd; cbn [bind] in Hrun; try discriminate.
  injection Hrun as <-.
  eapply (dfs_deps_simple frames nm IH); [| | | | | |exact Hd].
  - now apply dfs_inv_enter.
  - simpl. destruct (snd st); discriminate.
  - simpl. apply last_last.
  - intros d Hd'. unfold graph_edge, deps_of. rewrite Hnode.
    eapply Permutation_in; [apply set_iter_perm | exact Hd'].
  - simpl. lia.
  - simpl. apply NoDup_app; [exact Hnd | repeat constructor; simpl; tauto|].
    intros a Ha [<-|[]]. contradiction.
Qed.

Lemma dfs_roots_simple frames : forall names st,
  dfs_inv ns st -> snd st = [] ->
  (forall nm, In nm names -> In nm (dict_keys ns)) ->
  count_white (fst st) <= frames ->
  forall e, dfs_roots frames ns names st = Raise e -> simple_loop (graph_edge ns) e.
Proof.
  induction names as [|nm names IH]; intros st Hinv Hp Hnames Hroom e Hrun; [discriminate|].
  assert (exists c, dict_get nm (fst st) = Some c) as [c Hc].
  { apply in_keys_get. rewrite (di_keys _ _ Hinv). apply Hnames. now left. }
  simpl in Hrun. rewrite (dict_item_ok _ _ _ Hc) in Hrun. cbn [bind] in Hrun.
  assert (forall x, In x names -> In x (dict_keys ns)) as Hnames'
    by (intros x Hx; apply Hnames; now right).
  destruct c; [|eapply IH; eauto|eapply IH; eauto].
  assert (snd st <> [] -> graph_edge ns (last (snd st) nm) nm) as Hl
    by (rewrite Hp; congruence).
  destruct (dfs_spec ns closed frames nm st Hinv Hc Hl Hroom) as [Hpost _].
  destruct (dfs frames ns nm st) as [st1|e1|] eqn:Hd; cbn [bind] in Hrun.
  - destruct Hpost as (Hp1 & Hinv1 & _ & Hcw1).
    apply (IH st1); auto; [congruence | lia].
  - injection Hrun as <-. eapply dfs_simple; eauto. rewrite Hp. constructor.
  - destruct Hpost.
Qed.

Lemma detect_cycles_simple e :
  _detect_cycles ns = Raise e -> e <> RecursionError -> simple_loop (graph_edge ns) e.
Proof.
  unfold _detect_cycles. intros Hrun Hne.
  destruct (dfs_roots _ ns (dict_keys ns) _) as [st'|e'|] eqn:Hd; cbn [bind] in Hrun;
    try discriminate.
  injection Hrun as <-.
  assert (dfs_roots (Nat.max dfs_frames (List.length ns)) ns (dict_keys ns)
            (initial_colours ns, []) = Raise e') as Hd'.
  { rewrite (dfs_roots_frames_mono ns dfs_frames _ (Nat.le_max_l _ _)); [exact Hd|].
    rewrite Hd. congruence. }
  eapply (dfs_roots_simple (Nat.max dfs_frames (List.length ns))); [| | | |exact Hd'].
  - split; simpl.
    + apply initial_colours_keys.
    + exact I.
    + intros x. split; [|tauto]. intros H. apply initial_colours_get in H. discriminate.
    + exists (fun _ => 0). intros u d H. apply initial_colours_get in H. discriminate.
  - reflexivity.
  - auto.
  - simpl. rewrite initial_colours_white. apply Nat.le_max_r.
Qed.
End SimpleLoops.

Lemma init_cycle_simple p e :
  valid_references p -> __init__ p = Raise e -> e <> RecursionError ->
  simple_loop (plan_edge p) e.
Proof.
  intros Hv. unfold __init__, _build. pose proof (link_suites_graph p) as H.
  destruct (link_suites (suites p) (create_nodes (suites p) [])) as [ns|e0|]; cbn [bind].
  - destruct H as [G _].
    destruct (_detect_cycles ns) as [[]|e1|] eqn:Hd; cbn [bind]; try discriminate.
    intros [= <-] Hne.
    destruct (detect_cycles_simple ns (graph_edge_closed p ns G) e1 Hd Hne)
      as (x & mid & He & Hc & Hn).
    exists x, mid. split; [exact He|]. split; [|exact Hn].
    eapply consecutive_impl; [|exact Hc]. intros a b. apply (g_deps _ _ G).
  - destruct H as [Hn _]. contradiction.
  - destruct H.
Qed.

(** How construction ends on a plan with valid references and a cycle. *)
Lemma init_cyclic p :
  valid_references p -> has_cycle p ->
  (__init__ p = Raise RecursionError \/
   exists e, __init__ p = Raise e /\ simple_loop (plan_edge p) e) /\
  (List.length (suites p) <= dfs_frames -> __init__ p <> Raise RecursionError).
Proof.
  intros Hv Hc. pose proof (init_spec p) as H.
  destruct (__init__ p) as [g|e|] eqn:Hi; simpl in H.
  - destruct H as (_ & _ & _ & rank & Hr). exfalso.
    now apply (ranked_acyclic p rank Hr).
  - destruct H as [[Hn _]|[[_ (cycle & -> & _)]|(_ & -> & Hlt)]]; [tauto| |].
    + split; [|discriminate]. right. eexists. split; [reflexivity|].
      apply (init_cycle_simple p _ Hv Hi). discriminate.
    + split; [now left|]. intros Hle _. lia.
  - destruct H.
Qed.

(** ** The nodes of a constructed graph *)

Lemma init_key_order p g0 :
  __init__ p = Ok g0 -> dict_keys (nodes g0) = first_occurrences [] (suite_names p).
Proof.
  unfold __init__, _build. set (ns0 := create_nodes (suites p) []).
  assert (linked ns0 [] ns0) as L.
  { apply linked_init. intros k n. unfold ns0. rewrite create_nodes_get.
    destruct (last_named k (suites p)); simpl; [|discriminate].
    intros [= <-]. auto. }
  pose proof (link_suites_spec ns0 (suites p) [] ns0 L) as H.
  assert (forall s, In s (suites p) -> In (name s) (dict_keys ns0)) as Hn.
  { intros s Hs. unfold ns0. apply create_nodes_keys. now apply in_map. }
  specialize (H Hn).
  destruct (link_suites (suites p) ns0) as [ns|e|]; cbn [bind]; try discriminate.
  destruct (_detect_cycles ns) as [[]|e|]; cbn [bind]; try discriminate.
  intros [= <-]. cbn [nodes]. destruct H as [_ L']. rewrite (lk_keys _ _ _ L').
  unfold ns0. now rewrite create_nodes_key_order.
Qed.

Lemma last_named_unique ss s :
  NoDup (map name ss) -> In s ss -> last_named (name s) ss = Some s.
Proof.
  induction ss as [|t ss IH]; intros Hnd Hin; [destruct Hin|].
  inversion Hnd as [|? ? Ht Hnd']; subst. simpl. destruct Hin as [->|Hin].
  - destruct (last_named (name s) ss) eqn:E.
    + exfalso. apply Ht. apply last_named_some. congruence.
    + now rewrite String.eqb_refl.
  - now rewrite (IH Hnd' Hin).
Qed.

Lemma runtime_same_graph p g0 g1 g2 :
  __init__ p = Ok g0 -> runtime g0 g1 -> runtime g0 g2 ->
  same_graph (nodes g1) (nodes g2).
Proof.
  intros Hinit H1 H2.
  destruct (runtime_graph p g0 g1 Hinit H1) as (_ & _ & S1 & _).
  destruct (runtime_graph p g0 g2 Hinit H2) as (_ & _ & S2 & _).
  eapply same_graph_trans; [apply same_graph_sym; exact S1 | exact S2].
Qed.

End MoreProperties.

(** * Further results *)

(** ** Construction *)

(** X1: when a dependency names no suite of the plan, construction fails
    with the unknown-dependency [ValueError] for the first such pair, in
    the order of the suites and, within a suite, of its dependency list;
    the pair named is a declared dependency that is no suite name. *)
Theorem unknown_dependency_is_reported_first {SO : SetOrder} {CS : CallStack}
  (p : TestPlan) (s d : string) :
  first_unknown (suite_names p) (suites p) = Some (s, d) ->
  __init__ p = Raise (ValueError (unknown_msg s d)) /\
  exists t, In t (suites p) /\ name t = s /\ In d (dependencies t) /\
            ~ In d (suite_names p).
Proof.
  intros H. split; [now apply init_first_unknown | now apply first_unknown_spec].
Qed.

Lemma unknown_dependency_is_reported_first_witness :
  __init__ cycle_with_unknown = Raise (ValueError (unknown_msg "A" "Z")) /\
  exists t, In t (suites cycle_with_unknown) /\ name t = "A"%string /\
            In "Z"%string (dependencies t) /\
            ~ In "Z"%string (suite_names cycle_with_unknown).
Proof.
  apply (unknown_dependency_is_reported_first cycle_with_unknown "A" "Z").
  reflexivity.
Defined.

(** X2: the outcomes of construction. A graph is returned only for a plan
    whose dependencies all name suites of the plan and whose dependency
    relation has no cycle, and it is returned for every such plan that has
    at most as many suites as the stack has frames for [dfs]. Construction
    never ends in a [KeyError], and it ends in [RecursionError] only on a
    plan with valid references and more suites than the stack has room
    for. *)
Theorem construction_outcomes {SO : SetOrder} {CS : CallStack} (p : TestPlan) :
  (forall g, __init__ p = Ok g -> valid_references p /\ acyclic p) /\
  (valid_references p -> acyclic p -> List.length (suites p) <= dfs_frames ->
   exists g, __init__ p = Ok g) /\
  (forall k, __init__ p <> Raise (KeyError k)) /\
  (__init__ p = Raise RecursionError ->
   valid_references p /\ dfs_frames < List.length (suites p)).
Proof.
  split; [apply init_ok_valid|]. split.
  { intros Hv Ha Hroom. now apply (init_ok_iff p Hroom). }
  pose proof (init_spec p) as H.
  destruct (__init__ p) as [g|e|]; simpl in H.
  - split; [intros k|]; discriminate.
  - split.
    + intros k Hk. injection Hk as ->.
      destruct H as [(_ & s & d & _ & _ & _ & He)|[(_ & c & He & _)|(_ & He & _)]];
        discriminate.
    + intros He. injection He as ->.
      destruct H as [(_ & s & d & _ & _ & _ & He)|[(_ & c & He & _)|(Hv & _ & Hlt)]];
        [discriminate | discriminate | auto].
  - destruct H.
Qed.

Lemma construction_outcomes_witness :
  (exists g, __init__ diamond = Ok g) /\
  (valid_references deep_chain /\ 2 < List.length (suites deep_chain)).
Proof.
  split.
  - apply (construction_outcomes diamond).
    + exact diamond_valid.
    + exact diamond_acyclic.
    + simpl. lia.
  - apply (@construction_outcomes insertion_order shallow_stack deep_chain).
    reflexivity.
Defined.

(** The stack can stop the construction of a plan that is valid and
    acyclic: with room for two frames, the line of three suites listed from
    its dependent end is traversed three frames deep. Listed from the other
    end it is constructed, each traversal finding its dependency finished. *)
Example deep_chain_exhausts_stack :
  valid_references deep_chain /\ acyclic deep_chain /\
  @__init__ insertion_order shallow_stack deep_chain = Raise RecursionError /\
  exists g,
    @__init__ insertion_order shallow_stack
      (mk_plan [mk_suite "A" []; mk_suite "B" ["A"]; mk_suite "C" ["B"]]%string)
    = Ok g.
Proof.
  split; [apply valid_references_by_names; reflexivity|].
  split; [apply (init_ok_valid deep_chain (built deep_chain)); reflexivity|].
  split; [reflexivity|]. eexists. reflexivity.
Qed.

(** X3: in every runtime state of a constructed graph the two edge sets are
    inverse to each other ([b] is a dependency of [a] exactly when [a] is a
    dependent of [b]), every dependency and every dependent is a node of the
    graph, and no node depends on itself. *)
Theorem built_edges_are_inverse {SO : SetOrder} {CS : CallStack}
  (p : TestPlan) (g0 g : DAGBuilder) :
  __init__ p = Ok g0 -> runtime g0 g ->
  (forall a na b nb,
     dict_get a (nodes g) = Some na -> dict_get b (nodes g) = Some nb ->
     (In b (node_dependencies na) <-> In a (dependents nb))) /\
  (forall a na b,
     dict_get a (nodes g) = Some na -> In b (node_dependencies na) ->
     In b (dict_keys (nodes g)) /\ b <> a) /\
  (forall b nb a,
     dict_get b (nodes g) = Some nb -> In a (dependents nb) ->
     In a (dict_keys (nodes g))).
Proof.
  intros Hinit Hrt. destruct (runtime_graph p g0 g Hinit Hrt) as (_ & G & _ & rank & Hr).
  assert (forall a na, dict_get a (nodes g) = Some na ->
                       deps_of (nodes g) a = node_dependencies na) as Hd
    by (intros a na H; unfold deps_of; now rewrite H).
  assert (forall a na, dict_get a (nodes g) = Some na ->
                       rdeps_of (nodes g) a = dependents na) as Hrd
    by (intros a na H; unfold rdeps_of; now rewrite H).
  split; [|split].
  - intros a na b nb Ha Hb. rewrite <- (Hd a na Ha), <- (Hrd b nb Hb).
    now rewrite (g_deps _ _ G), (g_rdeps _ _ G).
  - intros a na b Ha Hin. rewrite <- (Hd a na Ha) in Hin. split.
    + eapply graph_edge_closed; eauto.
    + intros ->. apply (g_deps _ _ G) in Hin. apply Hr in Hin. lia.
  - intros b nb a Hb Hin. rewrite <- (Hrd b nb Hb) in Hin.
    apply (g_rdeps _ _ G) in Hin. destruct Hin as (s & Hs & <- & _).
    apply (g_keys _ _ G). unfold suite_names. now apply in_map.
Qed.

Lemma built_edges_are_inverse_witness :
  (forall a na b nb,
     dict_get a (nodes (built diamond)) = Some na ->
     dict_get b (nodes (built diamond)) = Some nb ->
     (In b (node_dependencies na) <-> In a (dependents nb))) /\
  (forall a na b,
     dict_get a (nodes (built diamond)) = Some na -> In b (node_dependencies na) ->
     In b (dict_keys (nodes (built diamond))) /\ b <> a) /\
  (forall b nb a,
     dict_get b (nodes (built diamond)) = Some nb -> In a (dependents nb) ->
     In a (dict_keys (nodes (built diamond)))).
Proof.
  apply (built_edges_are_inverse diamond (built diamond) (built diamond)).
  - reflexivity.
  - apply rt_built.
Defined.

(** X4: when the suite names of the plan are distinct, [get_suite] returns,
    in every runtime state, each descriptor of the plan under its name, and
    [None] for a name that is not in the plan. *)
Theorem get_suite_returns_descriptor {SO : SetOrder} {CS : CallStack}
  (p : TestPlan) (g0 g : DAGBuilder) :
  __init__ p = Ok g0 -> runtime g0 g -> NoDup (suite_names p) ->
  (forall s, In s (suites p) -> get_suite g (name s) = Some s) /\
  (forall nm, ~ In nm (suite_names p) -> get_suite g nm = None).
Proof.
  intros Hinit Hrt Hnd. destruct (runtime_graph p g0 g Hinit Hrt) as (_ & G & _ & _).
  split.
  - intros s Hs. unfold get_suite.
    assert (In (name s) (dict_keys (nodes g))) as Hk
      by (apply (g_keys _ _ G); unfold suite_names; now apply in_map).
    destruct (in_keys_get _ _ Hk) as [n Hn]. rewrite Hn. simpl. f_equal.
    pose proof (g_suite _ _ G _ _ Hn) as Hl.
    rewrite (last_named_unique (suites p) s Hnd Hs) in Hl. congruence.
  - intros nm Hnm. unfold get_suite.
    rewrite (proj2 (dict_get_none_not_in nm (nodes g))); [reflexivity|].
    now rewrite (g_keys _ _ G).
Qed.

Lemma get_suite_returns_descriptor_witness :
  (forall s, In s (suites chain) -> get_suite (built chain) (name s) = Some s) /\
  (forall nm, ~ In nm (suite_names chain) -> get_suite (built chain) nm = None).
Proof.
  apply (get_suite_returns_descriptor chain (built chain) (built chain)).
  - reflexivity.
  - apply rt_built.
  - vm_compute. repeat constructor; simpl; intuition discriminate.
Defined.

(** X5: in every runtime state, [get_dependencies] lists without repetition
    exactly the dependencies that the descriptors of that name declare (a
    dependency declared twice is listed once; an unknown name gives the
    empty list). *)
Theorem get_dependencies_lists_declared {SO : SetOrder} {CS : CallStack}
  (p : TestPlan) (g0 g : DAGBuilder) (nm : string) :
  __init__ p = Ok g0 -> runtime g0 g ->
  NoDup (get_dependencies g nm) /\
  (forall d, In d (get_dependencies g nm) <-> plan_edge p nm d) /\
  (~ In nm (suite_names p) -> get_dependencies g nm = []).
Proof.
  intros Hinit Hrt. destruct (runtime_graph p g0 g Hinit Hrt) as (_ & G & _ & _).
  split; [|split].
  - unfold get_dependencies. destruct (dict_get nm (nodes g)) as [n|] eqn:E; [|constructor].
    eapply Permutation_NoDup; [apply Permutation_sym, set_iter_perm|].
    pose proof (proj1 (g_sets _ _ G nm)) as H. unfold deps_of in H. now rewrite E in H.
  - intros d. rewrite get_dependencies_in. apply (g_deps _ _ G).
  - intros Hnm. unfold get_dependencies.
    rewrite (proj2 (dict_get_none_not_in nm (nodes g))); [reflexivity|].
    now rewrite (g_keys _ _ G).
Qed.

Lemma get_dependencies_lists_declared_witness :
  NoDup (get_dependencies (built diamond) "D") /\
  (forall d, In d (get_dependencies (built diamond) "D") <-> plan_edge diamond "D" d) /\
  (~ In "D"%string (suite_names diamond) -> get_dependencies (built diamond) "D" = []).
Proof.
  apply (get_dependencies_lists_declared diamond (built diamond) (built diamond) "D").
  - reflexivity.
  - apply rt_built.
Defined.

(** X6: the nodes are kept in the order in which the suite names first
    occur in the plan, one node per name, and no runtime operation changes
    the keys or their order. *)
Theorem nodes_follow_first_occurrence {SO : SetOrder} {CS : CallStack}
  (p : TestPlan) (g0 g : DAGBuilder) :
  __init__ p = Ok g0 -> runtime g0 g ->
  dict_keys (nodes g) = first_occurrences [] (suite_names p) /\
  NoDup (dict_keys (nodes g)) /\
  (forall k, In k (dict_keys (nodes g)) <-> In k (suite_names p)).
Proof.
  intros Hinit Hrt. destruct (runtime_graph p g0 g Hinit Hrt) as (_ & G & S & _).
  split; [|split].
  - rewrite (proj1 S). now apply init_key_order.
  - apply (g_nodup _ _ G).
  - apply (g_keys _ _ G).
Qed.

Lemma nodes_follow_first_occurrence_witness :
  dict_keys (nodes (mark_executed "A" "passed" (built duplicated)))
  = first_occurrences [] (suite_names duplicated) /\
  NoDup (dict_keys (nodes (mark_executed "A" "passed" (built duplicated)))) /\
  (forall k, In k (dict_keys (nodes (mark_executed "A" "passed" (built duplicated))))
             <-> In k (suite_names duplicated)).
Proof.
  apply (nodes_follow_first_occurrence duplicated (built duplicated)).
  - reflexivity.
  - apply rt_mark, rt_built.
Defined.

(** X7: a cycle is reported as a simple loop. For a plan with valid
    references and a cycle, construction raises the circular-dependency
    error with a path that starts and ends at the same name, follows
    declared dependencies, and repeats no name apart from that closing
    one; or else, when the traversal exhausts the stack first, it raises
    [RecursionError], which it does not when the stack has room for one
    frame of [dfs] per suite. *)
Theorem reported_cycle_is_simple {SO : SetOrder} {CS : CallStack} (p : TestPlan) :
  valid_references p -> has_cycle p ->
  (__init__ p = Raise RecursionError \/
   exists x mid,
     __init__ p = Raise (ValueError (cycle_msg (x :: mid ++ [x]))) /\
     consecutive (plan_edge p) (x :: mid ++ [x]) /\
     NoDup (x :: mid)) /\
  (List.length (suites p) <= dfs_frames -> __init__ p <> Raise RecursionError).
Proof.
  intros Hv Hc. destruct (init_cyclic p Hv Hc) as [[E|(e & E & x & mid & -> & H)] Hroom].
  - split; [now left | exact Hroom].
  - split; [right; exists x, mid; auto | exact Hroom].
Qed.

Lemma reported_cycle_is_simple_witness :
  exists x mid,
    __init__ two_cycle_plan = Raise (ValueError (cycle_msg (x :: mid ++ [x]))) /\
    consecutive (plan_edge two_cycle_plan) (x :: mid ++ [x]) /\
    NoDup (x :: mid).
Proof.
  destruct (reported_cycle_is_simple two_cycle_plan two_cycle_valid two_cycle_has_cycle)
    as [[E|H] Hroom].
  - exfalso. apply Hroom; [simpl; lia | exact E].
  - exact H.
Defined.

(** ** Readiness *)

(** X8: in every runtime state [get_ready_suites] returns, in the order of
    the nodes, exactly the names that are unexecuted and whose dependencies
    are all executed; it raises nothing. *)
Theorem get_ready_suites_lists_ready_nodes {SO : SetOrder} {CS : CallStack}
  (p : TestPlan) (g0 g : DAGBuilder) :
  __init__ p = Ok g0 -> runtime g0 g ->
  get_ready_suites g
  = Ok (filter (ready_now (nodes g)) (first_occurrences [] (suite_names p))) /\
  forall nm,
    ready_now (nodes g) nm = true <->
    flag_of (nodes g) nm = false /\
    forall d, In d (get_dependencies g nm) -> flag_of (nodes g) d = true.
Proof.
  intros Hinit Hrt. destruct (runtime_graph p g0 g Hinit Hrt) as (_ & G & S & _).
  split.
  - rewrite (get_ready_suites_spec p g G), (proj1 S). now rewrite (init_key_order p g0).
  - intros nm. rewrite ready_now_true. split; intros [Hf Hd]; (split; [exact Hf|]);
      intros d Hin; apply Hd; now apply get_dependencies_in.
Qed.

Lemma get_ready_suites_lists_ready_nodes_witness :
  get_ready_suites (mark_executed "A" "failed" (built diamond))
  = Ok (filter (ready_now (nodes (mark_executed "A" "failed" (built diamond))))
          (first_occurrences [] (suite_names diamond))) /\
  forall nm,
    ready_now (nodes (mark_executed "A" "failed" (built diamond))) nm = true <->
    flag_of (nodes (mark_executed "A" "failed" (built diamond))) nm = false /\
    forall d, In d (get_dependencies (mark_executed "A" "failed" (built diamond)) nm) ->
              flag_of (nodes (mark_executed "A" "failed" (built diamond))) d = true.
Proof.
  apply (get_ready_suites_lists_ready_nodes diamond (built diamond)).
  - reflexivity.
  - apply rt_mark, rt_built.
Defined.

(** X9: no deadlock. In every runtime state, [get_ready_suites] returns
    the empty list exactly when every node is executed: as long as a suite
    is unexecuted, some suite is ready. *)
Theorem ready_suites_empty_iff_all_executed {SO : SetOrder} {CS : CallStack}
  (p : TestPlan) (g0 g : DAGBuilder) :
  __init__ p = Ok g0 -> runtime g0 g ->
  exists ready,
    get_ready_suites g = Ok ready /\
    (ready = [] <-> forall k, In k (dict_keys (nodes g)) -> flag_of (nodes g) k = true).
Proof.
  intros Hinit Hrt. destruct (runtime_graph p g0 g Hinit Hrt) as (_ & G & _ & rank & Hr).
  eexists. split; [apply (get_ready_suites_spec p g G)|]. split.
  - intros He k Hk. destruct (flag_of (nodes g) k) eqn:Ef; [reflexivity|]. exfalso.
    destruct (some_node_ready p (nodes g) rank G Hr k Hk Ef) as (nm & Hnm & Hready).
    assert (In nm (filter (ready_now (nodes g)) (dict_keys (nodes g)))) as Hin
      by (apply filter_In; auto).
    rewrite He in Hin. destruct Hin.
  - intros Hall. destruct (filter _ _) as [|x r] eqn:E; [reflexivity|]. exfalso.
    assert (In x (filter (ready_now (nodes g)) (dict_keys (nodes g)))) as Hin
      by (rewrite E; now left).
    apply filter_In in Hin as [Hk Hready]. apply ready_now_true in Hready as [Hf _].
    rewrite (Hall x Hk) in Hf. discriminate.
Qed.

Lemma ready_suites_empty_iff_all_executed_witness :
  exists ready,
    get_ready_suites (mark_executed "B" "passed" (built chain)) = Ok ready /\
    (ready = [] <->
     forall k, In k (dict_keys (nodes (mark_executed "B" "passed" (built chain)))) ->
               flag_of (nodes (mark_executed "B" "passed" (built chain))) k = true).
Proof.
  apply (ready_suites_empty_iff_all_executed chain (built chain)).
  - reflexivity.
  - apply rt_mark, rt_built.
Defined.

(** X10: marking the node [d] executed removes [d] from the ready suites,
    keeps every other ready suite ready, and makes newly ready only
    dependents of [d]. *)
Theorem mark_executed_readies_only_dependents {SO : SetOrder} {CS : CallStack}
  (p : TestPlan) (g0 g : DAGBuilder) (d st : string) (nd : DAGNode) :
  __init__ p = Ok g0 -> runtime g0 g -> dict_get d (nodes g) = Some nd ->
  exists ready ready',
    get_ready_suites g = Ok ready /\
    get_ready_suites (mark_executed d st g) = Ok ready' /\
    ~ In d ready' /\
    (forall nm, In nm ready -> nm <> d -> In nm ready') /\
    (forall nm, In nm ready' -> In nm ready \/ In nm (dependents nd)).
Proof.
  intros Hinit Hrt Hd. destruct (runtime_graph p g0 g Hinit Hrt) as (_ & G & _ & _).
  assert (In d (dict_keys (nodes g))) as Hdk by (eapply dict_get_some_in_keys; eauto).
  pose proof (mark_executed_same_graph d st g) as S.
  pose proof (graph_of_same p _ _ G S) as G'.
  exists (filter (ready_now (nodes g)) (dict_keys (nodes g))),
         (filter (ready_now (nodes (mark_executed d st g))) (dict_keys (nodes g))).
  split; [apply (get_ready_suites_spec p g G)|].
  split; [rewrite (get_ready_suites_spec p _ G'), (proj1 S); reflexivity|].
  split; [|split].
  - intros Hin. apply filter_In in Hin as [_ Hr].
    destruct (newly_ready_are_dependents p g d st d G Hdk Hr) as [Hne _]. congruence.
  - intros nm Hin Hne. apply filter_In in Hin as [Hk Hr]. apply filter_In.
    split; [exact Hk|]. apply ready_now_true in Hr as [Hf Hdeps]. apply ready_now_true.
    split.
    + rewrite mark_executed_flag by exact Hdk.
      destruct (String.eqb_spec nm d); [congruence | exact Hf].
    + intros x Hx. rewrite (proj1 (proj2 S nm)) in Hx.
      apply mark_executed_flag_mono. now apply Hdeps.
  - intros nm Hin. apply filter_In in Hin as [Hk Hr].
    destruct (newly_ready_are_dependents p g d st nm G Hdk Hr) as [_ [H|H]].
    + left. apply filter_In. auto.
    + right. unfold rdeps_of in H. now rewrite Hd in H.
Qed.

Lemma mark_executed_readies_only_dependents_witness :
  exists ready ready',
    get_ready_suites (built diamond) = Ok ready /\
    get_ready_suites (mark_executed "A" "passed" (built diamond)) = Ok ready' /\
    ~ In "A"%string ready' /\
    (forall nm, In nm ready -> nm <> "A"%string -> In nm ready') /\
    (forall nm, In nm ready' ->
       In nm ready \/
       In nm (dependents
                {| suite := mk_suite "A" []; node_dependencies := [];
                   dependents := ["B"; "C"]%string; executed := false; status := None |})).
Proof.
  apply (mark_executed_readies_only_dependents diamond (built diamond) (built diamond)
           "A" "passed").
  - reflexivity.
  - apply rt_built.
  - reflexivity.
Defined.

(** X11: on a freshly constructed graph [get_ready_suites] returns the
    first group of [get_execution_order] (the empty list for an empty plan). *)
Theorem fresh_ready_suites_are_first_group {SO : SetOrder} {CS : CallStack}
  (p : TestPlan) (g0 : DAGBuilder) :
  __init__ p = Ok g0 ->
  exists groups g',
    get_execution_order g0 = Ok (groups, g') /\
    get_ready_suites g0 = Ok (hd [] groups).
Proof.
  intros Hinit. pose proof (init_spec p) as Hi. rewrite Hinit in Hi.
  destruct Hi as (_ & G & F & Hrank).
  pose proof (get_execution_order_spec p g0 G Hrank) as Ho.
  unfold get_execution_order in *.
  destruct (schedule _ _ []) as [[ns' gs]|e|] eqn:Hs; cbn [bind fst snd] in *;
    try contradiction.
  destruct (unexecuted_names ns'); [|contradiction].
  exists gs, (with_nodes g0 ns'). split; [reflexivity|].
  destruct (schedule_prefix _ _ _ _ _ Hs) as (rest & -> & Hhd). simpl in Hhd |- *.
  rewrite Hhd, (get_ready_suites_spec p g0 G). f_equal.
  apply (fresh_ready_is_zero_degree (nodes g0) F (nodes g0)).
  intros k n. apply in_dict_get. apply (g_nodup _ _ G).
Qed.

Lemma fresh_ready_suites_are_first_group_witness :
  exists groups g',
    get_execution_order (built diamond) = Ok (groups, g') /\
    get_ready_suites (built diamond) = Ok (hd [] groups).
Proof.
  apply (fresh_ready_suites_are_first_group diamond (built diamond)). reflexivity.
Defined.

(** ** Marking *)

(** X12: [mark_executed] on a node of the graph sets the flag and the
    status of that node and of no other; the plan, the keys and their
    order, and the suite and both edge sets of every node stay as they are. *)
Theorem mark_executed_changes_one_node (self : DAGBuilder) (nm st : string) :
  In nm (dict_keys (nodes self)) ->
  plan (mark_executed nm st self) = plan self /\
  dict_keys (nodes (mark_executed nm st self)) = dict_keys (nodes self) /\
  flag_of (nodes (mark_executed nm st self)) nm = true /\
  status_of (nodes (mark_executed nm st self)) nm = Some st /\
  (forall k, k <> nm ->
     dict_get k (nodes (mark_executed nm st self)) = dict_get k (nodes self)) /\
  (forall k, deps_of (nodes (mark_executed nm st self)) k = deps_of (nodes self) k /\
             rdeps_of (nodes (mark_executed nm st self)) k = rdeps_of (nodes self) k /\
             get_suite (mark_executed nm st self) k = get_suite self k).
Proof.
  intros H. pose proof (mark_executed_same_graph nm st self) as [K S].
  split; [apply mark_executed_plan|]. split; [exact K|].
  split; [rewrite mark_executed_flag by exact H; now rewrite String.eqb_refl|].
  split; [rewrite mark_executed_status by exact H; now rewrite String.eqb_refl|].
  split.
  - intros k Hk. unfold mark_executed. destruct (dict_get nm (nodes self)); [|reflexivity].
    simpl. apply dict_get_set_other. congruence.
  - intros k. destruct (S k) as (A & B & C). auto.
Qed.

Lemma mark_executed_changes_one_node_witness :
  plan (mark_executed "A" "passed" (built chain)) = plan (built chain) /\
  dict_keys (nodes (mark_executed "A" "passed" (built chain)))
  = dict_keys (nodes (built chain)) /\
  flag_of (nodes (mark_executed "A" "passed" (built chain))) "A" = true /\
  status_of (nodes (mark_executed "A" "passed" (built chain))) "A" = Some "passed"%string /\
  (forall k, k <> "A"%string ->
     dict_get k (nodes (mark_executed "A" "passed" (built chain)))
     = dict_get k (nodes (built chain))) /\
  (forall k, deps_of (nodes (mark_executed "A" "passed" (built chain))) k
             = deps_of (nodes (built chain)) k /\
             rdeps_of (nodes (mark_executed "A" "passed" (built chain))) k
             = rdeps_of (nodes (built chain)) k /\
             get_suite (mark_executed "A" "passed" (built chain)) k
             = get_suite (built chain) k).
Proof.
  apply (mark_executed_changes_one_node (built chain) "A" "passed").
  vm_compute. now left.
Defined.

(** X13: completions of two different suites can be reported in either
    order: the resulting builder is the same. *)
Theorem mark_executed_commutes (self : DAGBuilder) (a sa b sb : string) :
  a <> b ->
  mark_executed a sa (mark_executed b sb self)
  = mark_executed b sb (mark_executed a sa self).
Proof. intros H. now apply mark_executed_comm. Qed.

Lemma mark_executed_commutes_witness :
  mark_executed "B" "failed" (mark_executed "C" "passed" (built diamond))
  = mark_executed "C" "passed" (mark_executed "B" "failed" (built diamond)).
Proof.
  apply (mark_executed_commutes (built diamond) "B" "failed" "C" "passed"). discriminate.
Defined.

(** X14: execution is one-way. Along any further runtime steps a flag that
    is set stays set, and a suite for which [is_ready] answers true keeps
    that answer. *)
Theorem execution_flags_are_never_reset {SO : SetOrder} {CS : CallStack}
  (p : TestPlan) (g0 g g' : DAGBuilder) :
  __init__ p = Ok g0 -> runtime g0 g -> runtime g g' ->
  (forall k, flag_of (nodes g) k = true -> flag_of (nodes g') k = true) /\
  (forall nm, is_ready g nm = Ok true -> is_ready g' nm = Ok true).
Proof.
  intros Hinit H0 H.
  assert (forall k, flag_of (nodes g) k = true -> flag_of (nodes g') k = true) as Hmono
    by (intros k; now apply (runtime_flags_mono p g0 g g' k)).
  split; [exact Hmono|]. intros nm Hr.
  pose proof (runtime_trans _ _ _ H0 H) as H0'.
  destruct (runtime_graph p g0 g Hinit H0) as (_ & G & _ & _).
  destruct (runtime_graph p g0 g' Hinit H0') as (_ & G' & _ & _).
  pose proof (runtime_same_graph p g0 g g' Hinit H0 H0') as S.
  assert (In nm (dict_keys (nodes g))) as Hk.
  { unfold is_ready in Hr. destruct (dict_get nm (nodes g)) eqn:E; [|discriminate].
    eapply dict_get_some_in_keys; eauto. }
  rewrite (is_ready_value p g nm G Hk) in Hr. injection Hr as Hr.
  rewrite (is_ready_value p g' nm G') by (now rewrite (proj1 S)).
  f_equal. rewrite forallb_forall in *. intros d Hd.
  rewrite (proj1 (proj2 S nm)) in Hd. auto.
Qed.

Lemma execution_flags_are_never_reset_witness :
  (forall k, flag_of (nodes (mark_executed "A" "passed" (built chain))) k = true ->
             flag_of (nodes (mark_executed "B" "failed"
                               (mark_executed "A" "passed" (built chain)))) k = true) /\
  (forall nm, is_ready (mark_executed "A" "passed" (built chain)) nm = Ok true ->
              is_ready (mark_executed "B" "failed"
                          (mark_executed "A" "passed" (built chain))) nm = Ok true).
Proof.
  apply (execution_flags_are_never_reset chain (built chain)).
  - reflexivity.
  - apply rt_mark, rt_built.
  - apply rt_mark, rt_built.
Defined.

(** X15: in every runtime state a node with a recorded status has its
    execution flag set. *)
Theorem recorded_status_implies_executed {SO : SetOrder} {CS : CallStack}
  (p : TestPlan) (g0 g : DAGBuilder) (k st : string) :
  __init__ p = Ok g0 -> runtime g0 g ->
  status_of (nodes g) k = Some st -> flag_of (nodes g) k = true.
Proof.
  intros Hinit Hrt Hs. apply (runtime_status_implies_flag p g0 g k Hinit Hrt). congruence.
Qed.

Lemma recorded_status_implies_executed_witness :
  flag_of (nodes (mark_executed "A" "error" (built chain))) "A" = true.
Proof.
  apply (recorded_status_implies_executed chain (built chain)
           (mark_executed "A" "error" (built chain)) "A" "error").
  - reflexivity.
  - apply rt_mark, rt_built.
  - reflexivity.
Defined.

(** ** The static plan *)

(** X16: the static plan does not depend on what has been executed: in any
    two runtime states of a constructed graph [get_execution_order] returns
    the same groups, and [get_parallel_groups] the same result for the same
    ceiling. *)
Theorem execution_order_is_state_independent {SO : SetOrder} {CS : CallStack}
  (p : TestPlan) (g0 g1 g2 : DAGBuilder) (max_parallel : Z) :
  __init__ p = Ok g0 -> runtime g0 g1 -> runtime g0 g2 ->
  groups_of (get_execution_order g1) = groups_of (get_execution_order g2) /\
  groups_of (get_parallel_groups g1 max_parallel)
  = groups_of (get_parallel_groups g2 max_parallel).
Proof.
  intros Hinit H1 H2.
  destruct (runtime_graph p g0 g1 Hinit H1) as (_ & G1 & _ & Hrank).
  destruct (runtime_graph p g0 g2 Hinit H2) as (_ & G2 & _ & _).
  pose proof (get_execution_order_spec p g1 G1 Hrank) as O1.
  pose proof (get_execution_order_spec p g2 G2 Hrank) as O2.
  pose proof (execution_order_same p g1 g2 G1 (runtime_same_graph p g0 g1 g2 Hinit H1 H2))
    as Hs.
  unfold get_parallel_groups, groups_of.
  destruct (get_execution_order g1) as [[gs1 s1]|e1|]; try contradiction.
  destruct (get_execution_order g2) as [[gs2 s2]|e2|]; try contradiction.
  destruct Hs as [Hs|[[r Hr]|[r Hr]]]; try discriminate.
  simpl in Hs. subst gs2. cbn [bind fst snd]. split; [reflexivity|].
  destruct (split_groups max_parallel gs1); reflexivity.
Qed.

Lemma execution_order_is_state_independent_witness :
  groups_of (get_execution_order (built diamond))
  = groups_of (get_execution_order (mark_executed "B" "failed" (built diamond))) /\
  groups_of (get_parallel_groups (built diamond) 1)
  = groups_of (get_parallel_groups (mark_executed "B" "failed" (built diamond)) 1).
Proof.
  apply (execution_order_is_state_independent diamond (built diamond)).
  - reflexivity.
  - apply rt_built.
  - apply rt_mark, rt_built.
Defined.

(** X17: the levels are as early as possible. In the groups returned by
    [get_execution_order], the members of the first group have no
    dependency, and every member of a later group has a dependency in the
    group just before it. *)
Theorem execution_order_levels_are_tight {SO : SetOrder} {CS : CallStack}
  (p : TestPlan) (g0 g : DAGBuilder) :
  __init__ p = Ok g0 -> runtime g0 g ->
  exists groups g',
    get_execution_order g = Ok (groups, g') /\
    (forall first v d, nth_error groups 0 = Some first -> In v first -> ~ plan_edge p v d) /\
    (forall i prev next v,
       nth_error groups i = Some prev -> nth_error groups (S i) = Some next ->
       In v next -> exists d, In d prev /\ plan_edge p v d).
Proof.
  intros Hinit Hrt. destruct (runtime_graph p g0 g Hinit Hrt) as (_ & G & _ & Hrank).
  pose proof (get_execution_order_spec p g G Hrank) as Ho.
  destruct (get_execution_order g) as [[groups g']|e|] eqn:Hord; try contradiction.
  exists groups, g'. split; [reflexivity|].
  exact (get_execution_order_tight p g groups g' G Hord).
Qed.

Lemma execution_order_levels_are_tight_witness :
  exists groups g',
    get_execution_order (built diamond) = Ok (groups, g') /\
    (forall first v d, nth_error groups 0 = Some first -> In v first ->
                       ~ plan_edge diamond v d) /\
    (forall i prev next v,
       nth_error groups i = Some prev -> nth_error groups (S i) = Some next ->
       In v next -> exists d, In d prev /\ plan_edge diamond v d).
Proof.
  apply (execution_order_levels_are_tight diamond (built diamond) (built diamond)).
  - reflexivity.
  - apply rt_built.
Defined.

(** X18: [get_execution_order] returns no empty group and at most as many
    groups as there are nodes; it returns no group at all exactly for a
    plan without suites. *)
Theorem execution_order_groups_are_bounded {SO : SetOrder} {CS : CallStack}
  (p : TestPlan) (g0 g : DAGBuilder) :
  __init__ p = Ok g0 -> runtime g0 g ->
  exists groups g',
    get_execution_order g = Ok (groups, g') /\
    Forall (fun grp => grp <> []) groups /\
    List.length groups <= List.length (nodes g) /\
    (groups = [] <-> suites p = []).
Proof.
  intros Hinit Hrt. destruct (runtime_graph p g0 g Hinit Hrt) as (_ & G & _ & Hrank).
  pose proof (get_execution_order_spec p g G Hrank) as Ho.
  destruct (get_execution_order g) as [[groups g']|e|]; try contradiction.
  destruct Ho as (_ & _ & _ & _ & Hperm & _ & Hne).
  exists groups, g'. split; [reflexivity|]. split; [exact Hne|]. split; [|split].
  - pose proof (nonempty_groups_length groups Hne) as Hl.
    rewrite (Permutation_length Hperm) in Hl. unfold dict_keys in Hl.
    now rewrite length_map in Hl.
  - intros ->. simpl in Hperm. apply Permutation_nil in Hperm.
    destruct (suites p) as [|s ss] eqn:E; [reflexivity|]. exfalso.
    assert (In (name s) (dict_keys (nodes g))) as Hin
      by (apply (g_keys _ _ G); unfold suite_names; rewrite E; now left).
    rewrite Hperm in Hin. destruct Hin.
  - intros Hs. destruct groups as [|grp groups]; [reflexivity|]. exfalso.
    inversion Hne as [|? ? Hgrp _]; subst. destruct grp as [|x grp]; [congruence|].
    assert (In x (suite_names p)) as Hin.
    { apply (g_keys _ _ G). eapply Permutation_in; [exact Hperm|]. simpl. now left. }
    unfold suite_names in Hin. rewrite Hs in Hin. destruct Hin.
Qed.

Lemma execution_order_groups_are_bounded_witness :
  exists groups g',
    get_execution_order (built diamond) = Ok (groups, g') /\
    Forall (fun grp => grp <> []) groups /\
    List.length groups <= List.length (nodes (built diamond)) /\
    (groups = [] <-> suites diamond = []).
Proof.
  apply (execution_order_groups_are_bounded diamond (built diamond) (built diamond)).
  - reflexivity.
  - apply rt_built.
Defined.

(** ** Statistics *)

(** X19: in every runtime state [get_stats] returns the four entries
    [total_suites], [executed], [pending] and [parallel_groups], where the
    total is the number of nodes, [executed] counts the flags set when the
    call is made and lies between 0 and the total, [pending] is their
    difference, and [parallel_groups] is the number of groups of
    [get_execution_order], at most the total. *)
Theorem get_stats_counts {SO : SetOrder} {CS : CallStack}
  (p : TestPlan) (g0 g : DAGBuilder) :
  __init__ p = Ok g0 -> runtime g0 g ->
  exists groups g',
    get_execution_order g = Ok (groups, g') /\
    get_stats g
    = Ok ([("total_suites"%string, Z.of_nat (List.length (nodes g)));
           ("executed"%string, count_executed (nodes g));
           ("pending"%string, (Z.of_nat (List.length (nodes g)) - count_executed (nodes g))%Z);
           ("parallel_groups"%string, Z.of_nat (List.length groups))], g') /\
    (0 <= count_executed (nodes g) <= Z.of_nat (List.length (nodes g)))%Z /\
    List.length groups <= List.length (nodes g) /\
    List.length (nodes g) = List.length (first_occurrences [] (suite_names p)).
Proof.
  intros Hinit Hrt. destruct (runtime_graph p g0 g Hinit Hrt) as (_ & G & S & Hrank).
  pose proof (get_execution_order_spec p g G Hrank) as Ho. unfold get_stats.
  destruct (get_execution_order g) as [[groups g']|e|]; try contradiction.
  destruct Ho as (_ & _ & _ & _ & Hperm & _ & Hne).
  exists groups, g'. split; [reflexivity|]. split; [reflexivity|].
  split; [apply count_executed_bounds|]. split.
  - pose proof (nonempty_groups_length groups Hne) as Hl.
    rewrite (Permutation_length Hperm) in Hl. unfold dict_keys in Hl.
    now rewrite length_map in Hl.
  - rewrite <- (init_key_order p g0 Hinit), <- (proj1 S). unfold dict_keys.
    now rewrite length_map.
Qed.

Lemma get_stats_counts_witness :
  exists groups g',
    get_execution_order (mark_executed "A" "passed" (built diamond)) = Ok (groups, g') /\
    get_stats (mark_executed "A" "passed" (built diamond))
    = Ok ([("total_suites"%string,
            Z.of_nat (List.length (nodes (mark_executed "A" "passed" (built diamond)))));
           ("executed"%string,
            count_executed (nodes (mark_executed "A" "passed" (built diamond))));
           ("pending"%string,
            (Z.of_nat (List.length (nodes (mark_executed "A" "passed" (built diamond))))
             - count_executed (nodes (mark_executed "A" "passed" (built diamond))))%Z);
           ("parallel_groups"%string, Z.of_nat (List.length groups))], g') /\
    (0 <= count_executed (nodes (mark_executed "A" "passed" (built diamond)))
       <= Z.of_nat (List.length (nodes (mark_executed "A" "passed" (built diamond)))))%Z /\
    List.length groups <= List.length (nodes (mark_executed "A" "passed" (built diamond))) /\
    List.length (nodes (mark_executed "A" "passed" (built diamond)))
    = List.length (first_occurrences [] (suite_names diamond)).
Proof.
  apply (get_stats_counts diamond (built diamond)).
  - reflexivity.
  - apply rt_mark, rt_built.
Defined.

(** X20: on a freshly constructed graph [get_stats] reports no executed
    suite; in the state that a call of [get_execution_order] leaves behind
    (and so after [get_parallel_groups] or [get_stats], which call it),
    [get_stats] reports every suite as executed and none pending, whether
    or not a completion was ever reported. *)
Theorem get_stats_after_scheduling {SO : SetOrder} {CS : CallStack}
  (p : TestPlan) (g0 g : DAGBuilder) :
  __init__ p = Ok g0 -> runtime g0 g ->
  (exists stats0 s0,
     get_stats g0 = Ok (stats0, s0) /\ dict_get "executed" stats0 = Some 0%Z) /\
  (exists groups g' stats s,
     get_execution_order g = Ok (groups, g') /\
     get_stats g' = Ok (stats, s) /\
     dict_get "total_suites" stats = Some (Z.of_nat (List.length (nodes g))) /\
     dict_get "executed" stats = Some (Z.of_nat (List.length (nodes g))) /\
     dict_get "pending" stats = Some 0%Z).
Proof.
  intros Hinit Hrt.
  pose proof (init_spec p) as Hi. rewrite Hinit in Hi. destruct Hi as (_ & G0 & F & Hrank).
  destruct (runtime_graph p g0 g Hinit Hrt) as (_ & G & _ & _).
  pose proof (get_execution_order_spec p g G Hrank) as Ho.
  destruct (get_execution_order g) as [[groups g']|e|]; try contradiction.
  destruct Ho as (_ & S & Hflags & _).
  pose proof (graph_of_same p _ _ G S) as G'.
  split.
  - pose proof (get_execution_order_spec p g0 G0 Hrank) as O0. unfold get_stats.
    destruct (get_execution_order g0) as [[gs s0]|e|]; try contradiction.
    do 2 eexists. split; [reflexivity|]. cbn [bind fst snd].
    rewrite (count_executed_fresh (nodes g0) F (g_nodup _ _ G0)). reflexivity.
  - pose proof (get_execution_order_spec p g' G' Hrank) as O'.
    exists groups, g'. unfold get_stats.
    destruct (get_execution_order g') as [[gs s]|e|]; try contradiction.
    do 2 eexists. split; [reflexivity|]. split; [reflexivity|].
    cbn [bind fst snd].
    assert (List.length (nodes g') = List.length (nodes g)) as Hlen.
    { rewrite <- (length_map fst (nodes g')), <- (length_map fst (nodes g)).
      fold (dict_keys (nodes g')). now rewrite (proj1 S). }
    rewrite (count_executed_all (nodes g') (g_nodup _ _ G')).
    + rewrite Hlen. simpl. rewrite Z.sub_diag. auto.
    + intros k Hk. apply Hflags. now rewrite <- (proj1 S).
Qed.

Lemma get_stats_after_scheduling_witness :
  (exists stats0 s0,
     get_stats (built chain) = Ok (stats0, s0) /\ dict_get "executed" stats0 = Some 0%Z) /\
  (exists groups g' stats s,
     get_execution_order (built chain) = Ok (groups, g') /\
     get_stats g' = Ok (stats, s) /\
     dict_get "total_suites" stats = Some (Z.of_nat (List.length (nodes (built chain)))) /\
     dict_get "executed" stats = Some (Z.of_nat (List.length (nodes (built chain)))) /\
     dict_get "pending" stats = Some 0%Z).
Proof.
  apply (get_stats_after_scheduling chain (built chain) (built chain)).
  - reflexivity.
  - apply rt_built.
Defined.

(** ** Chunks and levels *)

(** X21: for a positive ceiling, in every runtime state,
    [get_parallel_groups] returns chunks whose concatenation is the
    concatenation of the groups of [get_execution_order] (no suite is
    dropped, added or moved), and every dependency of a member of a chunk
    is a member of a chunk of smaller index. *)
Theorem parallel_groups_keep_sequence_and_order {SO : SetOrder} {CS : CallStack}
  (p : TestPlan) (g0 g : DAGBuilder) (max_parallel : Z) :
  __init__ p = Ok g0 -> runtime g0 g -> (0 < max_parallel)%Z ->
  exists groups result g',
    get_execution_order g = Ok (groups, g') /\
    get_parallel_groups g max_parallel = Ok (result, g') /\
    List.concat result = List.concat groups /\
    (forall i ci v d,
       nth_error result i = Some ci -> In v ci -> plan_edge p v d ->
       exists j cj, j < i /\ nth_error result j = Some cj /\ In d cj).
Proof.
  intros Hinit Hrt Hm. destruct (runtime_graph p g0 g Hinit Hrt) as (_ & G & _ & Hrank).
  pose proof (get_execution_order_spec p g G Hrank) as Ho. unfold get_parallel_groups.
  destruct (get_execution_order g) as [[groups g']|e|]; try contradiction.
  destruct Ho as (_ & _ & _ & _ & _ & Hlev & _).
  destruct (split_groups_spec max_parallel groups Hm) as (chunked & Hrun & HF).
  exists groups, (List.concat chunked), g'. split; [reflexivity|].
  cbn [bind fst snd]. rewrite Hrun. split; [reflexivity|].
  split; [eapply chunked_flatten; eauto|].
  intros i ci v d Hi Hv He.
  apply (leveled_chunked (graph_edge (nodes g)) _ groups chunked HF Hlev i ci v d Hi Hv).
  now apply (g_deps _ _ G).
Qed.

Lemma parallel_groups_keep_sequence_and_order_witness :
  exists groups result g',
    get_execution_order (built diamond) = Ok (groups, g') /\
    get_parallel_groups (built diamond) 1 = Ok (result, g') /\
    List.concat result = List.concat groups /\
    (forall i ci v d,
       nth_error result i = Some ci -> In v ci -> plan_edge diamond v d ->
       exists j cj, j < i /\ nth_error result j = Some cj /\ In d cj).
Proof.
  apply (parallel_groups_keep_sequence_and_order diamond (built diamond) (built diamond) 1).
  - reflexivity.
  - apply rt_built.
  - lia.
Defined.

(** X22: a ceiling that no group exceeds changes nothing: when every group
    of [get_execution_order] has at most [max_parallel] members, with
    [max_parallel] positive, [get_parallel_groups] returns those groups. *)
Theorem large_ceiling_keeps_groups {SO : SetOrder} {CS : CallStack}
  (p : TestPlan) (g0 g : DAGBuilder) (max_parallel : Z)
  (groups : list (list string)) (g' : DAGBuilder) :
  __init__ p = Ok g0 -> runtime g0 g -> (0 < max_parallel)%Z ->
  get_execution_order g = Ok (groups, g') ->
  (forall grp, In grp groups -> (Z.of_nat (List.length grp) <= max_parallel)%Z) ->
  get_parallel_groups g max_parallel = Ok (groups, g').
Proof.
  intros Hinit Hrt Hm Hord Hsmall.
  destruct (runtime_graph p g0 g Hinit Hrt) as (_ & G & _ & Hrank).
  pose proof (get_execution_order_spec p g G Hrank) as Ho. unfold get_parallel_groups.
  rewrite Hord in *. destruct Ho as (_ & _ & _ & _ & _ & _ & Hne).
  cbn [bind fst snd]. rewrite split_groups_identity; [reflexivity | exact Hm |].
  apply Forall_forall. intros grp Hin. rewrite Forall_forall in Hne. auto.
Qed.

Lemma large_ceiling_keeps_groups_witness :
  get_parallel_groups (built diamond) 2
  = Ok ([["A"]; ["B"; "C"]; ["D"]]%string, after_order (built diamond)).
Proof.
  apply (large_ceiling_keeps_groups diamond (built diamond) (built diamond) 2).
  - reflexivity.
  - apply rt_built.
  - lia.
  - reflexivity.
  - intros grp [<-|[<-|[<-|[]]]]; simpl; lia.
Defined.
